(** * awkward-array: jagged arrays, persistence schema and columnar bridges

    A shallow embedding of [awkward/jagged.py], [awkward/persist.py] and
    [awkward/arrow.py].  Part I holds the definitions, one module per
    source file (preceded by the Python and numpy notions they rely on);
    Part II holds the lemmas and the theorems about them, and Part III
    further properties of the code: round trips, composition of
    selections, edge cases and the buffer discipline of [fromarrow]. *)

From Stdlib Require Import String Ascii.
From Stdlib Require Import ZArith List Lia Bool Permutation DecimalString.
Import ListNotations.
Set Warnings "-register-all".
Open Scope string_scope.
Open Scope list_scope.
Open Scope Z_scope.

(* ================================================================== *)
(** * Part I: definitions *)
(* ================================================================== *)

(** ** Python: exceptions, results, slices and sequence indexing *)
Module Py.

(** The exception classes the modelled code raises, each with its message
    (for [NameError] and [UnboundLocalError]: the offending name). *)
Inductive exn : Type :=
| ValueError (msg : string)
| TypeError (msg : string)
| IndexError (msg : string)
| NameError (name : string)
| UnboundLocalError (name : string)
| AttributeError (msg : string)
| KeyError (key : string)
| RecursionError
| NotImplementedError (msg : string).

Inductive result (A : Type) : Type :=
| Ok (a : A)
| Raise (e : exn).
Arguments Ok {A} a.
Arguments Raise {A} e.

Definition bind {A B : Type} (r : result A) (k : A -> result B) : result B :=
  match r with
  | Ok a => k a
  | Raise e => Raise e
  end.

Definition is_ok {A : Type} (r : result A) : bool :=
  match r with Ok _ => true | Raise _ => false end.

(** The error kinds of the specification that the claims name, and the
    exceptions of the code that carry them. *)
Inductive error_kind : Type :=
| read_only
| length_mismatch
| incompatible_offsets
| not_implemented
| forbidden_constructor.

Definition prefix_of (p s : string) : bool := String.prefix p s.

Definition kind_of (e : exn) : option error_kind :=
  match e with
  | ValueError msg =>
      if String.eqb msg "assignment destination is read-only" then Some read_only
      else if prefix_of "cannot copy" msg then Some length_mismatch
      else if String.eqb msg "starts and stops are not compatible with a single offsets array"
           then Some incompatible_offsets
      else None
  | NotImplementedError _ => Some not_implemented
  | _ => None
  end.

(** [fails_with r k]: the call raised an exception of kind [k]. *)
Definition fails_with {A : Type} (r : result A) (k : error_kind) : Prop :=
  exists e, r = Raise e /\ kind_of e = Some k.

(** A slice object [start:stop:step]; [None] is an omitted bound. *)
Record slice : Type := Slice {
  sl_start : option Z;
  sl_stop : option Z;
  sl_step : option Z
}.

(** [slice.indices(len)]: negative bounds count from the end, and every
    bound is clamped to the sequence. *)
Definition clamp_bound (len lower upper b : Z) : Z :=
  if b <? 0 then Z.max (b + len) lower else Z.min b upper.

Definition slice_indices (sl : slice) (len : Z) : result (Z * Z * Z) :=
  let step := match sl_step sl with Some s => s | None => 1 end in
  if step =? 0 then Raise (ValueError "slice step cannot be zero")
  else
    let lower := if step <? 0 then -1 else 0 in
    let upper := if step <? 0 then len - 1 else len in
    let start := match sl_start sl with
                 | None => if step <? 0 then upper else lower
                 | Some b => clamp_bound len lower upper b
                 end in
    let stop := match sl_stop sl with
                | None => if step <? 0 then lower else upper
                | Some b => clamp_bound len lower upper b
                end in
    Ok (start, stop, step).

(** Number of positions [start, start+step, ...] before [stop]. *)
Definition slice_length (start stop step : Z) : nat :=
  Z.to_nat (if step <? 0
            then (if stop <? start then (start - stop - 1) / (- step) + 1 else 0)
            else (if start <? stop then (stop - start - 1) / step + 1 else 0)).

(** The element at position [i], as a list of at most one element. *)
Definition pick {A : Type} (l : list A) (i : Z) : list A :=
  if i <? 0 then []
  else match nth_error l (Z.to_nat i) with
       | Some x => [x]
       | None => []
       end.

(** The elements at positions [first], [first+step], ... ([n] of them). *)
Definition strided {A : Type} (l : list A) (first step : Z) (n : nat) : list A :=
  flat_map (fun k => pick l (first + Z.of_nat k * step)) (seq 0 n).

(** [l[start:stop:step]] *)
Definition getslice {A : Type} (l : list A) (sl : slice) : result (list A) :=
  bind (slice_indices sl (Z.of_nat (length l)))
       (fun '(start, stop, step) => Ok (strided l start step (slice_length start stop step))).

(** [l[a:b]], the slice with both bounds given and no step: it cannot fail. *)
Definition getrange {A : Type} (l : list A) (a b : Z) : list A :=
  let len := Z.of_nat (length l) in
  let start := clamp_bound len 0 len a in
  let stop := clamp_bound len 0 len b in
  strided l start 1 (slice_length start stop 1).

(** A negative index counts from the end. *)
Definition wrap_index (len i : Z) : Z := if i <? 0 then i + len else i.

(** [l[i]] for an integer [i] *)
Definition getitem {A : Type} (l : list A) (i : Z) : result A :=
  let len := Z.of_nat (length l) in
  let j := wrap_index len i in
  if (j <? 0) || (len <=? j) then Raise (IndexError "index out of bounds")
  else match nth_error l (Z.to_nat j) with
       | Some x => Ok x
       | None => Raise (IndexError "index out of bounds")
       end.

(** [l[idx]] for an integer array [idx] (numpy gather): every index must be
    in range. *)
Fixpoint take {A : Type} (l : list A) (idx : list Z) : result (list A) :=
  match idx with
  | [] => Ok []
  | i :: rest =>
      bind (getitem l i) (fun x =>
      bind (take l rest) (fun xs => Ok (x :: xs)))
  end.

(** [l[mask]] for a boolean array of the length of [l]. *)
Fixpoint compress {A : Type} (l : list A) (mask : list bool) : list A :=
  match l, mask with
  | x :: l', b :: mask' => if b then x :: compress l' mask' else compress l' mask'
  | _, _ => []
  end.

Definition getmask {A : Type} (l : list A) (mask : list bool) : result (list A) :=
  if Nat.eqb (length mask) (length l) then Ok (compress l mask)
  else Raise (IndexError "boolean index did not match indexed array").

End Py.

(** ** numpy: one-dimensional integer arrays, views and in-place writes *)
Module Numpy.
Import Py.

(** A memory block with the identity of the array object that owns it.
    [a is b] on owning arrays is equality of [ident]. *)
Record buffer : Type := Buffer {
  ident : nat;
  cells : list Z
}.

(** An array either owns its block ([base] is [None]) or is a view of the
    block of its [base]: [n] elements, the [k]-th being cell
    [first + k * step] of the block. *)
Inductive ndarray : Type :=
| Owner (b : buffer)
| View (b : buffer) (first step : Z) (n : nat).

Definition items (a : ndarray) : list Z :=
  match a with
  | Owner b => cells b
  | View b first step n => strided (cells b) first step n
  end.

Definition len (a : ndarray) : Z :=
  match a with
  | Owner b => Z.of_nat (length (cells b))
  | View _ _ _ n => Z.of_nat n
  end.

Definition base (a : ndarray) : option buffer :=
  match a with
  | Owner _ => None
  | View b _ _ _ => Some b
  end.

Definition buffer_len (b : buffer) : Z := Z.of_nat (length (cells b)).

(** A view is well formed when every element lies inside its block. *)
Definition inside (b : buffer) (first step : Z) (n : nat) : bool :=
  forallb (fun k => let c := first + Z.of_nat k * step in
                    (0 <=? c) && (c <? buffer_len b)) (seq 0 n).

Definition wf (a : ndarray) : bool :=
  match a with
  | Owner _ => true
  | View b first step n => inside b first step n
  end.

(** [a[start:stop:step]] is a view of the same block. *)
Definition view (a : ndarray) (start step : Z) (n : nat) : ndarray :=
  match a with
  | Owner b => View b start step n
  | View b first s _ => View b (first + start * s) (s * step) n
  end.

(** [a[sl]]: an empty slice is a view without elements that starts where
    [a] starts, whatever the bounds of the slice. *)
Definition getslice_array (a : ndarray) (sl : slice) : result ndarray :=
  bind (slice_indices sl (len a))
       (fun '(start, stop, step) =>
          match slice_length start stop step with
          | O => Ok (view a 0 1 0)
          | S n => Ok (view a start step (S n))
          end).

(** Array creation gives the new object a fresh identity; the computations
    that create arrays thread the next free identity. *)
Definition M (A : Type) : Type := nat -> result (A * nat).

Definition ret {A : Type} (a : A) : M A := fun n => Ok (a, n).

Definition raise {A : Type} (e : exn) : M A := fun _ => Raise e.

Definition lift {A : Type} (r : result A) : M A :=
  fun n => bind r (fun a => Ok (a, n)).

Definition mbind {A B : Type} (m : M A) (k : A -> M B) : M B :=
  fun n => bind (m n) (fun '(a, n') => k a n').

Definition new_array (l : list Z) : M ndarray :=
  fun n => Ok (Owner (Buffer n l), S n).

(** The value of a computation run from any identity supply. *)
Definition value {A : Type} (r : result (A * nat)) : result A :=
  bind r (fun p => Ok (fst p)).

(** Selectors of [a[where]]. *)
Inductive selector : Type :=
| SelInt (i : Z)
| SelSlice (sl : slice)
| SelArray (idx : list Z)
| SelMask (mask : list bool)
| SelString (name : string).

(** [_isstring(where)] *)
Definition is_field_name (sel : selector) : bool :=
  match sel with SelString _ => true | _ => false end.

(** [a[where]] is zero-dimensional (one item) or an array. *)
Inductive indexed (S A : Type) : Type :=
| Scalar (s : S)
| Array (a : A).
Arguments Scalar {S A} s.
Arguments Array {S A} a.

(** The error of [a[name]] on an array without the field [name] (for a
    record array numpy raises [ValueError], no field of that name). *)
Definition field_error : exn :=
  IndexError "only integers, slices, ellipsis, numpy.newaxis and integer or boolean arrays are valid indices".

(** [a[where]] on array objects: a slice gives a view, an integer or
    boolean array gives a new array. *)
Definition index (a : ndarray) (where_ : selector) : M (indexed Z ndarray) :=
  match where_ with
  | SelInt i => lift (bind (getitem (items a) i) (fun z => Ok (Scalar z)))
  | SelSlice sl => lift (bind (getslice_array a sl) (fun v => Ok (Array v)))
  | SelArray idx =>
      mbind (lift (take (items a) idx)) (fun l =>
      mbind (new_array l) (fun v => ret (Array v)))
  | SelMask mask =>
      mbind (lift (getmask (items a) mask)) (fun l =>
      mbind (new_array l) (fun v => ret (Array v)))
  | SelString _ => raise field_error
  end.

(** [a[where]] on the items alone. *)
Definition index_items (l : list Z) (where_ : selector) : result (indexed Z (list Z)) :=
  match where_ with
  | SelInt i => bind (getitem l i) (fun z => Ok (Scalar z))
  | SelSlice sl => bind (getslice l sl) (fun v => Ok (Array v))
  | SelArray idx => bind (take l idx) (fun v => Ok (Array v))
  | SelMask mask => bind (getmask l mask) (fun v => Ok (Array v))
  | SelString _ => Raise field_error
  end.

(** [numpy.array_equal]: same shape and same items. *)
Fixpoint array_equal (l1 l2 : list Z) : bool :=
  match l1, l2 with
  | [], [] => true
  | x :: l1', y :: l2' => (x =? y) && array_equal l1' l2'
  | _, _ => false
  end.

(** [numpy.empty(n)]: [n] cells of uninitialised memory, whatever it holds. *)
Definition empty (memory : nat -> Z) (n : nat) : list Z := map memory (seq 0 n).

(** The right-hand side of an assignment: one item or a sequence. *)
Inductive rhs (A : Type) : Type :=
| Item (x : A)
| Items (xs : list A).
Arguments Item {A} x.
Arguments Items {A} xs.

Definition broadcast_error : exn := ValueError "could not broadcast input array".

(** The items written to a range of [n] cells by [... = v]: an item fills
    the range, a sequence must have the length of the range, or length one
    (it is then broadcast). *)
Definition broadcast_to {A : Type} (n : nat) (v : rhs A) : result (list A) :=
  match v with
  | Item x => Ok (repeat x n)
  | Items xs =>
      if Nat.eqb (length xs) n then Ok xs
      else match xs with
           | [x] => Ok (repeat x n)
           | _ => Raise broadcast_error
           end
  end.

(** The cells from [start] on are overwritten by [xs]. *)
Definition put {A : Type} (l : list A) (start : nat) (xs : list A) : list A :=
  firstn start l ++ xs ++ skipn (start + length xs) l.

(** [l[a:b] = v] *)
Definition setrange {A : Type} (l : list A) (a b : Z) (v : rhs A) : result (list A) :=
  let len := Z.of_nat (length l) in
  let start := clamp_bound len 0 len a in
  let stop := clamp_bound len 0 len b in
  bind (broadcast_to (slice_length start stop 1) v) (fun xs =>
  Ok (put l (Z.to_nat start) xs)).

(** What a caller passes for the parameter [axis] of a numpy function:
    nothing, an integer, or an array. *)
Inductive axis_arg : Type :=
| NoAxis
| Axis (i : Z)
| AxisArray (a : ndarray).

Definition axis_type_error : exn :=
  TypeError "only integer scalar arrays can be converted to a scalar index".

(** Arithmetic of the index type, a signed integer of [itembytes] bytes. *)
Section IndexType.
Variable itembytes : positive.

Definition itemsize : Z := Z.pos itembytes.
Definition modulus : Z := 2 ^ (8 * itemsize).
Definition half : Z := 2 ^ (8 * itemsize - 1).

Definition wrap (x : Z) : Z := (x + half) mod modulus - half.

Definition in_range (x : Z) : bool := (- half <=? x) && (x <? half).

(** [ctypes.data], as the byte offset from the start of the array's
    memory block (pointers into one block compare as their offsets).  An
    empty slice has the address of the array it is taken from, as
    [getslice_array] builds it. *)
Definition data (a : ndarray) : Z :=
  match a with
  | Owner _ => 0
  | View _ first _ _ => first * itemsize
  end.

Definition buffer_data (b : buffer) : Z := 0.

(** [a - b], item by item, with numpy's broadcasting of a length-one
    operand. *)
Definition subtract (a b : list Z) : result (list Z) :=
  if Nat.eqb (length a) (length b) then Ok (map (fun '(x, y) => wrap (x - y)) (combine a b))
  else match a, b with
       | [x], _ => Ok (map (fun y => wrap (x - y)) b)
       | _, [y] => Ok (map (fun x => wrap (x - y)) a)
       | _, _ => Raise (ValueError "operands could not be broadcast together")
       end.

(** [a.sum()] in the index type. *)
Definition sum (a : list Z) : Z := fold_left (fun acc x => wrap (acc + x)) a 0.

(** The running sums of [a], accumulated in the index type from [acc]. *)
Fixpoint cumsum (acc : Z) (a : list Z) : list Z :=
  match a with
  | [] => []
  | c :: rest => let acc' := wrap (acc + c) in acc' :: cumsum acc' rest
  end.

(** [numpy.cumsum(a, axis)] for a one-dimensional [a]; the signature is
    [cumsum(a, axis=None, dtype=None, out=None)].  The axis of a
    one-dimensional array is 0 (or -1); a one-dimensional array is not
    accepted as an axis. *)
Definition numpy_cumsum (a : list Z) (axis : axis_arg) : result (list Z) :=
  match axis with
  | NoAxis => Ok (cumsum 0 a)
  | Axis i => if (i =? 0) || (i =? -1) then Ok (cumsum 0 a)
              else Raise (ValueError "axis is out of bounds for array of dimension 1")
  | AxisArray _ => Raise axis_type_error
  end.
End IndexType.

End Numpy.

(** ** awkward/jagged.py *)
Module Jagged.
Import Py Numpy.

Section JaggedArray.
(** [INDEXTYPE] (declared in awkward/base.py) is a signed integer type of
    [itembytes] bytes; [starts] and [stops] hold items of that type. *)
Variable itembytes : positive.
(** The items of the content buffer. *)
Variable A : Type.
(** [content[name]] for a field name: the column of a structured content
    array, [None] when the content has no such field. *)
Variable getfield : list A -> string -> option (list A).

Record JaggedArray : Type := mk {
  _starts : ndarray;
  _stops : ndarray;
  _content : list A;
  _writeable : bool
}.

(** [__init__]: the setters keep arrays as they are given. *)
Definition __init__ (starts stops : ndarray) (content : list A) (writeable : bool)
  : JaggedArray := mk starts stops content writeable.

Definition all_but_last : slice := Slice None (Some (-1)) None.
Definition all_but_first : slice := Slice (Some 1) None None.
Definition everything : slice := Slice None None None.

(** [fromoffsets]: [cls(offsets[:-1], offsets[1:], content)] *)
Definition fromoffsets (offsets : ndarray) (content : list A) (writeable : bool)
  : result JaggedArray :=
  bind (getslice_array offsets all_but_last) (fun starts =>
  bind (getslice_array offsets all_but_first) (fun stops =>
  Ok (__init__ starts stops content writeable))).

(** [fromcounts]:
    [offsets = numpy.empty(len(counts) + 1, JaggedArray.INDEXTYPE)
     offsets[0] = 0
     numpy.cumsum(counts, offsets[1:])
     return cls(offsets[:-1], offsets[1:], content, writeable=writeable)].
    The view [offsets[1:]] is the second positional argument of
    [numpy.cumsum], which is [axis] (the output array is the fourth,
    [out]). *)
Definition fromcounts (memory : nat -> Z) (counts : list Z) (content : list A)
    (writeable : bool) : M JaggedArray :=
  mbind (new_array (put (empty memory (S (length counts))) 0 [0])) (fun offsets =>
  mbind (lift (getslice_array offsets all_but_first)) (fun tail =>
  mbind (lift (numpy_cumsum itembytes counts (AxisArray tail))) (fun _ =>
  lift (fromoffsets offsets content writeable)))).

Definition starts (N : JaggedArray) : list Z := items (_starts N).
Definition stops (N : JaggedArray) : list Z := items (_stops N).

(** [__len__]: the length is determined by [starts]. *)
Definition __len__ (N : JaggedArray) : Z := len (_starts N).

(** The invariant of the data model:
    [0 <= starts[i] <= stops[i] <= len(content)] for every row, with at
    least as many stops as starts. *)
Definition row_ok (clen : Z) (r : Z * Z) : bool :=
  (0 <=? fst r) && (fst r <=? snd r) && (snd r <=? clen).

Definition invariant (N : JaggedArray) : bool :=
  (length (starts N) <=? length (stops N))%nat
  && forallb (row_ok (Z.of_nat (length (_content N)))) (combine (starts N) (stops N)).

(** Row [k] covers position [p] of the content: [starts[k] <= p < stops[k]]. *)
Definition covers (starts stops : list Z) (k : nat) (p : Z) : bool :=
  match nth_error starts k, nth_error stops k with
  | Some s, Some e => (s <=? p) && (p <? e)
  | _, _ => false
  end.

(** [_offsets_is_aliased]: both arrays are views, of the same base, the
    first starting where the base starts, the second one item later, both
    one item shorter than the base. *)
Definition _offsets_is_aliased (N : JaggedArray) : bool :=
  match base (_starts N), base (_stops N) with
  | Some bs, Some bt =>
      Nat.eqb (ident bs) (ident bt)
      && (data itembytes (_starts N) =? buffer_data bs)
      && (data itembytes (_stops N) =? buffer_data bt + itemsize itembytes)
      && (len (_starts N) =? buffer_len bs - 1)
      && (len (_stops N) =? buffer_len bt - 1)
  | _, _ => false
  end.

Definition offsets_error : exn :=
  ValueError "starts and stops are not compatible with a single offsets array".

(** The [offsets] property. *)
Definition offsets (N : JaggedArray) : M ndarray :=
  if _offsets_is_aliased N then
    match base (_starts N) with
    | Some b => ret (Owner b)
    | None => raise (AttributeError "base")
    end
  else
    mbind (lift (getslice (starts N) all_but_first)) (fun s1 =>
    mbind (lift (getslice (stops N) all_but_last)) (fun e1 =>
    if array_equal s1 e1 then
      mbind (lift (getitem (stops N) (-1))) (fun last =>
      new_array (starts N ++ [last]))
    else raise offsets_error)).

(** The [counts] property: [stops - starts]. *)
Definition counts (N : JaggedArray) : result (list Z) :=
  subtract itembytes (stops N) (starts N).

(** The [parents] property: the loop
    [while i < lenstarts: out[starts[i]:stops[i]] = i; i += 1], with [n]
    the number of iterations left. *)
Fixpoint parents_loop (starts stops : list Z) (n : nat) (i : Z) (out : list Z)
  : result (list Z) :=
  match n with
  | O => Ok out
  | S n' =>
      bind (getitem starts i) (fun s =>
      bind (getitem stops i) (fun e =>
      bind (setrange out s e (Item i)) (fun out' =>
      parents_loop starts stops n' (i + 1) out')))
  end.

Definition parents (memory : nat -> Z) (N : JaggedArray) : result (list Z) :=
  let out := empty memory (length (_content N)) in
  parents_loop (starts N) (stops N) (length (starts N)) 0 out.

(** [_check_startsstops]: the arrays of this model are one-dimensional
    and of integer type, which leaves the comparison of the lengths.  (An
    empty [starts] or [stops] is replaced by a view of itself in the index
    type; its items, none, are the same.) *)
Definition _check_startsstops (N : JaggedArray) : result unit :=
  if len (_stops N) <? len (_starts N)
  then Raise (ValueError "starts must be have as many or fewer elements as stops")
  else Ok tt.

(** [__getitem__]: a field name selects in the content; otherwise
    [starts] and [stops] are indexed by [where].  Both results are
    zero-dimensional exactly when [where] is an integer: the last branch
    of the match cannot be reached. *)
Definition __getitem__ (N : JaggedArray) (where_ : selector)
  : M (indexed (list A) JaggedArray) :=
  match where_ with
  | SelString name =>
      match getfield (_content N) name with
      | Some c => ret (Array (__init__ (_starts N) (_stops N) c (_writeable N)))
      | None => raise field_error
      end
  | _ =>
      mbind (lift (_check_startsstops N)) (fun _ =>
      mbind (index (_starts N) where_) (fun starts =>
      mbind (index (_stops N) where_) (fun stops =>
      match starts, stops with
      | Scalar s, Scalar e => ret (Scalar (getrange (_content N) s e))
      | Array s, Array e => ret (Array (__init__ s e (_content N) (_writeable N)))
      | _, _ => raise (TypeError "starts and stops of different dimensions")
      end)))
  end.

(** The right-hand side of [N[where] = what]: a jagged array (which may
    share the content buffer of [N]), another sequence, or anything
    else (one item). *)
Inductive assigned : Type :=
| Jag (what : JaggedArray) (shares_content : bool)
| Seq (xs : list A)
| Other (x : A).

(** numpy's conversion of a jagged array on the right-hand side of a
    plain slice assignment. *)
Variable asarray : JaggedArray -> result (rhs A).

Definition as_rhs (what : assigned) : result (rhs A) :=
  match what with
  | Jag j _ => asarray j
  | Seq xs => Ok (Items xs)
  | Other x => Ok (Item x)
  end.

(** Modelled from the spec: iteration over a jagged array
    ([AwkwardArray.__iter__], in awkward/base.py) is the in-order
    traversal of its elements [what[0]], [what[1]], ...; [row what src i]
    is the element [what[i]], read from the buffer [src]. *)
Definition row (what : JaggedArray) (src : list A) (i : Z) : result (list A) :=
  bind (_check_startsstops what) (fun _ =>
  bind (getitem (starts what) i) (fun s =>
  bind (getitem (stops what) i) (fun e =>
  Ok (getrange src s e)))).

(** [for which, start, stop in izip(what, starts, stops):
       self._content[start:stop] = which], with [n] the rows of [what]
    still to come and [i] the index of the next one.  The content is
    returned as the loop leaves it, also when a write fails. *)
Fixpoint copy_rows (what : JaggedArray) (shared : bool) (i : Z) (n : nat)
    (ranges : list (Z * Z)) (content : list A) : result unit * list A :=
  match n, ranges with
  | S n', (start, stop) :: rest =>
      match row what (if shared then content else _content what) i with
      | Raise e => (Raise e, content)
      | Ok which =>
          match setrange content start stop (Items which) with
          | Raise e => (Raise e, content)
          | Ok content' => copy_rows what shared (i + 1) n' rest content'
          end
      end
  | _, _ => (Ok tt, content)
  end.

(** [for start, stop in izip(starts, stops): self._content[start:stop] = v] *)
Fixpoint fill_rows (v : rhs A) (ranges : list (Z * Z)) (content : list A)
  : result unit * list A :=
  match ranges with
  | [] => (Ok tt, content)
  | (start, stop) :: rest =>
      match setrange content start stop v with
      | Raise e => (Raise e, content)
      | Ok content' => fill_rows v rest content'
      end
  end.

(** [this = next = 0
     for start, stop in izip(starts, stops):
         next += stop - start
         self._content[start:stop] = what[this:next]
         this = next] *)
Fixpoint distribute_rows (what : list A) (this : Z) (ranges : list (Z * Z))
    (content : list A) : result unit * list A :=
  match ranges with
  | [] => (Ok tt, content)
  | (start, stop) :: rest =>
      let next := wrap itembytes (this + wrap itembytes (stop - start)) in
      match setrange content start stop (Items (getrange what this next)) with
      | Raise e => (Raise e, content)
      | Ok content' => distribute_rows what next rest content'
      end
  end.

Definition read_only_error : exn := ValueError "assignment destination is read-only".
Definition copy_jagged_error : exn :=
  ValueError "cannot copy JaggedArray with length {0} to JaggedArray with dimension {1}".
Definition copy_sequence_error : exn :=
  ValueError "cannot copy sequence with length {0} to JaggedArray with dimension {1}".

(** The body of [__setitem__] once [starts[where]] and [stops[where]] are
    arrays.  The tests [isinstance(what, (collections.Sequence,
    numpy.ndarray, awkward.base.AwkwardArray))] separate the sequences from
    the other values ([collections.Sequence] is the abstract class of
    sequences). *)
Definition assign_rows (starts stops : list Z) (what : assigned) (content : list A)
  : result unit * list A :=
  match what with
  | Jag j shared =>
      if negb (__len__ j =? Z.of_nat (length starts)) then (Raise copy_jagged_error, content)
      else copy_rows j shared 0 (Z.to_nat (__len__ j)) (combine starts stops) content
  | Seq [x] => fill_rows (Item x) (combine starts stops) content
  | Seq xs =>
      match subtract itembytes stops starts with
      | Raise e => (Raise e, content)
      | Ok d =>
          if negb (Z.of_nat (length xs) =? sum itembytes d)
          then (Raise copy_sequence_error, content)
          else distribute_rows xs 0 (combine starts stops) content
      end
  | Other x => fill_rows (Item x) (combine starts stops) content
  end.

(** [__setitem__]: the outcome and the content buffer after the call.
    For a field name the statement
    [JaggedArray(self._starts, self._stops, self._content[where],
                 writeable=writeable)[:] = what]
    evaluates [self._content[where]] and then the name [writeable], which
    is bound neither in the method (its names are [self], [where],
    [what]) nor in the module: the call is never made. *)
Definition __setitem__ (N : JaggedArray) (where_ : selector) (what : assigned)
  : result unit * list A :=
  let content := _content N in
  match where_ with
  | SelString name =>
      match getfield content name with
      | None => (Raise field_error, content)
      | Some _ => (Raise (NameError "writeable"), content)
      end
  | _ =>
      if negb (_writeable N) then (Raise read_only_error, content)
      else
        match _check_startsstops N with
        | Raise e => (Raise e, content)
        | Ok _ =>
            match index_items (starts N) where_ with
            | Raise e => (Raise e, content)
            | Ok starts =>
                match index_items (stops N) where_ with
                | Raise e => (Raise e, content)
                | Ok stops =>
                    match starts, stops with
                    | Scalar s, Scalar e =>
                        match bind (as_rhs what) (setrange content s e) with
                        | Raise e => (Raise e, content)
                        | Ok content' => (Ok tt, content')
                        end
                    | Array s, Array e => assign_rows s e what content
                    | _, _ => (Raise (TypeError "starts and stops of different dimensions"),
                               content)
                    end
                end
            end
        end
  end.

End JaggedArray.

Arguments _starts {A} _.
Arguments _stops {A} _.
Arguments _content {A} _.
Arguments _writeable {A} _.
Arguments mk {A} _ _ _ _.
Arguments starts {A} N.
Arguments stops {A} N.
Arguments __len__ {A} N.
Arguments invariant {A} N.
Arguments Jag {A} what shares_content.
Arguments Seq {A} xs.
Arguments Other {A} x.
Arguments row {A} what src i.
Arguments _check_startsstops {A} N.
Arguments __init__ {A} starts stops content writeable.
Arguments fromoffsets {A} offsets content writeable.
Arguments fromcounts itembytes {A} memory counts content writeable.
Arguments _offsets_is_aliased itembytes {A} N.
Arguments offsets itembytes {A} N.
Arguments counts itembytes {A} N.
Arguments parents {A} memory N.
Arguments __getitem__ {A} getfield N where_.
Arguments as_rhs {A} asarray what.
Arguments copy_rows {A} what shared i n ranges content.
Arguments fill_rows {A} v ranges content.
Arguments distribute_rows itembytes {A} what this ranges content.
Arguments assign_rows itembytes {A} starts stops what content.
Arguments __setitem__ itembytes {A} getfield asarray N where_ what.

(** *** The effect of an assignment, position by position *)

(** A write puts the items [xs] at the positions from [start] on. *)
Definition apply_writes {A : Type} (writes : list (nat * list A)) (content : list A)
  : list A :=
  fold_left (fun c w => put c (fst w) (snd w)) writes content.

(** What position [p] holds after the writes, when it held [old]: the item
    given by the last write that covers it. *)
Fixpoint written {A : Type} (writes : list (nat * list A)) (p : nat) (old : option A)
  : option A :=
  match writes with
  | [] => old
  | (start, xs) :: rest =>
      written rest p (if (start <=? p)%nat && (p <? start + length xs)%nat
                      then nth_error xs (p - start) else old)
  end.

(** The rows of a jagged array, as lists. *)
Definition tolist {A : Type} (N : JaggedArray A) : list (list A) :=
  map (fun r => getrange (_content N) (fst r) (snd r)) (combine (starts N) (stops N)).

(** Each selected row receives the row of the right-hand side. *)
Definition copy_writes {A : Type} (ranges : list (Z * Z)) (rows : list (list A))
  : list (nat * list A) :=
  map (fun rw => (Z.to_nat (fst (fst rw)), snd rw)) (combine ranges rows).

(** Each selected row is filled with [x]. *)
Definition fill_writes {A : Type} (x : A) (ranges : list (Z * Z)) : list (nat * list A) :=
  map (fun r => (Z.to_nat (fst r), repeat x (Z.to_nat (snd r - fst r)))) ranges.

(** The selected rows receive consecutive segments of [xs], from [this] on. *)
Fixpoint segment_writes {A : Type} (xs : list A) (this : nat) (ranges : list (Z * Z))
  : list (nat * list A) :=
  match ranges with
  | [] => []
  | (s, e) :: rest =>
      (Z.to_nat s, firstn (Z.to_nat (e - s)) (skipn this xs))
        :: segment_writes xs (this + Z.to_nat (e - s)) rest
  end.

(** The sum of the counts of the selected rows, as an integer. *)
Definition total (ranges : list (Z * Z)) : Z :=
  fold_right (fun r acc => (snd r - fst r) + acc) 0 ranges.

(** The selectors that select rows (not one row, not a field). *)
Definition selects_rows (sel : selector) : bool :=
  match sel with
  | SelSlice _ | SelArray _ | SelMask _ => true
  | _ => false
  end.

(** *** fromiterable and compatible *)

Section FromIterable.
Context {A : Type}.
(** The class called at the end of [fromiterable], [cls(starts, stops,
    content, writeable=writeable)], on Python lists. *)
Variable R : Type.
Variable cls : list Z -> list Z -> list A -> bool -> R.

(** [for x in iterable:
         offsets.append(offsets[-1] + len(x))
         content.extend(x)] *)
Fixpoint fromiterable_loop (iterable : list (list A)) (offsets : list Z) (content : list A)
  : result (list Z * list A) :=
  match iterable with
  | [] => Ok (offsets, content)
  | x :: rest =>
      bind (getitem offsets (-1)) (fun last =>
      fromiterable_loop rest (offsets ++ [last + Z.of_nat (length x)]) (content ++ x))
  end.

(** [fromiterable]: [offsets = [0]; content = []], the loop, and
    [cls(offsets[:-1], offsets[1:], content, writeable=writeable)]. *)
Definition fromiterable (iterable : list (list A)) (writeable : bool) : result R :=
  bind (fromiterable_loop iterable [0] []) (fun '(offsets, content) =>
  bind (getslice offsets all_but_last) (fun starts =>
  bind (getslice offsets all_but_first) (fun stops =>
  Ok (cls starts stops content writeable)))).
End FromIterable.

Arguments fromiterable {A R} cls iterable writeable.

(** The running sums of the lengths of the items, from [acc]. *)
Fixpoint running_lengths {A : Type} (acc : Z) (iterable : list (list A)) : list Z :=
  match iterable with
  | [] => []
  | x :: rest =>
      let acc' := acc + Z.of_nat (length x) in acc' :: running_lengths acc' rest
  end.

(** Offsets that never decrease from one item to the next. *)
Definition nondecreasing (cs : list Z) : Prop :=
  forall i x y, nth_error cs i = Some x -> nth_error cs (S i) = Some y -> x <= y.

(** An argument of [compatible]: a jagged array or another object. *)
Inductive argument (A : Type) : Type :=
| IsJagged (N : JaggedArray A)
| NotJagged.
Arguments IsJagged {A} N.
Arguments NotJagged {A}.

Definition isinstance_jagged {A : Type} (x : argument A) : bool :=
  match x with IsJagged _ => true | NotJagged => false end.

(** [numpy.array_equal(x._starts, first._starts)
     and numpy.array_equal(x._stops, first._stops)]; the attributes of an
    object that is not a jagged array are not reached. *)
Definition same_structure {A : Type} (first x : argument A) : bool :=
  match x, first with
  | IsJagged N, IsJagged F =>
      array_equal (starts N) (starts F) && array_equal (stops N) (stops F)
  | _, _ => false
  end.

(** [compatible], called with any number of arguments: every argument after the first is
    compared with the first; without arguments nothing is compared. *)
Definition compatible {A : Type} (jaggedarrays : list (argument A)) : result bool :=
  if negb (forallb isinstance_jagged jaggedarrays)
  then Raise (TypeError "not all objects passed to JaggedArray.compatible are JaggedArrays")
  else match jaggedarrays with
       | [] => Ok true
       | first :: rest => Ok (forallb (same_structure first) rest)
       end.

(** *** ByteJaggedArray *)
Module Bytes.
Section ByteJaggedArray.
Variable itembytes : positive.
(** A byte of the content buffer, an item of the element type [dtype],
    the size [dtype.itemsize] and the bytes of an item. *)
Variable B : Type.
Variable T : Type.
Variable dsize : positive.
Variable encode : T -> list B.
Variable getfield : list B -> string -> option (list B).

Record ByteJaggedArray : Type := mk {
  _starts : ndarray;
  _stops : ndarray;
  _content : list B;
  _writeable : bool
}.

Definition starts (N : ByteJaggedArray) : list Z := items (_starts N).
Definition stops (N : ByteJaggedArray) : list Z := items (_stops N).

Definition _check_startsstops (N : ByteJaggedArray) : result unit :=
  if len (_stops N) <? len (_starts N)
  then Raise (ValueError "starts must be have as many or fewer elements as stops")
  else Ok tt.

Inductive assigned : Type :=
| Jag (what : JaggedArray T)
| Seq (xs : list T)
| Other (x : T).

Variable asarray : JaggedArray T -> result (rhs T).

Definition as_rhs (what : assigned) : result (rhs T) :=
  match what with
  | Jag j => asarray j
  | Seq xs => Ok (Items xs)
  | Other x => Ok (Item x)
  end.

(** [numpy.frombuffer(content, dtype, count, offset)]: the number of items
    of the typed view that starts [offset] bytes into the buffer. *)
Definition frombuffer (nbytes count offset : Z) : result Z :=
  if (offset <? 0) || (nbytes <? offset)
  then Raise (ValueError "offset must be non-negative and no greater than buffer length")
  else
    let s := nbytes - offset in
    if count <? 0 then
      if s mod Z.pos dsize =? 0 then Ok (s / Z.pos dsize)
      else Raise (ValueError "buffer size must be a multiple of element size")
    else if s <? count * Z.pos dsize
         then Raise (ValueError "buffer is smaller than requested size")
         else Ok count.

(** [buf = numpy.frombuffer(self._content, dtype=self._dtype,
                            count=stoppos, offset=offset)
     buf[startpos:stoppos] = v] *)
Definition write (content : list B) (startpos stoppos offset : Z) (v : rhs T)
  : result (list B) :=
  bind (frombuffer (Z.of_nat (length content)) stoppos offset) (fun m =>
  let start := clamp_bound m 0 m startpos in
  let stop := clamp_bound m 0 m stoppos in
  bind (broadcast_to (slice_length start stop 1) v) (fun xs =>
  Ok (put content (Z.to_nat (offset + start * Z.pos dsize)) (flat_map encode xs)))).

(** [(startpos, stoppos, offset)] of a byte range [start, stop). *)
Definition positions (range : Z * Z) : Z * Z * Z :=
  let '(start, stop) := range in
  (start / Z.pos dsize, stop / Z.pos dsize, start mod Z.pos dsize).

Fixpoint copy_rows (what : JaggedArray T) (i : Z) (n : nat)
    (ranges : list (Z * Z * Z)) (content : list B) : result unit * list B :=
  match n, ranges with
  | S n', (startpos, stoppos, offset) :: rest =>
      match row what (Jagged._content what) i with
      | Raise e => (Raise e, content)
      | Ok which =>
          match write content startpos stoppos offset (Items which) with
          | Raise e => (Raise e, content)
          | Ok content' => copy_rows what (i + 1) n' rest content'
          end
      end
  | _, _ => (Ok tt, content)
  end.

Fixpoint fill_rows (v : rhs T) (ranges : list (Z * Z * Z)) (content : list B)
  : result unit * list B :=
  match ranges with
  | [] => (Ok tt, content)
  | (startpos, stoppos, offset) :: rest =>
      match write content startpos stoppos offset v with
      | Raise e => (Raise e, content)
      | Ok content' => fill_rows v rest content'
      end
  end.

Fixpoint distribute_rows (what : list T) (this : Z) (ranges : list (Z * Z * Z))
    (content : list B) : result unit * list B :=
  match ranges with
  | [] => (Ok tt, content)
  | (startpos, stoppos, offset) :: rest =>
      let next := wrap itembytes (this + wrap itembytes (stoppos - startpos)) in
      match write content startpos stoppos offset (Items (getrange what this next)) with
      | Raise e => (Raise e, content)
      | Ok content' => distribute_rows what next rest content'
      end
  end.

Definition copy_jagged_error : exn :=
  ValueError "cannot copy JaggedArray with length {0} to ByteJaggedArray with dimension {1}".
Definition copy_sequence_error : exn :=
  ValueError "cannot copy sequence with length {0} to ByteJaggedArray with dimension {1}".

(** The branch [elif len(starts) != 0] of [__setitem__]. *)
Definition assign_rows (starts stops : list Z) (what : assigned) (content : list B)
  : result unit * list B :=
  let ranges := map positions (combine starts stops) in
  let startposes := map (fun s => s / Z.pos dsize) starts in
  let stopposes := map (fun e => e / Z.pos dsize) stops in
  match what with
  | Jag j =>
      if negb (__len__ j =? Z.of_nat (length startposes))
      then (Raise copy_jagged_error, content)
      else copy_rows j 0 (Z.to_nat (__len__ j)) ranges content
  | Seq [x] => fill_rows (Item x) ranges content
  | Seq xs =>
      match subtract itembytes stopposes startposes with
      | Raise e => (Raise e, content)
      | Ok d =>
          if negb (Z.of_nat (length xs) =? sum itembytes d)
          then (Raise copy_sequence_error, content)
          else distribute_rows xs 0 ranges content
      end
  | Other x => fill_rows (Item x) ranges content
  end.

(** [__setitem__]: as for [JaggedArray], the statement for a field name
    stops at the unbound name [writeable]. *)
Definition __setitem__ (N : ByteJaggedArray) (where_ : selector) (what : assigned)
  : result unit * list B :=
  let content := _content N in
  match where_ with
  | SelString name =>
      match getfield content name with
      | None => (Raise field_error, content)
      | Some _ => (Raise (NameError "writeable"), content)
      end
  | _ =>
      if negb (_writeable N) then (Raise read_only_error, content)
      else
        match _check_startsstops N with
        | Raise e => (Raise e, content)
        | Ok _ =>
            match index_items (starts N) where_ with
            | Raise e => (Raise e, content)
            | Ok starts =>
                match index_items (stops N) where_ with
                | Raise e => (Raise e, content)
                | Ok stops =>
                    match starts, stops with
                    | Scalar s, Scalar e =>
                        let '(startpos, stoppos, offset) := positions (s, e) in
                        match bind (as_rhs what) (write content startpos stoppos offset) with
                        | Raise e => (Raise e, content)
                        | Ok content' => (Ok tt, content')
                        end
                    | Array s, Array e =>
                        if Nat.eqb (length s) 0 then (Ok tt, content)
                        else assign_rows s e what content
                    | _, _ => (Raise (TypeError "starts and stops of different dimensions"),
                               content)
                    end
                end
            end
        end
  end.

(** The item that [dsize] bytes stand for. *)
Variable decode : list B -> T.

(** The first [n] groups of [dsize] bytes. *)
Fixpoint chunks (n : nat) (bytes : list B) : list (list B) :=
  match n with
  | O => []
  | S n' => firstn (Pos.to_nat dsize) bytes :: chunks n' (skipn (Pos.to_nat dsize) bytes)
  end.

(** [bytes.view(self._dtype)] on a one-dimensional array of bytes: its
    items, when the number of bytes is a multiple of the item size. *)
Definition view_as (bytes : list B) : result (list T) :=
  if Z.of_nat (length bytes) mod Z.pos dsize =? 0
  then Ok (map decode (chunks (length bytes / Pos.to_nat dsize) bytes))
  else Raise (ValueError "When changing to a larger dtype, its size must be a divisor of the total size in bytes of the last axis of the array.").

(** [__getitem__]: the statement for a field name reads, after
    [self._content[where]], the name [writeable], which is bound nowhere;
    an integer gives the bytes of the row, viewed as items. *)
Definition __getitem__ (N : ByteJaggedArray) (where_ : selector)
  : M (indexed (list T) ByteJaggedArray) :=
  match where_ with
  | SelString name =>
      match getfield (_content N) name with
      | None => raise field_error
      | Some _ => raise (NameError "writeable")
      end
  | _ =>
      mbind (lift (_check_startsstops N)) (fun _ =>
      mbind (index (_starts N) where_) (fun starts =>
      mbind (index (_stops N) where_) (fun stops =>
      match starts, stops with
      | Scalar s, Scalar e =>
          lift (bind (view_as (getrange (_content N) s e)) (fun v => Ok (Scalar v)))
      | Array s, Array e => ret (Array (mk s e (_content N) (_writeable N)))
      | _, _ => raise (TypeError "starts and stops of different dimensions")
      end)))
  end.

End ByteJaggedArray.
End Bytes.

End Jagged.

(** ** awkward/persist.py *)
Module Persist.
Import Py.

(** *** numpy dtypes and their specifications *)

(** A dtype is a scalar type (given by its type string [str(d)]), a
    subarray type [(base, shape)], whose base may be a subarray type
    again, or a record type: named fields [(name, type, offset, title)],
    each at a byte offset and with or without a title, in a record of
    [itemsize] bytes. *)
Inductive dtype : Type :=
| Simple (name : string)
| Subarray (base : dtype) (shape : list Z)
| Struct (fields : list (string * dtype * Z * option string)) (size : Z).

(** The Python objects that describe dtypes: strings, integers, tuples and
    lists. *)
Inductive pyobj : Type :=
| PStr (s : string)
| PInt (z : Z)
| PTuple (l : list pyobj)
| PList (l : list pyobj).

(** [dtype2json]: [obj.subdtype] is [(dt, sh)] for a subarray type,
    [obj.names] lists the names of the fields of a record type ([obj[n]]
    being the type of the field [n]; offsets and titles are not read),
    [str(obj)] is the type string. *)
Fixpoint dtype2json (obj : dtype) : pyobj :=
  match obj with
  | Subarray dt sh => PTuple [dtype2json dt; PTuple (map PInt sh)]
  | Struct fields _ =>
      PList (map (fun f => match f with
                           | (n, dt, _, _) => PTuple [PStr n; dtype2json dt]
                           end) fields)
  | Simple name => PStr name
  end.

Definition is_integral (o : pyobj) : bool :=
  match o with PInt _ => true | _ => false end.

Definition is_str (o : pyobj) : bool :=
  match o with PStr _ => true | _ => false end.

(** [isinstance(o, (list, tuple)) and all(isinstance(x, Integral) for x in o)] *)
Definition is_integral_seq (o : pyobj) : bool :=
  match o with
  | PTuple l | PList l => forallb is_integral l
  | _ => false
  end.

(** The test of the first branch of [recurse], on the items of a list or
    tuple: [len(obj) > 0 and (isinstance(obj[-1], Integral) or
    isinstance(obj[0], str) or (isinstance(obj[-1], (list, tuple)) and
    all(isinstance(x, Integral) for x in obj[-1])))]. *)
Definition as_tuple (l : list pyobj) : bool :=
  match l with
  | [] => false
  | first :: _ =>
      let last := List.last l first in
      is_integral last || is_str first || is_integral_seq last
  end.

(** [recurse] in [json2dtype] *)
Fixpoint recurse (obj : pyobj) : pyobj :=
  match obj with
  | PTuple l | PList l =>
      if as_tuple l then PTuple (map recurse l) else PList (map recurse l)
  | _ => obj
  end.

(** What [json.loads(json.dumps(obj))] makes of a description: every
    tuple comes back as a list. *)
Fixpoint json_form (obj : pyobj) : pyobj :=
  match obj with
  | PTuple l | PList l => PList (map json_form l)
  | _ => obj
  end.

Section NumpyDtype.
(** numpy's scalar types: the item size of a type string, [None] for a
    string that names no type. *)
Variable scalar_size : string -> option Z.

Definition product (shape : list Z) : Z := fold_right Z.mul 1 shape.

Definition itemsize_of (d : dtype) : Z :=
  (fix size (d : dtype) : Z :=
     match d with
     | Simple name => match scalar_size name with Some n => n | None => 0 end
     | Subarray b sh => product sh * size b
     | Struct _ n => n
     end) d.

(** The record type of a list of fields [(name, type)], laid out one
    after the other from offset [at] (numpy's default, unaligned layout),
    without titles. *)
Fixpoint pack (at_ : Z) (fields : list (string * dtype))
  : list (string * dtype * Z * option string) :=
  match fields with
  | [] => []
  | (n, d) :: rest => (n, d, at_, None) :: pack (at_ + itemsize_of d) rest
  end.

Definition total_size (fields : list (string * dtype)) : Z :=
  fold_left (fun acc f => acc + itemsize_of (snd f)) fields 0.

Fixpoint distinct (names : list string) : bool :=
  match names with
  | [] => true
  | n :: rest => negb (existsb (String.eqb n) rest) && distinct rest
  end.

Definition not_understood : exn := TypeError "data type not understood".

Definition ints (l : list pyobj) : result (list Z) :=
  fold_right (fun o acc =>
                match o with
                | PInt z => bind acc (fun zs => Ok (z :: zs))
                | _ => Raise not_understood
                end) (Ok []) l.

(** [(base, shape)]: an empty shape gives the base itself; any other
    shape gives a subarray type over the base as it is, also when the
    base is a subarray type. *)
Definition subarray (b : dtype) (shape : list Z) : dtype :=
  match shape with
  | [] => b
  | _ => Subarray b shape
  end.

(** The name numpy gives to a field declared with the empty name: [f0],
    [f1], ..., by the position of the field. *)
Definition default_name (i : nat) : string :=
  "f" ++ NilEmpty.string_of_uint (Nat.to_uint i).

Fixpoint autoname (i : nat) (fields : list (string * dtype)) : list (string * dtype) :=
  match fields with
  | [] => []
  | (n, d) :: rest =>
      ((if String.eqb n "" then default_name i else n), d) :: autoname (S i) rest
  end.

Definition negative_dimension : exn :=
  ValueError "invalid shape in fixed-type tuple: dimension smaller then zero.".

(** [numpy.dtype(spec)] on the specifications that [json2dtype] builds
    from the descriptions of dtypes: a type string, a pair [(spec, shape)]
    with a tuple of integers, or a list of fields [(name, spec)] (which
    have no titles and get the default layout).  The other forms that
    [numpy.dtype] accepts (a pair with a number, fields with titles or
    shapes, comma-separated strings, dictionaries) are not modelled and
    are answered as not understood. *)
Fixpoint numpy_dtype (spec : pyobj) : result dtype :=
  match spec with
  | PStr s =>
      match scalar_size s with
      | Some _ => Ok (Simple s)
      | None => Raise not_understood
      end
  | PTuple [b; PTuple shape] =>
      bind (numpy_dtype b) (fun b' =>
      bind (ints shape) (fun sh =>
      if forallb (Z.leb 0) sh then Ok (subarray b' sh) else Raise negative_dimension))
  | PList fields =>
      bind (fold_right
              (fun f acc =>
                 match f with
                 | PTuple [PStr n; s] =>
                     bind (numpy_dtype s) (fun d =>
                     bind acc (fun fs => Ok ((n, d) :: fs)))
                 | _ => Raise not_understood
                 end) (Ok []) fields)
           (fun fs =>
              let fs := autoname 0 fs in
              if distinct (map fst fs) then Ok (Struct (pack 0 fs) (total_size fs))
              else Raise (ValueError "field already used as a name or title"))
  | _ => Raise not_understood
  end.

(** [json2dtype]: [numpy.dtype(recurse(obj))] *)
Definition json2dtype (obj : pyobj) : result dtype := numpy_dtype (recurse obj).

(** What holds of every dtype that numpy holds: its scalar types are
    known; a subarray type has a non-empty shape without negative
    dimensions; the fields of a record type have non-empty, distinct
    names.  Offsets, item sizes and titles are as the dtype has them. *)
Fixpoint valid (d : dtype) : bool :=
  match d with
  | Simple name => match scalar_size name with Some _ => true | None => false end
  | Subarray b sh =>
      valid b && negb (Nat.eqb (length sh) 0) && forallb (Z.leb 0) sh
  | Struct fields _ =>
      forallb (fun f => match f with
                        | (n, dt, _, _) => valid dt && negb (String.eqb n "")
                        end) fields
      && distinct (map (fun f => fst (fst (fst f))) fields)
  end.

Definition field_offset (f : string * dtype * Z * option string) : Z := snd (fst f).
Definition field_title (f : string * dtype * Z * option string) : option string := snd f.
Definition field_type (f : string * dtype * Z * option string) : dtype := snd (fst (fst f)).

Definition offsets_of (fields : list (string * dtype * Z * option string)) : list Z :=
  map field_offset fields.
Definition untyped (fields : list (string * dtype * Z * option string))
  : list (string * dtype) :=
  map (fun f => fst (fst f)) fields.

Definition list_eqb (l1 l2 : list Z) : bool :=
  Nat.eqb (length l1) (length l2) && forallb (fun p => fst p =? snd p) (combine l1 l2).

(** Every record type, at any depth, has the default layout: its fields
    one after the other from offset 0, and no padding at the end. *)
Fixpoint packed (d : dtype) : bool :=
  match d with
  | Simple _ => true
  | Subarray b _ => packed b
  | Struct fields n =>
      forallb (fun f => match f with (_, dt, _, _) => packed dt end) fields
      && list_eqb (offsets_of fields) (offsets_of (pack 0 (untyped fields)))
      && (n =? total_size (untyped fields))
  end.

(** No field of a record type, at any depth, has a title. *)
Fixpoint untitled (d : dtype) : bool :=
  match d with
  | Simple _ => true
  | Subarray b _ => untitled b
  | Struct fields _ =>
      forallb (fun f => match f with
                        | (_, dt, _, None) => untitled dt
                        | (_, _, _, Some _) => false
                        end) fields
  end.

(** The dtype with the same names, field types and shapes, in which every
    record type has the default layout and no titles. *)
Fixpoint repack (d : dtype) : dtype :=
  match d with
  | Simple name => Simple name
  | Subarray b sh => Subarray (repack b) sh
  | Struct fields _ =>
      let fs := map (fun f => match f with (n, dt, _, _) => (n, repack dt) end) fields in
      Struct (pack 0 fs) (total_size fs)
  end.
End NumpyDtype.

(** Some of numpy's type strings, with their item sizes. *)
Definition numpy_scalar_size (name : string) : option Z :=
  if String.eqb name "bool" then Some 1
  else if String.eqb name "int8" then Some 1
  else if String.eqb name "uint8" then Some 1
  else if String.eqb name "int16" then Some 2
  else if String.eqb name "uint16" then Some 2
  else if String.eqb name "int32" then Some 4
  else if String.eqb name "uint32" then Some 4
  else if String.eqb name "float32" then Some 4
  else if String.eqb name "int64" then Some 8
  else if String.eqb name "uint64" then Some 8
  else if String.eqb name "float64" then Some 8
  else if String.eqb name "complex128" then Some 16
  else None.

(** *** deserialize *)

(** JSON documents, which also stand for the Python objects they decode to
    (a [dict] is a [JObject], a [bytes] or [str] a [JString]). *)
Inductive json : Type :=
| JNull
| JBool (b : bool)
| JNumber (z : Z)
| JString (s : string)
| JArray (l : list json)
| JObject (members : list (string * json)).

(** The local variables of a call that are bound so far. *)
Definition frame : Type := list (string * json).

Fixpoint lookup (name : string) (f : list (string * json)) : option json :=
  match f with
  | [] => None
  | (n, v) :: rest => if String.eqb n name then Some v else lookup name rest
  end.

(** Reading a local variable: a name that the function assigns somewhere
    is local in the whole body, and reading it before the assignment
    raises. *)
Definition load (f : frame) (name : string) : result json :=
  match lookup name f with
  | Some v => Ok v
  | None => Raise (UnboundLocalError name)
  end.

(** The attributes of a [dict] object (its methods): what [hasattr] sees. *)
Definition dict_attributes : list string :=
  ["clear"; "copy"; "fromkeys"; "get"; "items"; "keys"; "pop"; "popitem";
   "setdefault"; "update"; "values"].

Definition hasattr_dict (name : string) : bool :=
  existsb (String.eqb name) dict_attributes.

(** [d[k]] for a string key *)
Definition subscript (d : list (string * json)) (k : string) : result json :=
  match lookup k d with
  | Some v => Ok v
  | None => Raise (KeyError k)
  end.

Definition text_of (j : json) : result string :=
  match j with
  | JString s => Ok s
  | _ => Raise (TypeError "expected a string")
  end.

Definition truthy (j : json) : bool :=
  match j with
  | JNull => false
  | JBool b => b
  | JNumber z => negb (z =? 0)
  | JString s => negb (String.eqb s "")
  | JArray l => negb (Nat.eqb (length l) 0)
  | JObject m => negb (Nat.eqb (length m) 0)
  end.

(** The default whitelist of the module. *)
Definition whitelist : list (list string) :=
  [["numpy"; "frombuffer"]; ["zlib"; "decompress"]; ["awkward"; "*"];
   ["awkward.persist"; "*"]].

Section Deserialize.
(** [json.loads] *)
Variable json_loads : string -> result json.

(** [unfill]: the three kinds of fill-tree node are tested with
    [hasattr(schema, ...)], on a [dict].  In the branch of [gen] the
    first operation is [schema[0]], a key no decoded document has; [seen]
    is only written at the end of that branch, so it is still empty where
    the branch of [ref] reads it: both branches end in [KeyError]. *)
Definition unfill (source : list (string * json)) (prefix : string) (schema : json)
  : result json :=
  match schema with
  | JObject members =>
      if hasattr_dict "gen" then Raise (KeyError "0")
      else if hasattr_dict "read" then
        bind (subscript members "read") (fun r =>
        bind (text_of r) (fun key =>
        if truthy (match lookup "absolute" members with Some a => a | None => JBool false end)
        then subscript source key
        else subscript source (prefix ++ key)))
      else if hasattr_dict "ref" then
        bind (subscript members "ref") (fun _ => Raise (KeyError "ref"))
      else Ok schema
  | _ => Ok schema
  end.

(** [deserialize(source, prefix, whitelist)]: when the body starts only
    the parameters are bound.  [whitelist] is not read anywhere in the
    body. *)
Definition deserialize (source : list (string * json)) (prefix : string)
    (whitelist : list (list string)) : result json :=
  let locals : frame :=
    [("source", JObject source); ("prefix", JString prefix);
     ("whitelist", JArray (map (fun path => JArray (map JString path)) whitelist))] in
  bind (load locals "schema") (fun text =>
  bind (text_of text) (fun text =>
  bind (json_loads text) (fun schema =>
  match schema with
  | JObject members =>
      bind (subscript members "prefix") (fun p =>
      bind (text_of p) (fun prefix =>
      bind (subscript members "schema") (fun tree =>
      unfill source prefix tree)))
  | _ => Raise (TypeError "indices must be integers")
  end))).
End Deserialize.

(** The fill tree holds a constructor invocation somewhere. *)
Fixpoint has_gen (j : json) : bool :=
  match j with
  | JObject members =>
      existsb (fun m => String.eqb (fst m) "gen" || has_gen (snd m)) members
  | JArray l => existsb has_gen l
  | _ => false
  end.

End Persist.

(** ** awkward/arrow.py *)
Module Arrow.
Import Py.

(** *** schema2type *)

(** The types of the external columnar format, by the discriminants that
    [schema2type] tests; a struct lists the name, type and nullability of
    its children, and any type without a case of its own is a [DataType]
    with its [to_pandas_dtype()]. *)
Inductive arrow_type : Type :=
| DictionaryType (dictionary : arrow_type)
| StructType (children : list (string * arrow_type * bool))
| ListType (value_type : arrow_type)
| UnionType (children : list arrow_type)
| string_
| binary
| bool_
| DataType (pandas_dtype : string).

(** The first argument of [awkward.type.ArrayType]: a field name, a length
    or [float("inf")]. *)
Inductive takes : Type :=
| Name (n : string)
| Length (n : Z)
| Infinite.

(** What [schema2type] puts at the leaves. *)
Inductive leaf : Type :=
| py_str
| py_bytes
| numpy_bool
| pandas (dtype : string).

(** [enumerate(xs)], counting from [i] *)
Fixpoint enumerate {X : Type} (i : Z) (xs : list X) : list (Z * X) :=
  match xs with
  | [] => []
  | x :: rest => (i, x) :: enumerate (i + 1) rest
  end.

(** The row groups that have rows, with their indices. *)
Definition with_rows (groups : list (Z * Z)) : list (Z * Z) :=
  filter (fun g => 0 <? snd g) groups.

Section Types.
(** The logical types of awkward/type.py, with their constructors and
    operators ([&], [|]), the field names of a type ([.columns]) and the
    type of a field ([t[n]]); [none] is Python's [None] where the code
    passes it as a type. *)
Variable type_ : Type.
Variable none : type_.
Variable of_leaf : leaf -> type_.
Variable OptionType : type_ -> type_.
Variable ArrayType : takes -> type_ -> type_.
Variable and_ : type_ -> type_ -> type_.
Variable or_ : type_ -> type_ -> type_.
Variable columns : type_ -> list string.
Variable field : type_ -> string -> type_.

(** [out = None; for x in xs: out = x if out is None else op(out, x)] *)
Definition accumulate (op : type_ -> type_ -> type_) (xs : list type_) : option type_ :=
  fold_left (fun out x => match out with
                          | None => Some x
                          | Some o => Some (op o x)
                          end) xs None.

Definition or_none (out : option type_) : type_ :=
  match out with Some t => t | None => none end.

Definition optional (nullable : bool) (out : type_) : type_ :=
  if nullable then OptionType out else out.

(** [recurse] in [schema2type] *)
Fixpoint schema2type_recurse (tpe : arrow_type) (nullable : bool) : type_ :=
  match tpe with
  | DictionaryType dictionary => optional nullable (schema2type_recurse dictionary nullable)
  | StructType children =>
      optional nullable
        (or_none (accumulate and_
           (map (fun c => match c with
                          | (name, t, n) => ArrayType (Name name) (schema2type_recurse t n)
                          end) children)))
  | ListType value_type =>
      optional nullable (ArrayType Infinite (schema2type_recurse value_type nullable))
  | UnionType children =>
      optional nullable
        (or_none (accumulate or_ (map (fun t => schema2type_recurse t nullable) children)))
  | string_ => optional nullable (of_leaf py_str)
  | binary => optional nullable (of_leaf py_bytes)
  | bool_ => optional nullable (of_leaf numpy_bool)
  | DataType d => optional nullable (of_leaf (pandas d))
  end.

(** An external schema: its fields in order, each with name, type and
    nullability. *)
Definition schema : Type := list (string * arrow_type * bool).

Definition names (s : schema) : list string := map (fun f => fst (fst f)) s.

(** [schema.field_by_name(name)]: the field of that name when there is
    exactly one, else [None]. *)
Definition field_by_name (s : schema) (name : string) : option (arrow_type * bool) :=
  match filter (fun f => String.eqb (fst (fst f)) name) s with
  | [(_, t, n)] => Some (t, n)
  | _ => None
  end.

(** [schema2type]: [None] for a schema without names. *)
Definition schema2type (s : schema) : result (option type_) :=
  fold_left (fun acc name =>
               bind acc (fun out =>
               match field_by_name s name with
               | None => Raise (AttributeError "'NoneType' object has no attribute 'type'")
               | Some (t, n) =>
                   let mytype := ArrayType (Name name) (schema2type_recurse t n) in
                   Ok (match out with
                       | None => Some mytype
                       | Some o => Some (and_ o mytype)
                       end)
               end)) (names s) (Ok None).

(** *** fromparquet *)

(** An opened columnar file: its schema and the number of rows of each
    row group. *)
Record parquet : Type := Parquet {
  arrow_schema : schema;
  row_groups : list Z
}.

(** The nodes [fromparquet] builds. *)
Inductive node : Type :=
| VirtualArray (generator : parquet) (args : Z * string) (cache : option nat)
               (type : type_) (persistvirtual : bool)
| Table (contents : list (string * node))
| ChunkedArray (chunks : list node) (counts : list Z).

Definition is_virtual (x : node) : bool :=
  match x with VirtualArray _ _ _ _ _ => true | _ => false end.

(** Modelled from the spec: [Table.__setitem__] (awkward/array/table.py);
    a table is an ordered mapping from names to columns, so [chunk[n] = x]
    replaces the column named [n] or appends a new one. *)
Fixpoint table_set (contents : list (string * node)) (n : string) (x : node)
  : list (string * node) :=
  match contents with
  | [] => [(n, x)]
  | (m, y) :: rest => if String.eqb m n then (m, x) :: rest
                      else (m, y) :: table_set rest n x
  end.

Section FromParquet.
Variable file : parquet.
Variable cache : option nat.
Variable persistvirtual : bool.
Variable filetype : type_.

(** [VirtualArray(parquetfile, (i, n), cache=cache,
                  type=ArrayType(numrows, parquetfile.type[n]),
                  persistvirtual=persistvirtual)] *)
Definition column (i numrows : Z) (n : string) : node :=
  VirtualArray file (i, n) cache
               (ArrayType (Length numrows) (field filetype n)) persistvirtual.

(** [chunk = Table(); for n in columns: chunk[n] = VirtualArray(...)] *)
Definition make_chunk (i numrows : Z) : node :=
  Table (fold_left (fun contents n => table_set contents n (column i numrows n))
                   (columns filetype) []).

(** The loop over the row groups, from the row group [i] on. *)
Fixpoint row_group_loop (i : Z) (groups : list Z) (chunks : list node) (counts : list Z)
  : list node * list Z :=
  match groups with
  | [] => (chunks, counts)
  | numrows :: rest =>
      if 0 <? numrows
      then row_group_loop (i + 1) rest (chunks ++ [make_chunk i numrows])
                          (counts ++ [numrows])
      else row_group_loop (i + 1) rest chunks counts
  end.
End FromParquet.

(** [fromparquet]: [parquetfile.type] is [schema2type] of the file's
    schema; [.columns] of [None] raises. *)
Definition fromparquet (file : parquet) (cache : option nat) (persistvirtual : bool)
  : result node :=
  bind (schema2type (arrow_schema file)) (fun t =>
  match t with
  | None => Raise (AttributeError "'NoneType' object has no attribute 'columns'")
  | Some filetype =>
      let '(chunks, counts) :=
        row_group_loop file cache persistvirtual filetype 0 (row_groups file) [] [] in
      Ok (ChunkedArray chunks counts)
  end).
End Types.

(** *** toarrow *)

(** The classes [toarrow] tests with [isinstance], in the order of the
    tests. *)
Inductive cls : Type :=
| ndarray
| ChunkedArray_
| IndexedArray
| SparseArray
| JaggedArray
| MaskedArray
| IndexedMaskedArray
| ObjectArray
| StringArray
| Table_
| UnionArray
| VirtualArray_.

Definition cls_eqb (c d : cls) : bool :=
  match c, d with
  | ndarray, ndarray | ChunkedArray_, ChunkedArray_ | IndexedArray, IndexedArray
  | SparseArray, SparseArray | JaggedArray, JaggedArray | MaskedArray, MaskedArray
  | IndexedMaskedArray, IndexedMaskedArray | ObjectArray, ObjectArray
  | StringArray, StringArray | Table_, Table_ | UnionArray, UnionArray
  | VirtualArray_, VirtualArray_ => true
  | _, _ => false
  end.

(** Two class hierarchies for objects that are named by their class: one
    without subclasses, and one in which the string class is a subclass of
    the object class. *)
Definition isinstance_flat (x c : cls) : bool := cls_eqb x c.

Definition isinstance_string_object (x c : cls) : bool :=
  cls_eqb x c || (cls_eqb x StringArray && cls_eqb c ObjectArray).

Definition string_error : exn :=
  NotImplementedError "I don't know how to make an Arrow StringArray".

(** The classes tested before [ObjectArray]. *)
Definition before_object : list cls :=
  [ndarray; ChunkedArray_; IndexedArray; SparseArray; JaggedArray; MaskedArray;
   IndexedMaskedArray].

(** The classes tested before [JaggedArray]. *)
Definition before_jagged : list cls := [ndarray; ChunkedArray_; IndexedArray; SparseArray].

Section ToArrow.
(** Array objects (numpy arrays, awkward nodes and masks), the class
    test, and the attributes and methods of the array classes (declared
    in awkward/array/, outside this file) that [recurse] uses. *)
Variable obj : Type.
Variable isinstance : obj -> cls -> bool.
Variable index : obj -> obj.
Variable content : obj -> obj.
Variable getitem : obj -> obj -> obj.
Variable dense : obj -> obj.
Variable compact : obj -> obj.
Variable broadcast_flatten : obj -> obj -> obj.
Variable offsets : obj -> obj.
Variable boolmask : obj -> obj.
Variable mask_and : obj -> obj -> obj.
Variable mask_of : obj -> obj.
Variable length : obj -> Z.
Variable empty_default : Z -> obj.
Variable table_columns : obj -> list (string * obj).
Variable union_contents : obj -> list obj.
Variable union_mask : obj -> Z -> obj -> obj -> obj.
Variable tags_int8 : obj -> obj.
Variable index_int32 : obj -> obj.
Variable array : obj -> obj.

(** The arrays of the external format, by the call that builds them:
    [pyarrow.array(data, mask=mask)], the [from_arrays] and [from_dense]
    constructors that [toarrow] calls, and the string array of the format,
    a list of bytes (offsets and data) with the utf-8 type tag, which
    only [pyarrow.StringArray.from_buffers] would build. *)
Inductive arrow : Type :=
| pyarrow_array (data : obj) (mask : option obj)
| DictionaryArray (indices : obj) (dictionary : arrow)
| ListArray (offsets : obj) (values : arrow)
| StructArray (arrays : list arrow) (names : list string)
| DenseUnionArray (tags index : obj) (children : list arrow)
| Utf8Array (offsets : obj) (data : obj).

(** [pyarrow.array] chooses the type of its result from the numpy array
    it is given: [infers_string data] says that it chooses the string
    type (it does for an array of strings, and does not for an array of
    numbers or of one-byte characters). *)
Variable infers_string : obj -> bool.

(** The array has the utf-8 string type.  [ListArray.from_arrays] gives a
    list type whatever the values are, and the other constructors a
    dictionary, struct or union type. *)
Definition is_utf8 (a : arrow) : bool :=
  match a with
  | pyarrow_array data _ => infers_string data
  | Utf8Array _ _ => true
  | _ => false
  end.

(** [[f(x) for x in xs]], stopping at the first exception *)
Fixpoint traverse {X Y : Type} (f : X -> result Y) (xs : list X) : result (list Y) :=
  match xs with
  | [] => Ok []
  | x :: rest => bind (f x) (fun y => bind (traverse f rest) (fun ys => Ok (y :: ys)))
  end.

(** [recurse] in [toarrow]; [depth] bounds the nesting of the calls, as
    the interpreter does. *)
Fixpoint toarrow_recurse (depth : nat) (data : obj) (mask : option obj) : result arrow :=
  match depth with
  | O => Raise RecursionError
  | S depth =>
      if isinstance data ndarray then Ok (pyarrow_array data mask)
      else if isinstance data ChunkedArray_ then
        Raise (NotImplementedError "I'm putting off ChunkedArrays for now")
      else if isinstance data IndexedArray then
        match mask with
        | None => bind (toarrow_recurse depth (content data) mask) (fun d =>
                  Ok (DictionaryArray (index data) d))
        | Some _ => toarrow_recurse depth (getitem (content data) (index data)) mask
        end
      else if isinstance data SparseArray then toarrow_recurse depth (dense data) mask
      else if isinstance data JaggedArray then
        let data := compact data in
        let mask := match mask with
                    | Some m => Some (broadcast_flatten data m)
                    | None => None
                    end in
        bind (toarrow_recurse depth (content data) mask) (fun v =>
        Ok (ListArray (offsets data) v))
      else if isinstance data MaskedArray then
        let thismask := boolmask data in
        let thismask := match mask with
                        | Some m => mask_and m thismask
                        | None => thismask
                        end in
        toarrow_recurse depth (content data) (Some thismask)
      else if isinstance data IndexedMaskedArray then
        let thismask := boolmask data in
        let thismask := match mask with
                        | Some m => mask_and m thismask
                        | None => thismask
                        end in
        let content := if length (content data) =? 0
                       then empty_default (length (mask_of data))
                       else getitem (content data) (mask_of data) in
        toarrow_recurse depth content (Some thismask)
      else if isinstance data ObjectArray then toarrow_recurse depth (content data) mask
      else if isinstance data StringArray then Raise string_error
      else if isinstance data Table_ then
        bind (traverse (fun x => toarrow_recurse depth (snd x) mask) (table_columns data))
             (fun arrays => Ok (StructArray arrays (map fst (table_columns data))))
      else if isinstance data UnionArray then
        bind (traverse (fun ix =>
                          let thismask := match mask with
                                          | None => None
                                          | Some m => Some (union_mask data (fst ix) (snd ix) m)
                                          end in
                          toarrow_recurse depth (snd ix) thismask)
                       (enumerate 0 (union_contents data)))
             (fun contents => Ok (DenseUnionArray (tags_int8 data) (index_int32 data) contents))
      else if isinstance data VirtualArray_ then toarrow_recurse depth (array data) mask
      else Raise (TypeError "cannot convert type {0} to Arrow")
  end.

Definition toarrow (depth : nat) (obj_ : obj) : result arrow := toarrow_recurse depth obj_ None.

(** Every leaf of the array was built with a mask, and no part of it is
    dictionary-encoded. *)
Fixpoint all_masked (a : arrow) : bool :=
  match a with
  | pyarrow_array _ (Some _) => true
  | pyarrow_array _ None => false
  | DictionaryArray _ _ => false
  | ListArray _ values => all_masked values
  | StructArray arrays _ => forallb all_masked arrays
  | DenseUnionArray _ _ children => forallb all_masked children
  | Utf8Array _ _ => false
  end.
End ToArrow.

(** *** fromarrow *)
Module FromArrow.

Inductive union_mode : Type := sparse | dense.

(** An assertion that fails raises [AssertionError]; every other failure
    is one of the exceptions above. *)
Inductive failure : Type :=
| Exception (e : exn)
| AssertionError.

Inductive outcome (X : Type) : Type :=
| Done (x : X)
| Failed (f : failure).
Arguments Done {X} x.
Arguments Failed {X} f.

Definition and_then {X Y : Type} (o : outcome X) (k : X -> outcome Y) : outcome Y :=
  match o with
  | Done x => k x
  | Failed f => Failed f
  end.

Section FromArrow.
(** The memory buffers of the external format and numpy arrays, with the
    numpy operations that [popbuffers] uses:
    [numpy.frombuffer(b, dtype=...)] (whatever it does of [None] or of a
    buffer of the wrong size),
    [numpy.unpackbits(a).view(BOOLTYPE).reshape(-1, 8)[:,::-1].reshape(-1)]
    and [numpy.arange(len(tags), dtype=ARROW_INDEXTYPE)]. *)
Variable buffer : Type.
Variable array : Type.
Variable frombuffer : option buffer -> string -> result array.
Variable unpackbits : array -> array.
Variable arange_len : array -> array.

Definition ARROW_BITMASKTYPE : string := "uint8".
Definition ARROW_INDEXTYPE : string := "int32".
Definition ARROW_TAGTYPE : string := "uint8".
Definition ARROW_CHARTYPE : string := "uint8".

(** Types and arrays of the external format, as [fromarrow] reads them:
    the type, the buffers ([obj.buffers()], with [None] for an absent
    buffer) and the length of an array; a dictionary type carries its
    dictionary, which is an array. *)
Inductive pa_type : Type :=
| DictionaryType (index_type : pa_type) (dictionary : pa_array)
| StructType (children : list (string * pa_type))
| ListType (value_type : pa_type)
| UnionType (mode : union_mode) (children : list pa_type)
| string_
| binary
| bool_
| DataType (pandas_dtype : string)
with pa_array : Type :=
| Array (type : pa_type) (buffers : list (option buffer)) (len : Z).

Definition length_of (a : pa_array) : Z :=
  match a with Array _ _ len => len end.

(** What [fromarrow] accepts. *)
Inductive pa_object : Type :=
| IsArray (a : pa_array)
| IsChunkedArray (chunks : list pa_array)
| IsRecordBatch (names : list string) (columns : list pa_array)
| IsTable (batches : list (list string * list pa_array))
| IsOther.

(** What [fromarrow] returns: numpy arrays and the nodes it builds with
    the constructors of the library, [out[:n]], and (see the case of a
    chunked array) an array of the external format as it came. *)
Inductive node : Type :=
| Numpy (a : array)
| BitMaskedArray (mask : array) (content : node) (maskedwhen lsborder : bool)
| IndexedArray (index content : node)
| Table_frompairs (pairs : list (string * node))
| JaggedArray_fromoffsets (offsets : array) (content : node)
| UnionArray (tags index : array) (contents : list node)
| StringArray_fromoffsets (offsets content : array) (encoding : option string)
| UpTo (out : node) (stop : Z)
| ChunkedArray (chunks : list node) (counts : list Z)
| Table (contents : list (string * node))
| Unconverted (chunk : pa_array).

(** [len(chunk)] for a table of the library (awkward/array/table.py). *)
Variable table_length : node -> Z.

(** Computations on the list [buffers], which [popbuffers] consumes from
    its end. *)
Definition St (X : Type) : Type :=
  list (option buffer) -> outcome (X * list (option buffer)).

Definition unit_ {X : Type} (x : X) : St X := fun buffers => Done (x, buffers).

Definition seq_ {X Y : Type} (m : St X) (k : X -> St Y) : St Y :=
  fun buffers =>
    match m buffers with
    | Done (x, buffers') => k x buffers'
    | Failed f => Failed f
    end.

Definition of_outcome {X : Type} (o : outcome X) : St X :=
  fun buffers => and_then o (fun x => Done (x, buffers)).

Definition of_result {X : Type} (r : result X) : St X :=
  fun buffers =>
    match r with
    | Ok x => Done (x, buffers)
    | Raise e => Failed (Exception e)
    end.

(** [buffers.pop()] *)
Definition pop : St (option buffer) :=
  fun buffers =>
    match rev buffers with
    | [] => Failed (Exception (IndexError "pop from empty list"))
    | b :: rest => Done (b, rev rest)
    end.

(** [mask = buffers.pop()
     if mask is not None:
         mask = numpy.frombuffer(mask, dtype=ARROW_BITMASKTYPE)
         return BitMaskedArray(mask, out, maskedwhen=False, lsborder=True)
     else:
         return out] *)
Definition masked (out : node) : St node :=
  seq_ pop (fun mask =>
  match mask with
  | Some _ =>
      seq_ (of_result (frombuffer mask ARROW_BITMASKTYPE)) (fun mask =>
      unit_ (BitMaskedArray mask out false true))
  | None => unit_ out
  end).

(** [numpy.frombuffer(buffers.pop(), dtype=...)] *)
Definition pop_array (dtype : string) : St array :=
  seq_ pop (fun b => of_result (frombuffer b dtype)).

(** [popbuffers], and [fromarrow] on an array (the case that
    [popbuffers] calls for the dictionary of a dictionary type).  The
    children of a struct or union type are visited from the last to the
    first, each result being inserted at the front of the list. *)
Fixpoint popbuffers (tpe : pa_type) {struct tpe} : St node :=
  match tpe with
  | DictionaryType index_type dictionary =>
      seq_ (of_outcome (fromarrow_array dictionary)) (fun content =>
      seq_ (popbuffers index_type) (fun index =>
      match index with
      | BitMaskedArray mask index_content maskedwhen lsborder =>
          unit_ (BitMaskedArray mask (IndexedArray index_content content) maskedwhen lsborder)
      | _ => unit_ (IndexedArray index content)
      end))
  | StructType children =>
      seq_ ((fix loop (cs : list (string * pa_type)) : St (list (string * node)) :=
               match cs with
               | [] => unit_ []
               | (name, t) :: rest =>
                   seq_ (loop rest) (fun pairs =>
                   seq_ (popbuffers t) (fun x => unit_ ((name, x) :: pairs)))
               end) children) (fun pairs =>
      masked (Table_frompairs pairs))
  | ListType value_type =>
      seq_ (popbuffers value_type) (fun content =>
      seq_ (pop_array ARROW_INDEXTYPE) (fun offsets =>
      masked (JaggedArray_fromoffsets offsets content)))
  | UnionType mode children =>
      seq_ ((fix loop (cs : list pa_type) : St (list node) :=
               match cs with
               | [] => unit_ []
               | t :: rest =>
                   seq_ (loop rest) (fun contents =>
                   seq_ (popbuffers t) (fun x => unit_ (x :: contents)))
               end) children) (fun contents =>
      match mode with
      | sparse =>
          seq_ pop (fun nothing =>
          match nothing with
          | Some _ => fun _ => Failed AssertionError
          | None =>
              seq_ (pop_array ARROW_TAGTYPE) (fun tags =>
              masked (UnionArray tags (arange_len tags) contents))
          end)
      | dense =>
          seq_ (pop_array ARROW_INDEXTYPE) (fun index =>
          seq_ (pop_array ARROW_TAGTYPE) (fun tags =>
          masked (UnionArray tags index contents)))
      end)
  | string_ =>
      seq_ (pop_array ARROW_CHARTYPE) (fun content =>
      seq_ (pop_array ARROW_INDEXTYPE) (fun offsets =>
      masked (StringArray_fromoffsets offsets content (Some "utf-8"))))
  | binary =>
      seq_ (pop_array ARROW_CHARTYPE) (fun content =>
      seq_ (pop_array ARROW_INDEXTYPE) (fun offsets =>
      masked (StringArray_fromoffsets offsets content None)))
  | bool_ =>
      seq_ (pop_array ARROW_CHARTYPE) (fun bytes =>
      masked (Numpy (unpackbits bytes)))
  | DataType pandas_dtype =>
      seq_ (pop_array pandas_dtype) (fun out =>
      masked (Numpy out))
  end
with fromarrow_array (obj : pa_array) {struct obj} : outcome node :=
  match obj with
  | Array type buffers len =>
      match popbuffers type buffers with
      | Failed f => Failed f
      | Done (out, buffers) =>
          if Nat.eqb (length buffers) 0 then Done (UpTo out len) else Failed AssertionError
      end
  end.

(** [[fromarrow(x) for x in chunks]] *)
Fixpoint convert_all (chunks : list pa_array) : outcome (list node) :=
  match chunks with
  | [] => Done []
  | x :: rest =>
      and_then (fromarrow_array x) (fun y =>
      and_then (convert_all rest) (fun ys => Done (y :: ys)))
  end.

(** Modelled from the spec: [Table.__setitem__] (awkward/array/table.py);
    a table is an ordered mapping from names to columns, so [out[n] = x]
    replaces the column named [n] or appends a new one. *)
Fixpoint table_set (contents : list (string * node)) (n : string) (x : node)
  : list (string * node) :=
  match contents with
  | [] => [(n, x)]
  | (m, y) :: rest => if String.eqb m n then (m, x) :: rest
                      else (m, y) :: table_set rest n x
  end.

(** [for n, x in zip(obj.schema.names, obj.columns): out[n] = fromarrow(x)] *)
Fixpoint columns_loop (pairs : list (string * pa_array)) (out : list (string * node))
  : outcome node :=
  match pairs with
  | [] => Done (Table out)
  | (n, x) :: rest =>
      and_then (fromarrow_array x) (fun v => columns_loop rest (table_set out n v))
  end.

(** [for batch in obj.to_batches():
         chunk = fromarrow(batch)
         if len(chunk) > 0:
             chunks.append(chunk)
             counts.append(len(chunk))] *)
Fixpoint batches_loop (batches : list (list string * list pa_array))
    (chunks : list node) (counts : list Z) : outcome (list node * list Z) :=
  match batches with
  | [] => Done (chunks, counts)
  | (names, columns) :: rest =>
      and_then (columns_loop (combine names columns) []) (fun chunk =>
      if 0 <? table_length chunk
      then batches_loop rest (chunks ++ [chunk]) (counts ++ [table_length chunk])
      else batches_loop rest chunks counts)
  end.

(** [fromarrow] *)
Definition fromarrow (obj : pa_object) : outcome node :=
  match obj with
  | IsArray a => fromarrow_array a
  | IsChunkedArray chunks =>
      let chunks := filter (fun x => 0 <? length_of x) chunks in
      match chunks with
      | [chunk] => Done (Unconverted chunk)
      | _ =>
          and_then (convert_all chunks) (fun converted =>
          Done (ChunkedArray converted (map length_of chunks)))
      end
  | IsRecordBatch names columns => columns_loop (combine names columns) []
  | IsTable batches =>
      and_then (batches_loop batches [] []) (fun '(chunks, counts) =>
      match chunks with
      | [chunk] => Done chunk
      | _ => Done (ChunkedArray chunks counts)
      end)
  | IsOther => Failed (Exception (NotImplementedError "type(obj)"))
  end.

(** [m], when it succeeds, takes exactly [k] buffers from the end of the
    list and gives the same result whatever comes before them. *)
Definition consumes {X : Type} (m : St X) (k : nat) : Prop :=
  forall buffers x rest,
    m buffers = Done (x, rest) ->
    exists used,
      buffers = rest ++ used /\ length used = k
      /\ forall before, m (before ++ used) = Done (x, before).

(** The number of buffers that [popbuffers] takes for a type. *)
Fixpoint nbuffers (tpe : pa_type) : nat :=
  match tpe with
  | DictionaryType index_type _ => nbuffers index_type
  | StructType children =>
      1 + fold_right (fun c acc => nbuffers (snd c) + acc) 0 children
  | ListType value_type => 2 + nbuffers value_type
  | UnionType _ children => 3 + fold_right (fun t acc => nbuffers t + acc) 0 children
  | string_ | binary => 3
  | bool_ | DataType _ => 2
  end%nat.

End FromArrow.
End FromArrow.

End Arrow.

(* ================================================================== *)
(** * Part II: lemmas and theorems *)
(* ================================================================== *)

Import Py Numpy Jagged.

(** ** Python slices and sequence indexing *)
Section PyFacts.
Import Py.
Context {A : Type}.
Implicit Types (l : list A) (i : Z) (n k : nat).

Lemma pick_inside l i x :
  0 <= i -> nth_error l (Z.to_nat i) = Some x -> pick l i = [x].
Proof.
  intros Hi Hx. unfold pick.
  destruct (i <? 0) eqn:E; [apply Z.ltb_lt in E; lia |].
  now rewrite Hx.
Qed.

Lemma pick_length_inside l i :
  0 <= i < Z.of_nat (length l) -> exists x, pick l i = [x] /\ nth_error l (Z.to_nat i) = Some x.
Proof.
  intros Hi.
  destruct (nth_error l (Z.to_nat i)) as [x|] eqn:E.
  - exists x. split; [apply pick_inside; [lia | exact E] | reflexivity].
  - apply nth_error_None in E. lia.
Qed.

Lemma skipn_cons_nth l k x :
  nth_error l k = Some x -> skipn k l = x :: skipn (S k) l.
Proof.
  revert k. induction l as [|y l IH]; intros [|k] H; simpl in *; try discriminate.
  - now inversion H.
  - now apply IH.
Qed.

(** Consecutive positions, from [a] on. *)
Lemma picks_consecutive l n : forall a,
  (a + n <= length l)%nat ->
  flat_map (fun k => pick l (Z.of_nat k)) (seq a n) = firstn n (skipn a l).
Proof.
  induction n as [|n IH]; intros a Ha; [reflexivity |].
  simpl seq. simpl flat_map.
  destruct (nth_error l a) as [x|] eqn:E.
  2:{ apply nth_error_None in E. lia. }
  rewrite (pick_inside l (Z.of_nat a) x); [| lia | now rewrite Nat2Z.id].
  rewrite (skipn_cons_nth l a x E). simpl. f_equal.
  apply IH. lia.
Qed.

Lemma flat_map_seq_shift {B : Type} (f : nat -> list B) (d : nat) n : forall a,
  flat_map (fun k => f (d + k)%nat) (seq a n) = flat_map f (seq (d + a) n).
Proof.
  induction n as [|n IH]; intros a; [reflexivity |].
  simpl. f_equal. rewrite IH. now replace (d + S a)%nat with (S (d + a)) by lia.
Qed.

(** A slice of step one is a segment of the list. *)
Lemma strided_unit l (lo : nat) n :
  (lo + n <= length l)%nat ->
  strided l (Z.of_nat lo) 1 n = firstn n (skipn lo l).
Proof.
  intros H. unfold strided.
  rewrite <- (picks_consecutive l n lo H).
  pose proof (flat_map_seq_shift (fun k => pick l (Z.of_nat k)) lo n 0) as E.
  rewrite Nat.add_0_r in E. rewrite <- E.
  apply flat_map_ext. intros k. f_equal. lia.
Qed.

Lemma clamp_inside len b : 0 <= b <= len -> clamp_bound len 0 len b = b.
Proof.
  intros H. unfold clamp_bound.
  destruct (b <? 0) eqn:E; [apply Z.ltb_lt in E; lia | lia].
Qed.

Lemma slice_length_unit a b : a <= b -> slice_length a b 1 = Z.to_nat (b - a).
Proof.
  intros H. unfold slice_length. change (1 <? 0) with false. cbv iota.
  destruct (a <? b) eqn:E.
  - apply Z.ltb_lt in E. rewrite Z.div_1_r. f_equal. lia.
  - apply Z.ltb_ge in E. f_equal. lia.
Qed.

Lemma slice_length_empty a b : b <= a -> slice_length a b 1 = 0%nat.
Proof.
  intros H. unfold slice_length. change (1 <? 0) with false. cbv iota.
  destruct (a <? b) eqn:E; [apply Z.ltb_lt in E; lia | reflexivity].
Qed.

(** [l[a:b]] for bounds inside the list. *)
Lemma getrange_inside l a b :
  0 <= a <= b -> b <= Z.of_nat (length l) ->
  getrange l a b = firstn (Z.to_nat (b - a)) (skipn (Z.to_nat a) l).
Proof.
  intros Ha Hb. unfold getrange.
  rewrite !clamp_inside by lia.
  rewrite slice_length_unit by lia.
  rewrite <- (Z2Nat.id a) at 1 by lia.
  apply strided_unit. lia.
Qed.

Lemma getrange_length l a b :
  0 <= a <= b -> b <= Z.of_nat (length l) ->
  length (getrange l a b) = Z.to_nat (b - a).
Proof.
  intros Ha Hb. rewrite getrange_inside by assumption.
  rewrite length_firstn, length_skipn. lia.
Qed.

Lemma getitem_inside l i :
  0 <= i < Z.of_nat (length l) ->
  exists x, getitem l i = Ok x /\ nth_error l (Z.to_nat i) = Some x.
Proof.
  intros Hi. unfold getitem, wrap_index.
  destruct (i <? 0) eqn:E; [apply Z.ltb_lt in E; lia |].
  destruct ((i <? 0) || (Z.of_nat (length l) <=? i)) eqn:E2.
  - apply orb_true_iff in E2. destruct E2 as [E2|E2];
      [apply Z.ltb_lt in E2 | apply Z.leb_le in E2]; lia.
  - destruct (nth_error l (Z.to_nat i)) as [x|] eqn:E3; [eauto |].
    apply nth_error_None in E3. lia.
Qed.

Lemma getitem_ok l i x :
  getitem l i = Ok x ->
  0 <= wrap_index (Z.of_nat (length l)) i < Z.of_nat (length l)
  /\ nth_error l (Z.to_nat (wrap_index (Z.of_nat (length l)) i)) = Some x.
Proof.
  unfold getitem.
  set (j := wrap_index (Z.of_nat (length l)) i).
  intros H.
  destruct ((j <? 0) || (Z.of_nat (length l) <=? j)) eqn:E; [discriminate |].
  apply orb_false_iff in E. destruct E as [E1 E2].
  apply Z.ltb_ge in E1. apply Z.leb_gt in E2.
  destruct (nth_error l (Z.to_nat j)) eqn:E3; [| discriminate].
  inversion H; subst. auto.
Qed.
End PyFacts.

(** ** Arithmetic of the index type *)
Section IndexFacts.
Import Py Numpy.
Variable itembytes : positive.
Local Abbreviation wrap := (wrap itembytes).
Local Abbreviation modulus := (modulus itembytes).
Local Abbreviation half := (half itembytes).
Local Abbreviation in_range := (in_range itembytes).

Lemma half_pos : 0 < half.
Proof. unfold Numpy.half, itemsize. apply Z.pow_pos_nonneg; lia. Qed.

Lemma modulus_half : modulus = 2 * half.
Proof.
  unfold Numpy.modulus, Numpy.half, itemsize.
  replace (8 * Z.pos itembytes) with (Z.succ (8 * Z.pos itembytes - 1)) at 1 by lia.
  rewrite Z.pow_succ_r by lia. reflexivity.
Qed.

Lemma wrap_bounds x : - half <= wrap x < half.
Proof.
  unfold Numpy.wrap. pose proof half_pos. pose proof modulus_half.
  pose proof (Z.mod_pos_bound (x + half) modulus). lia.
Qed.

Lemma wrap_in_range x : in_range x = true -> wrap x = x.
Proof.
  unfold Numpy.in_range, Numpy.wrap. intros H.
  apply andb_true_iff in H. destruct H as [H1 H2].
  apply Z.leb_le in H1. apply Z.ltb_lt in H2.
  pose proof modulus_half. rewrite Z.mod_small; lia.
Qed.

Lemma wrap_add_l x y : wrap (wrap x + y) = wrap (x + y).
Proof.
  unfold Numpy.wrap. f_equal.
  replace ((x + half) mod modulus - half + y + half) with ((x + half) mod modulus + y) by lia.
  rewrite Z.add_mod_idemp_l by (pose proof half_pos; pose proof modulus_half; lia).
  f_equal. lia.
Qed.

Lemma wrap_add_r x y : wrap (x + wrap y) = wrap (x + y).
Proof. rewrite (Z.add_comm x), wrap_add_l. f_equal. lia. Qed.

Lemma wrap_sub_l x y : wrap (wrap x - y) = wrap (x - y).
Proof. unfold Z.sub. apply wrap_add_l. Qed.

Lemma length_cumsum cs : forall acc, length (cumsum itembytes acc cs) = length cs.
Proof. induction cs as [|c cs IH]; intros acc; simpl; [reflexivity | now rewrite IH]. Qed.

(** The differences of consecutive running sums are the summands. *)
Lemma cumsum_differences cs : forall acc,
  map (fun '(x, y) => wrap (x - y))
      (combine (cumsum itembytes acc cs) (acc :: cumsum itembytes acc cs))
  = map wrap cs.
Proof.
  induction cs as [|c cs IH]; intros acc; [reflexivity |].
  simpl. f_equal.
  - rewrite wrap_sub_l. f_equal. lia.
  - apply IH.
Qed.

Lemma map_wrap_in_range cs :
  Forall (fun c => in_range c = true) cs -> map wrap cs = cs.
Proof.
  induction 1 as [|c cs Hc _ IH]; simpl; [reflexivity |].
  now rewrite wrap_in_range, IH.
Qed.
End IndexFacts.

(** ** Arrays and views *)
Section ArrayFacts.
Import Py Numpy.

Lemma combine_firstn_r {X Y : Type} (xs : list X) (ys : list Y) :
  combine xs (firstn (length xs) ys) = combine xs ys.
Proof.
  revert ys. induction xs as [|x xs IH]; intros [|y ys]; simpl; try reflexivity.
  now rewrite IH.
Qed.

Lemma slice_all_but_last len :
  0 <= len ->
  slice_indices (Slice None (Some (-1)) None) len = Ok (0, Z.max (len - 1) 0, 1).
Proof.
  intros H. unfold slice_indices, clamp_bound. cbn [sl_step sl_start sl_stop].
  change (1 =? 0) with false. change (1 <? 0) with false. change (-1 <? 0) with true.
  cbv iota. do 2 f_equal. f_equal. lia.
Qed.

Lemma slice_all_but_first len :
  0 <= len ->
  slice_indices (Slice (Some 1) None None) len = Ok (Z.min 1 len, len, 1).
Proof. intros H. reflexivity. Qed.

(** [offsets[:-1]] and [offsets[1:]] of an array that owns [S n] items;
    the second, when it is empty, starts where the array starts. *)
Lemma owner_all_but_last b n :
  length (cells b) = S n ->
  getslice_array (Owner b) (Slice None (Some (-1)) None) = Ok (View b 0 1 n).
Proof.
  intros H. unfold getslice_array. simpl len. rewrite slice_all_but_last by lia.
  cbn [bind]. rewrite H.
  rewrite slice_length_unit by lia.
  replace (Z.to_nat (Z.max (Z.of_nat (S n) - 1) 0 - 0)) with n by lia.
  destruct n; reflexivity.
Qed.

Lemma owner_all_but_first b n :
  length (cells b) = S n ->
  getslice_array (Owner b) (Slice (Some 1) None None)
  = Ok (View b (Z.of_nat (Nat.min 1 n)) 1 n).
Proof.
  intros H. unfold getslice_array. simpl len. rewrite slice_all_but_first by lia.
  cbn [bind]. rewrite H.
  replace (Z.min 1 (Z.of_nat (S n))) with 1 by lia.
  rewrite slice_length_unit by lia.
  replace (Z.to_nat (Z.of_nat (S n) - 1)) with n by lia.
  destruct n; reflexivity.
Qed.

Lemma items_prefix_view b n :
  (n <= length (cells b))%nat -> items (View b 0 1 n) = firstn n (cells b).
Proof.
  intros H. change (items (View b 0 1 n)) with (strided (cells b) (Z.of_nat 0) 1 n).
  now rewrite strided_unit by lia.
Qed.

Lemma items_shifted_view b n :
  (1 + n <= length (cells b))%nat -> items (View b 1 1 n) = firstn n (skipn 1 (cells b)).
Proof.
  intros H. change (items (View b 1 1 n)) with (strided (cells b) (Z.of_nat 1) 1 n).
  now rewrite strided_unit by lia.
Qed.

Lemma items_tail_view b n :
  (1 + n <= length (cells b))%nat ->
  items (View b (Z.of_nat (Nat.min 1 n)) 1 n) = firstn n (skipn 1 (cells b)).
Proof.
  intros H. destruct n as [|n]; [reflexivity |].
  change (Nat.min 1 (S n)) with 1%nat. now apply items_shifted_view.
Qed.
End ArrayFacts.

(** ** JaggedArray.fromoffsets and JaggedArray.fromcounts *)
Section FromCounts.
Import Py Numpy Jagged.
Variable itembytes : positive.
Context {A : Type}.

Lemma fromoffsets_value (b : buffer) (L : nat) (content : list A) (writeable : bool) :
  length (cells b) = S L ->
  fromoffsets (Owner b) content writeable
  = Ok (mk (View b 0 1 L) (View b (Z.of_nat (Nat.min 1 L)) 1 L) content writeable).
Proof.
  intros H. unfold fromoffsets, all_but_last, all_but_first.
  rewrite (owner_all_but_last b _ H), (owner_all_but_first b _ H).
  reflexivity.
Qed.

Lemma running_sums_starts (cs : list Z) (n : nat) :
  let offsets := Buffer n (0 :: cumsum itembytes 0 cs) in
  items (View offsets 0 1 (length cs)) = firstn (length cs) (0 :: cumsum itembytes 0 cs).
Proof. intros offsets. apply items_prefix_view. simpl. rewrite length_cumsum. lia. Qed.

Lemma running_sums_stops (cs : list Z) (n : nat) :
  let offsets := Buffer n (0 :: cumsum itembytes 0 cs) in
  items (View offsets (Z.of_nat (Nat.min 1 (length cs))) 1 (length cs))
  = cumsum itembytes 0 cs.
Proof.
  intros offsets. rewrite items_tail_view by (simpl; rewrite length_cumsum; lia).
  simpl. rewrite <- (length_cumsum itembytes cs 0). apply firstn_all.
Qed.

Lemma nth_error_firstn_lt {X : Type} (l : list X) (n i : nat) :
  (i < n)%nat -> nth_error (firstn n l) i = nth_error l i.
Proof.
  revert l i. induction n as [|n IH]; intros l i H; [lia |].
  destruct l as [|x l], i as [|i]; simpl; try reflexivity.
  apply IH. lia.
Qed.

(** What [fromcounts] is after: from an array that holds 0 followed by the
    running sums of [counts] (items of the index type), [fromoffsets]
    gives a jagged array of length [len(counts)] in compact form whose
    [counts] property is [counts]. *)
Lemma fromoffsets_running_sums (cs : list Z) (content : list A) (writeable : bool) (n : nat) :
  Forall (fun c => in_range itembytes c = true) cs ->
  exists N,
    fromoffsets (Owner (Buffer n (0 :: cumsum itembytes 0 cs))) content writeable = Ok N
    /\ __len__ N = Z.of_nat (length cs)
    /\ length (starts N) = length cs
    /\ length (stops N) = length cs
    /\ (cs <> [] -> nth_error (starts N) 0 = Some 0)
    /\ (forall i, (S i < length cs)%nat ->
                  nth_error (stops N) i = nth_error (starts N) (S i))
    /\ counts itembytes N = Ok cs
    /\ _content N = content
    /\ _writeable N = writeable.
Proof.
  intros Hcs. eexists. split.
  { apply fromoffsets_value. simpl. now rewrite length_cumsum. }
  unfold counts. unfold starts, stops, __len__. simpl _starts. simpl _stops.
  rewrite running_sums_starts, running_sums_stops.
  pose proof (length_cumsum itembytes cs 0) as HL.
  assert (Hs : length (firstn (length cs) (0 :: cumsum itembytes 0 cs)) = length cs)
    by (rewrite length_firstn; simpl; lia).
  repeat split.
  - exact Hs.
  - exact HL.
  - intros Hne. destruct cs; [congruence | reflexivity].
  - intros i Hi. rewrite nth_error_firstn_lt by lia. reflexivity.
  - unfold subtract. rewrite HL, Hs, Nat.eqb_refl.
    rewrite <- HL at 1. rewrite combine_firstn_r.
    rewrite cumsum_differences. now rewrite map_wrap_in_range.
Qed.

(** C2: [JaggedArray.fromcounts(counts, content)] returns no jagged array:
    for every [counts] and [content] the call [numpy.cumsum(counts,
    offsets[1:])] passes the view [offsets[1:]] as the axis and raises
    [TypeError]; the running sums are never stored. *)
Theorem fromcounts_axis (memory : nat -> Z) (cs : list Z) (content : list A)
    (writeable : bool) (n : nat) :
  fromcounts itembytes memory cs content writeable n = Raise axis_type_error
  /\ is_ok (value (fromcounts itembytes memory cs content writeable n)) = false.
Proof.
  assert (E : fromcounts itembytes memory cs content writeable n = Raise axis_type_error).
  { unfold fromcounts, mbind, new_array, lift, getslice_array, all_but_first.
    cbv beta iota delta [bind]. rewrite slice_all_but_first by (unfold len; lia).
    destruct (slice_length _ _ _); reflexivity. }
  split; [exact E | now rewrite E].
Qed.

End FromCounts.


(** ** The offsets property *)
Section Offsets.
Variable itembytes : positive.
Context {A : Type}.
Implicit Types (N : JaggedArray A) (l : list Z).

Lemma array_equal_eq l1 : forall l2, array_equal l1 l2 = true <-> l1 = l2.
Proof.
  induction l1 as [|x l1 IH]; intros [|y l2]; simpl; split; intros H;
    try reflexivity; try discriminate.
  - apply andb_true_iff in H. destruct H as [H1 H2].
    apply Z.eqb_eq in H1. apply IH in H2. congruence.
  - inversion H; subst. rewrite Z.eqb_refl. simpl. now apply IH.
Qed.

Lemma getslice_all_but_first l : getslice l all_but_first = Ok (skipn 1 l).
Proof.
  unfold getslice, all_but_first. rewrite slice_all_but_first by lia.
  cbv beta iota delta [bind]. f_equal.
  destruct l as [|x l]; [reflexivity |].
  replace (Z.min 1 (Z.of_nat (length (x :: l)))) with (Z.of_nat 1) by (simpl length; lia).
  rewrite slice_length_unit by (simpl length; lia).
  rewrite strided_unit by (simpl length; lia).
  rewrite firstn_all2; [reflexivity |].
  rewrite length_skipn. simpl length. lia.
Qed.

Lemma getslice_all_but_last l : getslice l all_but_last = Ok (firstn (length l - 1) l).
Proof.
  unfold getslice, all_but_last. rewrite slice_all_but_last by lia.
  cbv beta iota delta [bind]. f_equal.
  rewrite slice_length_unit by lia.
  rewrite (strided_unit l 0) by lia.
  simpl skipn. f_equal. lia.
Qed.

Lemma nth_error_last l x : l <> [] -> nth_error l (length l - 1) = Some (last l x).
Proof.
  induction l as [|y l IH]; intros H; [congruence |].
  destruct l as [|z l]; [reflexivity |].
  replace (length (y :: z :: l) - 1)%nat with (S (length (z :: l) - 1)) by (simpl; lia).
  change (last (y :: z :: l) x) with (last (z :: l) x).
  simpl nth_error. apply IH. discriminate.
Qed.

Lemma getitem_last l x : l <> [] -> getitem l (-1) = Ok (last l x).
Proof.
  intros Hl.
  destruct (getitem_inside l (Z.of_nat (length l) - 1)) as [y [_ Hy]].
  { destruct l; [congruence | simpl length; lia]. }
  unfold getitem, wrap_index. change (-1 <? 0) with true. cbv iota.
  replace (-1 + Z.of_nat (length l)) with (Z.of_nat (length l) - 1) by lia.
  destruct ((Z.of_nat (length l) - 1 <? 0) || (Z.of_nat (length l) <=? Z.of_nat (length l) - 1))
    eqn:E.
  { apply orb_true_iff in E. destruct E as [E|E];
      [apply Z.ltb_lt in E | apply Z.leb_le in E];
      destruct l; try congruence; simpl length in *; lia. }
  rewrite Hy. f_equal.
  replace (Z.to_nat (Z.of_nat (length l) - 1)) with (length l - 1)%nat in Hy by lia.
  rewrite (nth_error_last l x Hl) in Hy. now inversion Hy.
Qed.

(** Adjacency, [stops[i] = starts[i+1]] for all [i < L - 1], is the
    equality of [starts[1:]] and [stops[:-1]]. *)
Lemma adjacent_iff (s e : list Z) :
  length e = length s ->
  (forall i, (S i < length s)%nat -> nth_error e i = nth_error s (S i))
  <-> skipn 1 s = firstn (length e - 1) e.
Proof.
  intros Hlen. split.
  - intros H. apply nth_error_ext. intros i.
    destruct (Nat.lt_ge_cases (S i) (length s)) as [Hi|Hi].
    + rewrite nth_error_firstn_lt by lia.
      rewrite nth_error_skipn. symmetry. now apply H.
    + transitivity (@None Z); [| symmetry]; apply nth_error_None.
      * rewrite length_skipn. lia.
      * rewrite length_firstn. lia.
  - intros H i Hi.
    rewrite <- (nth_error_firstn_lt e (length e - 1) i) by lia.
    rewrite <- H. now rewrite nth_error_skipn.
Qed.

(** Away from the aliased case, [offsets] is what the starts and stops
    say: for adjacent rows it is a new array, [starts] followed by the
    last stop, and otherwise the call fails. *)
Lemma offsets_not_aliased N (n : nat) :
  _offsets_is_aliased itembytes N = false ->
  starts N <> [] ->
  length (stops N) = length (starts N) ->
  ((forall i, (S i < length (starts N))%nat ->
              nth_error (stops N) i = nth_error (starts N) (S i)) ->
   offsets itembytes N n = Ok (Owner (Buffer n (starts N ++ [last (stops N) 0])), S n))
  /\ (~ (forall i, (S i < length (starts N))%nat ->
                   nth_error (stops N) i = nth_error (starts N) (S i)) ->
      offsets itembytes N n = Raise offsets_error).
Proof.
  intros Hal Hne Hlen. unfold offsets. rewrite Hal.
  unfold mbind, lift. rewrite getslice_all_but_first, getslice_all_but_last.
  cbv beta iota delta [bind].
  split; intros Hadj.
  - apply (adjacent_iff (starts N) (stops N) Hlen) in Hadj.
    apply array_equal_eq in Hadj. rewrite Hadj.
    rewrite (getitem_last (stops N) 0).
    + reflexivity.
    + intros E. rewrite E in Hlen. destruct (starts N); [congruence | discriminate].
  - destruct (array_equal (skipn 1 (starts N)) (firstn (length (stops N) - 1) (stops N)))
      eqn:E; [| reflexivity].
    exfalso. apply Hadj. apply (adjacent_iff (starts N) (stops N) Hlen).
    now apply array_equal_eq.
Qed.

(** C6: a jagged array of length 2 whose starts and stops are views of
    one three-item array, [starts = X[::2]] and [stops = X[1:]].  The
    rows are not adjacent ([stops[0] = 2], [starts[1] = 5]), and yet
    [offsets] returns [X] instead of failing: [_offsets_is_aliased]
    compares base, addresses and lengths, not the strides. *)
Theorem offsets_strided_views (content : list A) (n : nat) :
  let X := Buffer 0 [0; 2; 5] in
  let N := mk (View X 0 2 2) (View X 1 1 2) content true in
  getslice_array (Owner X) (Slice None None (Some 2)) = Ok (_starts N)
  /\ getslice_array (Owner X) all_but_first = Ok (_stops N)
  /\ starts N = [0; 5]
  /\ stops N = [2; 5]
  /\ nth_error (stops N) 0 <> nth_error (starts N) 1
  /\ offsets itembytes N n = Ok (Owner X, n)
  /\ items (Owner X) = [0; 2; 5].
Proof.
  intros X N. repeat split; try reflexivity.
  - discriminate.
  - subst N X. unfold offsets, _offsets_is_aliased, buffer_data, buffer_len.
    cbn [base _starts _stops data len cells ident length Nat.eqb].
    replace (1 * itemsize itembytes =? 0 + itemsize itembytes) with true
      by (symmetry; apply Z.eqb_eq; lia).
    reflexivity.
Qed.
End Offsets.

(** ** Writing to a range of a buffer *)
Section RangeWrites.
Context {X : Type}.
Implicit Types (l xs : list X) (start p : nat).

Lemma put_length l start xs :
  (start + length xs <= length l)%nat -> length (put l start xs) = length l.
Proof.
  intros H. unfold put. rewrite !length_app, length_firstn, length_skipn. lia.
Qed.

Lemma put_nth_inside l start xs p :
  (start <= length l)%nat -> (start <= p < start + length xs)%nat ->
  nth_error (put l start xs) p = nth_error xs (p - start).
Proof.
  intros Hs Hp. unfold put.
  rewrite nth_error_app2 by (rewrite length_firstn; lia).
  rewrite length_firstn, Nat.min_l by lia.
  apply nth_error_app1. lia.
Qed.

Lemma put_nth_outside l start xs p :
  (start + length xs <= length l)%nat -> (p < start \/ start + length xs <= p)%nat ->
  nth_error (put l start xs) p = nth_error l p.
Proof.
  intros Hs [Hp|Hp]; unfold put.
  - rewrite nth_error_app1 by (rewrite length_firstn; lia).
    now apply nth_error_firstn_lt.
  - rewrite nth_error_app2 by (rewrite length_firstn; lia).
    rewrite length_firstn, Nat.min_l by lia.
    rewrite nth_error_app2 by lia.
    rewrite nth_error_skipn. f_equal. lia.
Qed.

Lemma broadcast_to_length n (v : rhs X) xs : broadcast_to n v = Ok xs -> length xs = n.
Proof.
  destruct v as [x|ys]; simpl.
  - intros H. inversion H. apply repeat_length.
  - destruct (Nat.eqb (length ys) n) eqn:E.
    + intros H. inversion H; subst. now apply Nat.eqb_eq.
    + destruct ys as [|y [|y' ys]]; try discriminate.
      intros H. inversion H. apply repeat_length.
Qed.

(** [l[a:b] = v] for a range inside the buffer. *)
Lemma setrange_inside l (a b : Z) (v : rhs X) :
  0 <= a <= b -> b <= Z.of_nat (length l) ->
  setrange l a b v
  = bind (broadcast_to (Z.to_nat (b - a)) v) (fun xs => Ok (put l (Z.to_nat a) xs)).
Proof.
  intros Ha Hb. unfold setrange.
  rewrite !clamp_inside by lia. now rewrite slice_length_unit by lia.
Qed.

Lemma setrange_length l (a b : Z) (v : rhs X) l' :
  setrange l a b v = Ok l' -> length l' = length l.
Proof.
  unfold setrange.
  set (len := Z.of_nat (length l)).
  set (start := clamp_bound len 0 len a). set (stop := clamp_bound len 0 len b).
  destruct (broadcast_to (slice_length start stop 1) v) as [xs|e] eqn:E; [| discriminate].
  simpl. intros H. inversion H. apply broadcast_to_length in E.
  apply put_length. rewrite E.
  assert (Hlen : 0 <= len) by (unfold len; lia).
  assert (Hstart : 0 <= start <= len)
    by (unfold start, clamp_bound; destruct (a <? 0) eqn:Ea;
        [apply Z.ltb_lt in Ea | apply Z.ltb_ge in Ea]; lia).
  assert (Hstop : 0 <= stop <= len)
    by (unfold stop, clamp_bound; destruct (b <? 0) eqn:Eb;
        [apply Z.ltb_lt in Eb | apply Z.ltb_ge in Eb]; lia).
  destruct (Z.le_gt_cases start stop).
  - rewrite slice_length_unit by lia. lia.
  - rewrite slice_length_empty by lia. lia.
Qed.
End RangeWrites.

(** ** The invariant of a jagged array *)
Section Invariant.
Context {A : Type}.
Implicit Types (N : JaggedArray A).

Lemma nth_error_combine {X Y : Type} (xs : list X) (ys : list Y) k x y :
  nth_error xs k = Some x -> nth_error ys k = Some y ->
  nth_error (combine xs ys) k = Some (x, y).
Proof.
  revert ys k. induction xs as [|x' xs IH]; intros [|y' ys] [|k] Hx Hy;
    simpl in *; try discriminate.
  - now inversion Hx; inversion Hy.
  - now apply IH.
Qed.

Lemma invariant_lengths N :
  invariant N = true -> (length (starts N) <= length (stops N))%nat.
Proof.
  unfold invariant. intros H. apply andb_true_iff in H. destruct H as [H _].
  now apply Nat.leb_le.
Qed.

Lemma invariant_row N k s e :
  invariant N = true ->
  nth_error (starts N) k = Some s -> nth_error (stops N) k = Some e ->
  0 <= s <= e /\ e <= Z.of_nat (length (_content N)).
Proof.
  unfold invariant. intros H Hs He. apply andb_true_iff in H. destruct H as [_ H].
  rewrite forallb_forall in H.
  specialize (H (s, e) (nth_error_In _ _ (nth_error_combine _ _ _ _ _ Hs He))).
  unfold row_ok in H. simpl in H.
  apply andb_true_iff in H. destruct H as [H H3].
  apply andb_true_iff in H. destruct H as [H1 H2].
  apply Z.leb_le in H1, H2, H3. lia.
Qed.
End Invariant.

(** ** The parents property *)
Section Parents.
Implicit Types (ss es out : list Z) (n i k p : nat).

Lemma length_empty memory n : length (empty memory n) = n.
Proof. unfold empty. now rewrite length_map, length_seq. Qed.

Lemma nth_error_empty memory n p :
  (p < n)%nat -> nth_error (empty memory n) p = Some (memory p).
Proof.
  intros H. unfold empty. rewrite nth_error_map, nth_error_seq.
  destruct (Nat.ltb_spec p n); [reflexivity | lia].
Qed.

(** After the rows from [i] on have been written, every position holds
    the index of the last of these rows that covers it, and a position
    that none of them covers holds what it held. *)
Lemma parents_loop_step ss es n (i : Z) out :
  parents_loop ss es (S n) i out
  = bind (getitem ss i) (fun s =>
    bind (getitem es i) (fun e =>
    bind (setrange out s e (Item i)) (fun out' =>
    parents_loop ss es n (i + 1) out'))).
Proof. reflexivity. Qed.

Lemma parents_loop_spec ss es n : forall i out,
  (i + n = length ss)%nat ->
  (length ss <= length es)%nat ->
  (forall k s e, nth_error ss k = Some s -> nth_error es k = Some e ->
                 0 <= s <= e /\ e <= Z.of_nat (length out)) ->
  exists out',
    parents_loop ss es n (Z.of_nat i) out = Ok out'
    /\ length out' = length out
    /\ (forall p, (forall k, (i <= k)%nat -> covers ss es k (Z.of_nat p) = false) ->
                  nth_error out' p = nth_error out p)
    /\ (forall p k, (i <= k)%nat -> covers ss es k (Z.of_nat p) = true ->
                    (forall j, (k < j)%nat -> covers ss es j (Z.of_nat p) = false) ->
                    nth_error out' p = Some (Z.of_nat k)).
Proof.
  induction n as [|n IH]; intros i out Hi Hlen Hrows.
  - exists out. repeat split; try reflexivity.
    intros p k Hk Hc _. unfold covers in Hc.
    assert (E0 : nth_error ss k = None) by (apply nth_error_None; lia).
    now rewrite E0 in Hc.
  - destruct (getitem_inside ss (Z.of_nat i)) as [s [Gs Hs]]; [lia |].
    destruct (getitem_inside es (Z.of_nat i)) as [e [Ge He]]; [lia |].
    rewrite Nat2Z.id in Hs, He.
    destruct (Hrows i s e Hs He) as [Hse Hec].
    rewrite parents_loop_step, Gs, Ge. cbv beta iota delta [bind].
    rewrite setrange_inside by lia. cbv beta iota delta [bind broadcast_to].
    set (out1 := put out (Z.to_nat s) (repeat (Z.of_nat i) (Z.to_nat (e - s)))).
    assert (Hfit : (Z.to_nat s + length (repeat (Z.of_nat i) (Z.to_nat (e - s)))
                    <= length out)%nat) by (rewrite repeat_length; lia).
    assert (Hlen1 : length out1 = length out) by (apply put_length; exact Hfit).
    destruct (IH (S i) out1) as [out' [Hrun [Hl' [Hgap Hlast]]]].
    + lia.
    + exact Hlen.
    + intros k s' e' Hs' He'. rewrite Hlen1. eauto.
    + exists out'. replace (Z.of_nat i + 1) with (Z.of_nat (S i)) by lia.
      split; [exact Hrun |]. split; [congruence |]. split.
      * intros p Hnone. rewrite Hgap by (intros k Hk; apply Hnone; lia).
        apply put_nth_outside; [exact Hfit |].
        specialize (Hnone i (Nat.le_refl i)). unfold covers in Hnone.
        rewrite Hs, He in Hnone. rewrite repeat_length.
        apply andb_false_iff in Hnone.
        destruct Hnone as [F|F]; [apply Z.leb_gt in F | apply Z.ltb_ge in F]; lia.
      * intros p k Hk Hc Hlater.
        destruct (Nat.eq_dec k i) as [->|Hne].
        -- rewrite Hgap by (intros j Hj; apply Hlater; lia).
           unfold covers in Hc. rewrite Hs, He in Hc.
           apply andb_true_iff in Hc. destruct Hc as [C1 C2].
           apply Z.leb_le in C1. apply Z.ltb_lt in C2.
           unfold out1. rewrite put_nth_inside by (rewrite ?repeat_length; lia).
           apply nth_error_repeat. lia.
        -- apply Hlast; [lia | exact Hc | exact Hlater].
Qed.

Context {A : Type}.

(** C7 (as amended): for a jagged array that satisfies the invariant,
    [parents] has the length of the content; every position covered by
    some row holds the index of the last row that covers it, so that
    [parents[starts[i]:stops[i]] == i] holds for every row [i] whose
    range no later row overlaps; a position in a gap holds whatever the
    new array held. *)
Theorem parents_last_cover (memory : nat -> Z) (N : JaggedArray A) :
  invariant N = true ->
  exists out,
    parents memory N = Ok out
    /\ length out = length (_content N)
    /\ (forall p k, covers (starts N) (stops N) k (Z.of_nat p) = true ->
                    (forall j, (k < j)%nat -> covers (starts N) (stops N) j (Z.of_nat p) = false) ->
                    nth_error out p = Some (Z.of_nat k))
    /\ (forall p, (p < length (_content N))%nat ->
                  (forall k, covers (starts N) (stops N) k (Z.of_nat p) = false) ->
                  nth_error out p = Some (memory p)).
Proof.
  intros Hinv. unfold parents.
  destruct (parents_loop_spec (starts N) (stops N) (length (starts N)) 0
              (empty memory (length (_content N))))
    as [out [Hrun [Hlen [Hgap Hlast]]]].
  - reflexivity.
  - now apply invariant_lengths.
  - intros k s e Hs He. rewrite length_empty. eapply invariant_row; eauto.
  - exists out. split; [exact Hrun |]. rewrite length_empty in Hlen.
    split; [exact Hlen |]. split.
    + intros p k Hc Hlater. apply Hlast; [lia | exact Hc | exact Hlater].
    + intros p Hp Hnone. rewrite Hgap by (intros k _; apply Hnone).
      now apply nth_error_empty.
Qed.
End Parents.

Lemma parents_last_cover_witness :
  exists out,
    parents (fun _ => 7) (mk (Owner (Buffer 0 [0; 3])) (Owner (Buffer 1 [2; 4])) ["a"; "b"; "c"; "d"; "e"] true)
    = Ok out
    /\ length out = 5%nat
    /\ (forall p k, covers [0; 3] [2; 4] k (Z.of_nat p) = true ->
                    (forall j, (k < j)%nat -> covers [0; 3] [2; 4] j (Z.of_nat p) = false) ->
                    nth_error out p = Some (Z.of_nat k))
    /\ (forall p, (p < 5)%nat ->
                  (forall k, covers [0; 3] [2; 4] k (Z.of_nat p) = false) ->
                  nth_error out p = Some 7).
Proof.
  apply (parents_last_cover (fun _ => 7)
           (mk (Owner (Buffer 0 [0; 3])) (Owner (Buffer 1 [2; 4])) ["a"; "b"; "c"; "d"; "e"] true)).
  reflexivity.
Defined.

(** C7, as stated, fails when rows overlap: with [starts = [0, 0]] and
    [stops = [2, 2]] over a content of two items the invariant holds, row
    0 is not empty, and [parents[0:2]] is [[1, 1]], not [[0, 0]]. *)
Lemma parents_overlapping_rows :
  let N := mk (Owner (Buffer 0 [0; 0])) (Owner (Buffer 1 [2; 2])) ["a"; "b"] true in
  invariant N = true
  /\ parents (fun _ => 7) N = Ok [1; 1]
  /\ getitem (starts N) 0 = Ok 0
  /\ getitem (stops N) 0 = Ok 2
  /\ getrange [1; 1] 0 2 <> repeat 0 2.
Proof. repeat split; try reflexivity. discriminate. Qed.

(** ** Slices of arrays and of their items *)
Section SliceFacts.
Implicit Types (l : list Z) (n m k j : nat).

Lemma flat_map_ext_in {X Y : Type} (f g : X -> list Y) (xs : list X) :
  (forall x, In x xs -> f x = g x) -> flat_map f xs = flat_map g xs.
Proof.
  induction xs as [|x xs IH]; intros H; simpl; [reflexivity |].
  rewrite (H x) by now left. f_equal. apply IH. intros y Hy. apply H. now right.
Qed.

Lemma strided_snoc {X : Type} (l : list X) (f s : Z) n :
  strided l f s (S n) = strided l f s n ++ pick l (f + Z.of_nat n * s).
Proof.
  unfold strided. rewrite seq_S, flat_map_app. simpl. now rewrite app_nil_r.
Qed.

Lemma inside_bounds b f s n k :
  inside b f s n = true -> (k < n)%nat ->
  0 <= f + Z.of_nat k * s < Z.of_nat (length (cells b)).
Proof.
  unfold inside, buffer_len. intros H Hk. rewrite forallb_forall in H.
  specialize (H k). rewrite in_seq in H. specialize (H ltac:(lia)).
  apply andb_true_iff in H. destruct H as [H1 H2].
  apply Z.leb_le in H1. apply Z.ltb_lt in H2. lia.
Qed.

(** The items of a view that lies inside its block. *)
Lemma strided_inside {X : Type} (l : list X) (f s : Z) n :
  (forall k, (k < n)%nat -> 0 <= f + Z.of_nat k * s < Z.of_nat (length l)) ->
  length (strided l f s n) = n
  /\ forall j, (j < n)%nat ->
               nth_error (strided l f s n) j = nth_error l (Z.to_nat (f + Z.of_nat j * s)).
Proof.
  induction n as [|n IH]; intros H.
  - split; [reflexivity | intros j Hj; lia].
  - destruct IH as [IHlen IHnth]; [intros k Hk; apply H; lia |].
    destruct (pick_length_inside l (f + Z.of_nat n * s)) as [x [Hp Hx]]; [apply H; lia |].
    rewrite strided_snoc, Hp. split.
    + rewrite length_app, IHlen. simpl. lia.
    + intros j Hj. destruct (Nat.eq_dec j n) as [->|Hne].
      * rewrite nth_error_app2 by lia. rewrite IHlen, Nat.sub_diag. simpl. now rewrite Hx.
      * rewrite nth_error_app1 by lia. apply IHnth. lia.
Qed.

Lemma pick_strided {X : Type} (l : list X) (f s : Z) n (j : Z) :
  (forall k, (k < n)%nat -> 0 <= f + Z.of_nat k * s < Z.of_nat (length l)) ->
  0 <= j < Z.of_nat n ->
  pick (strided l f s n) j = pick l (f + j * s).
Proof.
  intros H Hj. destruct (strided_inside l f s n H) as [Hlen Hnth].
  specialize (Hnth (Z.to_nat j) ltac:(lia)). rewrite Z2Nat.id in Hnth by lia.
  destruct (pick_length_inside l (f + j * s)) as [x [Hp Hx]].
  { specialize (H (Z.to_nat j) ltac:(lia)). rewrite Z2Nat.id in H by lia. exact H. }
  rewrite Hp. apply pick_inside; [lia | congruence].
Qed.

Lemma wf_length a : wf a = true -> Z.of_nat (length (items a)) = len a.
Proof.
  destruct a as [b|b f s n]; simpl; [reflexivity |].
  intros H. destruct (strided_inside (cells b) f s n) as [Hl _];
    [intros k Hk; now apply (inside_bounds b f s n) | now rewrite Hl].
Qed.

(** The positions of a slice lie in the sequence. *)
Lemma slice_indices_bounds sl len start stop step k :
  0 <= len ->
  slice_indices sl len = Ok (start, stop, step) ->
  (k < slice_length start stop step)%nat ->
  0 <= start + Z.of_nat k * step < len.
Proof.
  intros Hlen. unfold slice_indices.
  set (st := match sl_step sl with Some s => s | None => 1 end).
  destruct (st =? 0) eqn:E0; [discriminate |]. apply Z.eqb_neq in E0.
  intros H. injection H as Hstart Hstop Hstep.
  assert (Hst : step <> 0) by congruence.
  replace (st <? 0) with (step <? 0) in Hstart, Hstop by now rewrite Hstep.
  clear E0 Hstep.
  assert (Hcl : forall b lower upper, lower <= upper -> upper <= len -> lower <= 0 ->
                  -1 <= lower -> len - 1 <= upper ->
                  lower <= clamp_bound len lower upper b <= upper).
  { intros b lower upper H1 H2 H3 H4 H5. unfold clamp_bound.
    destruct (b <? 0) eqn:Eb; [apply Z.ltb_lt in Eb | apply Z.ltb_ge in Eb]; lia. }
  unfold slice_length.
  destruct (step <? 0) eqn:Es; [apply Z.ltb_lt in Es | apply Z.ltb_ge in Es].
  - assert (Hs : -1 <= start <= len - 1).
    { rewrite <- Hstart. destruct (sl_start sl); [apply Hcl |]; lia. }
    assert (He : -1 <= stop <= len - 1).
    { rewrite <- Hstop. destruct (sl_stop sl); [apply Hcl |]; lia. }
    destruct (stop <? start) eqn:Ec; [apply Z.ltb_lt in Ec | intros Hk; simpl in Hk; lia].
    intros Hk.
    assert (Hq : Z.of_nat k <= (start - stop - 1) / - step).
    { pose proof (Z.div_pos (start - stop - 1) (- step)). lia. }
    pose proof (Z.mul_div_le (start - stop - 1) (- step)). nia.
  - assert (Hs : 0 <= start <= len).
    { rewrite <- Hstart. destruct (sl_start sl); [apply Hcl |]; lia. }
    assert (He : 0 <= stop <= len).
    { rewrite <- Hstop. destruct (sl_stop sl); [apply Hcl |]; lia. }
    destruct (start <? stop) eqn:Ec; [apply Z.ltb_lt in Ec | intros Hk; simpl in Hk; lia].
    intros Hk.
    assert (Hq : Z.of_nat k <= (stop - start - 1) / step).
    { pose proof (Z.div_pos (stop - start - 1) step). lia. }
    pose proof (Z.mul_div_le (stop - start - 1) step). nia.
Qed.

(** The items of [a[start:stop:step]] are the slice of the items of [a]. *)
Lemma items_view a (start step : Z) n :
  wf a = true ->
  (forall k, (k < n)%nat -> 0 <= start + Z.of_nat k * step < len a) ->
  items (view a start step n) = strided (items a) start step n.
Proof.
  destruct a as [b|b f s m]; intros Hwf Hin; [reflexivity |].
  simpl in *. unfold strided at 1 2. apply flat_map_ext_in. intros k Hseq.
  apply in_seq in Hseq.
  destruct (Nat.lt_ge_cases k n) as [Hk|Hk].
  - rewrite pick_strided.
    + f_equal. lia.
    + intros k' Hk'. now apply (inside_bounds b f s m).
    + apply Hin. exact Hk.
  - exfalso. lia.
Qed.
End SliceFacts.

(** ** JaggedArray.__getitem__ *)
Section GetItem.
Variable itembytes : positive.
Context {A : Type}.
Variable getfield : list A -> string -> option (list A).
Implicit Types (N : JaggedArray A) (l : list Z).

Lemma getitem_in_range {X : Type} (l : list X) (i : Z) :
  - Z.of_nat (length l) <= i < Z.of_nat (length l) -> exists x, getitem l i = Ok x.
Proof.
  intros Hi. unfold getitem.
  set (j := wrap_index (Z.of_nat (length l)) i).
  assert (Hj : 0 <= j < Z.of_nat (length l)).
  { unfold j, wrap_index.
    destruct (i <? 0) eqn:E; [apply Z.ltb_lt in E | apply Z.ltb_ge in E]; lia. }
  destruct ((j <? 0) || (Z.of_nat (length l) <=? j)) eqn:E.
  - apply orb_true_iff in E.
    destruct E as [E|E]; [apply Z.ltb_lt in E | apply Z.leb_le in E]; lia.
  - destruct (nth_error l (Z.to_nat j)) as [x|] eqn:E3; [eauto |].
    apply nth_error_None in E3. lia.
Qed.

(** Slicing an array object and slicing its items agree. *)
Lemma getslice_array_items a sl l :
  wf a = true ->
  getslice (items a) sl = Ok l ->
  exists v, getslice_array a sl = Ok v /\ items v = l.
Proof.
  intros Hwf. unfold getslice, getslice_array. rewrite (wf_length a Hwf).
  destruct (slice_indices sl (len a)) as [[[start stop] step]|e] eqn:E; [| discriminate].
  cbv beta iota delta [bind]. intros H. inversion H.
  destruct (slice_length start stop step) as [|m] eqn:El.
  - eexists. split; [reflexivity |]. destruct a; reflexivity.
  - eexists. split; [reflexivity |].
    apply items_view; [exact Hwf |].
    intros k Hk. apply (slice_indices_bounds sl (len a) start stop step k); auto.
    + rewrite <- (wf_length a Hwf). lia.
    + rewrite El. exact Hk.
Qed.

Lemma index_array_items a sel l (n : nat) :
  wf a = true ->
  index_items (items a) sel = Ok (Array l) ->
  exists v n', index a sel n = Ok (Array v, n') /\ items v = l.
Proof.
  intros Hwf. destruct sel as [i|sl|idx|mask|name]; simpl.
  - destruct (getitem (items a) i); discriminate.
  - destruct (getslice (items a) sl) as [l'|e] eqn:E; [| discriminate].
    intros H. inversion H; subst.
    destruct (getslice_array_items a sl l Hwf E) as [v [Hv Hi]].
    exists v, n. unfold lift. rewrite Hv. now split.
  - destruct (take (items a) idx) as [l'|e] eqn:E; [| discriminate].
    intros H. inversion H; subst.
    eexists. eexists. unfold mbind, lift, new_array, ret. simpl. split; reflexivity.
  - destruct (getmask (items a) mask) as [l'|e] eqn:E; [| discriminate].
    intros H. inversion H; subst.
    eexists. eexists. unfold mbind, lift, new_array, ret. simpl. split; reflexivity.
  - discriminate.
Qed.

Lemma slice_defined {X : Type} (l : list X) sl :
  sl_step sl <> Some 0 -> is_ok (getslice l sl) = true.
Proof.
  intros H. unfold getslice, slice_indices.
  destruct (sl_step sl) as [s|].
  - destruct (s =? 0) eqn:E; [apply Z.eqb_eq in E; congruence | reflexivity].
  - reflexivity.
Qed.

Lemma check_lengths N :
  _check_startsstops N = Ok tt -> len (_starts N) <= len (_stops N).
Proof.
  unfold _check_startsstops.
  destruct (len (_stops N) <? len (_starts N)) eqn:E; [discriminate |].
  apply Z.ltb_ge in E. auto.
Qed.

(** [counts[i]] is [stops[i] - starts[i]], in the index type. *)
Lemma counts_item N i s e :
  length (stops N) = length (starts N) ->
  getitem (starts N) i = Ok s -> getitem (stops N) i = Ok e ->
  exists c, counts itembytes N = Ok c /\ getitem c i = Ok (wrap itembytes (e - s)).
Proof.
  intros Hlen Hs He. unfold counts, subtract. rewrite Hlen, Nat.eqb_refl.
  eexists. split; [reflexivity |].
  apply getitem_ok in Hs, He. destruct Hs as [Hs1 Hs2]. destruct He as [He1 He2].
  rewrite Hlen in He1, He2.
  set (j := wrap_index (Z.of_nat (length (starts N))) i) in *.
  pose proof (nth_error_combine _ _ _ _ _ He2 Hs2) as Hc.
  unfold getitem.
  rewrite length_map, length_combine, Hlen, Nat.min_id. fold j.
  destruct ((j <? 0) || (Z.of_nat (length (starts N)) <=? j)) eqn:E.
  { apply orb_true_iff in E.
    destruct E as [E|E]; [apply Z.ltb_lt in E | apply Z.leb_le in E]; lia. }
  now rewrite nth_error_map, Hc.
Qed.

(** C3 (as amended): for a jagged array that passes
    [_check_startsstops] and an integer [i] in range, [N[i]] is the view
    [content[starts[i]:stops[i]]]; it has [stops[i] - starts[i]] items
    when [0 <= starts[i] <= stops[i] <= len(content)], and that number is
    [counts[i]] when the array has as many stops as starts and the
    number is an item of the index type.  For a slice or an
    integer array [s] for which [starts[s]] and [stops[s]] are defined
    (a slice of non-zero step always is), [N[s]] is a new jagged array
    with starts [starts[s]] and stops [stops[s]] over the same content. *)
Theorem getitem_rows N :
  _check_startsstops N = Ok tt ->
  wf (_starts N) = true -> wf (_stops N) = true ->
  (forall i (n : nat),
      - __len__ N <= i < __len__ N ->
      exists s e,
        getitem (starts N) i = Ok s /\ getitem (stops N) i = Ok e
        /\ __getitem__ getfield N (SelInt i) n = Ok (Scalar (getrange (_content N) s e), n)
        /\ (0 <= s <= e -> e <= Z.of_nat (length (_content N)) ->
            Z.of_nat (length (getrange (_content N) s e)) = e - s)
        /\ (length (stops N) = length (starts N) -> in_range itembytes (e - s) = true ->
            exists c, counts itembytes N = Ok c /\ getitem c i = Ok (e - s)))
  /\ (forall sel ss es (n : nat),
        match sel with SelSlice _ | SelArray _ => True | _ => False end ->
        index_items (starts N) sel = Ok (Array ss) ->
        index_items (stops N) sel = Ok (Array es) ->
        exists N' n',
          __getitem__ getfield N sel n = Ok (Array N', n')
          /\ starts N' = ss /\ stops N' = es
          /\ _content N' = _content N /\ _writeable N' = _writeable N)
  /\ (forall sl, sl_step sl <> Some 0 ->
        is_ok (index_items (starts N) (SelSlice sl)) = true
        /\ is_ok (index_items (stops N) (SelSlice sl)) = true).
Proof.
  intros Hcheck Hws Hwe.
  pose proof (check_lengths N Hcheck) as Hle.
  pose proof (wf_length _ Hws) as Ls. pose proof (wf_length _ Hwe) as Le.
  split; [| split].
  - intros i n Hi. unfold __len__ in Hi.
    destruct (getitem_in_range (starts N) i) as [s Hs]; [unfold starts; lia |].
    destruct (getitem_in_range (stops N) i) as [e He]; [unfold stops; lia |].
    exists s, e. split; [exact Hs |]. split; [exact He |]. split; [| split].
    + unfold __getitem__, mbind, lift, index. rewrite Hcheck.
      cbv beta iota delta [bind].
      fold (starts N). fold (stops N). rewrite Hs, He. reflexivity.
    + intros H1 H2. rewrite getrange_length by lia. lia.
    + intros Hlen Hr. destruct (counts_item N i s e Hlen Hs He) as [c [Hc Hg]].
      exists c. split; [exact Hc |]. now rewrite (wrap_in_range itembytes _ Hr) in Hg.
  - intros sel ss es n Hsel Hss Hes.
    destruct (index_array_items (_starts N) sel ss n Hws Hss) as [vs [n1 [Is Es]]].
    destruct (index_array_items (_stops N) sel es n1 Hwe Hes) as [ve [n2 [Ie Ee]]].
    exists (mk vs ve (_content N) (_writeable N)), n2.
    split; [| repeat split; assumption].
    destruct sel; try contradiction;
      unfold __getitem__, mbind, lift; rewrite Hcheck; cbv beta iota delta [bind];
      rewrite Is; cbv beta iota delta [bind]; rewrite Ie; reflexivity.
  - intros sl Hsl. simpl.
    pose proof (slice_defined (starts N) sl Hsl) as H1.
    pose proof (slice_defined (stops N) sl Hsl) as H2.
    destruct (getslice (starts N) sl); [| discriminate].
    destruct (getslice (stops N) sl); [| discriminate]. now split.
Qed.
End GetItem.

Lemma getitem_rows_witness :
  let N := mk (Owner (Buffer 0 [0; 2; 2])) (Owner (Buffer 1 [2; 2; 5]))
              ["a"; "b"; "c"; "d"; "e"] true in
  (_check_startsstops N = Ok tt /\ wf (_starts N) = true /\ wf (_stops N) = true)
  /\ exists s e,
       getitem (starts N) 2 = Ok s /\ getitem (stops N) 2 = Ok e
       /\ __getitem__ (fun _ _ => None) N (SelInt 2) 0%nat
          = Ok (Scalar (getrange (_content N) s e), 0%nat)
       /\ (0 <= s <= e -> e <= Z.of_nat (length (_content N)) ->
           Z.of_nat (length (getrange (_content N) s e)) = e - s)
       /\ (length (stops N) = length (starts N) -> in_range 8 (e - s) = true ->
           exists c, counts 8 N = Ok c /\ getitem c 2 = Ok (e - s)).
Proof.
  intros N. split; [repeat split |].
  apply (proj1 (getitem_rows 8 (fun _ _ => None) N eq_refl eq_refl eq_refl) 2 0%nat).
  unfold N, __len__. simpl. lia.
Defined.

(** C3, as stated, fails for a row with [starts[i] > stops[i]]: the array
    with [starts = [3]], [stops = [1]] over five items passes
    [_check_startsstops], [stops[0] <= len(content)], and [N[0]] is the
    empty view while [counts[0]] is [-2]. *)
Lemma getitem_reversed_row :
  let N := mk (Owner (Buffer 0 [3])) (Owner (Buffer 1 [1])) ["a"; "b"; "c"; "d"; "e"] true in
  _check_startsstops N = Ok tt
  /\ - __len__ N <= 0 < __len__ N
  /\ getitem (stops N) 0 = Ok 1
  /\ 1 <= Z.of_nat (length (_content N))
  /\ __getitem__ (fun _ _ => None) N (SelInt 0) 0%nat = Ok (Scalar [], 0%nat)
  /\ counts 8 N = Ok [-2]
  /\ Z.of_nat (length (@nil string)) <> -2.
Proof.
  intros N. repeat split; try reflexivity; try discriminate; unfold N, __len__; simpl; lia.
Qed.

(** ** Assignment to a read-only array *)
Section ReadOnly.
Variable itembytes : positive.
Context {A B T : Type}.
Variable getfield : list A -> string -> option (list A).
Variable asarray : JaggedArray A -> result (rhs A).
Variable dsize : positive.
Variable encode : T -> list B.
Variable getfield_bytes : list B -> string -> option (list B).
Variable asarray_bytes : JaggedArray T -> result (rhs T).

(** For an integer, a slice or an array the assignment to a read-only
    jagged array fails with the read-only error and writes nothing. *)
Lemma setitem_read_only_rows (N : JaggedArray A) sel what :
  _writeable N = false -> is_field_name sel = false ->
  __setitem__ itembytes getfield asarray N sel what = (Raise read_only_error, _content N).
Proof.
  intros Hw Hsel. unfold __setitem__. rewrite Hw.
  destruct sel; try reflexivity. discriminate.
Qed.

Lemma setitem_bytes_read_only_rows (N : Bytes.ByteJaggedArray B) sel what :
  Bytes._writeable B N = false -> is_field_name sel = false ->
  Bytes.__setitem__ itembytes B T dsize encode getfield_bytes asarray_bytes N sel what
  = (Raise read_only_error, Bytes._content B N).
Proof.
  intros Hw Hsel. unfold Bytes.__setitem__. rewrite Hw.
  destruct sel; try reflexivity. discriminate.
Qed.

(** C5: for a field name the assignment to a read-only jagged or
    byte-jagged array does not reach the test of the writeable flag: the
    statement that builds the projected array evaluates
    [self._content[where]] and then reads the unbound name [writeable], so
    the call ends in the error of the field access or in [NameError],
    never in the read-only error (nothing is written). *)
Theorem setitem_field_name_unbound :
  (forall (N : JaggedArray A) name what,
      _writeable N = false ->
      let r := __setitem__ itembytes getfield asarray N (SelString name) what in
      snd r = _content N
      /\ ~ fails_with (fst r) read_only
      /\ (forall c, getfield (_content N) name = Some c ->
                    fst r = Raise (NameError "writeable")))
  /\ (forall (N : Bytes.ByteJaggedArray B) name what,
        Bytes._writeable B N = false ->
        let r := Bytes.__setitem__ itembytes B T dsize encode getfield_bytes asarray_bytes N
                                   (SelString name) what in
        snd r = Bytes._content B N
        /\ ~ fails_with (fst r) read_only
        /\ (forall c, getfield_bytes (Bytes._content B N) name = Some c ->
                      fst r = Raise (NameError "writeable"))).
Proof.
  split.
  - intros N name what _ r. subst r. unfold __setitem__.
    destruct (getfield (_content N) name) as [c|]; simpl;
      (split; [reflexivity |]); (split; [| intros c' H; congruence]);
      intros [e [He Hk]]; inversion He; subst; discriminate.
  - intros N name what _ r. subst r. unfold Bytes.__setitem__.
    destruct (getfield_bytes (Bytes._content B N) name) as [c|]; simpl;
      (split; [reflexivity |]); (split; [| intros c' H; congruence]);
      intros [e [He Hk]]; inversion He; subst; discriminate.
Qed.
End ReadOnly.

Lemma setitem_field_name_unbound_witness :
  let getfield := fun (c : list Z) (name : string) =>
                    if String.eqb name "x" then Some c else None in
  let nofield := fun (_ : list Z) (_ : string) => @None (list Z) in
  let N := mk (Owner (Buffer 0 [0; 2])) (Owner (Buffer 1 [2; 3])) [10; 20; 30] false in
  let NB := Bytes.mk Z (Owner (Buffer 0 [0; 2])) (Owner (Buffer 1 [2; 3])) [10; 20; 30] false in
  let rb := Bytes.__setitem__ 8 Z Z 1 (fun x => [x]) nofield (fun _ => Ok (Item 0)) NB
                              (SelString "x") (Bytes.Seq Z [7]) in
  __setitem__ 8 getfield (fun _ => Ok (Item 0)) N (SelString "x") (Seq [7])
  = (Raise (NameError "writeable"), [10; 20; 30])
  /\ fst rb = Raise field_error
  /\ snd rb = [10; 20; 30]
  /\ ~ fails_with (fst rb) read_only.
Proof.
  intros getfield nofield N NB rb.
  pose proof (setitem_field_name_unbound 8 getfield (fun _ => Ok (Item 0)) 1 (fun x => [x])
                nofield (fun _ => Ok (Item 0))) as [H1 H2].
  split.
  - destruct (H1 N "x" (Seq [7]) eq_refl) as [Hs [_ Hf]].
    apply injective_projections; [apply (Hf [10; 20; 30]); reflexivity | exact Hs].
  - destruct (H2 NB "x" (Bytes.Seq Z [7]) eq_refl) as [Hs [Hr _]].
    split; [reflexivity | split; [exact Hs | exact Hr]].
Defined.

(** ** The loops of JaggedArray.__setitem__ *)
Section AssignLoops.
Variable itembytes : positive.
Context {A : Type}.
Implicit Types (content xs : list A) (ranges : list (Z * Z)) (p : nat).

Lemma apply_writes_spec (ws : list (nat * list A)) : forall content,
  (forall w, In w ws -> (fst w + length (snd w) <= length content)%nat) ->
  length (apply_writes ws content) = length content
  /\ forall p, nth_error (apply_writes ws content) p = written ws p (nth_error content p).
Proof.
  induction ws as [|[start ys] ws IH]; intros content Hfit; [split; reflexivity |].
  assert (Hw : (start + length ys <= length content)%nat)
    by (apply (Hfit (start, ys)); now left).
  destruct (IH (put content start ys)) as [Hlen Hnth].
  { intros w Hin. rewrite put_length by exact Hw. apply Hfit. now right. }
  simpl apply_writes. split; [rewrite Hlen; now apply put_length |].
  intros p. rewrite Hnth. simpl written. f_equal.
  destruct ((start <=? p)%nat && (p <? start + length ys)%nat) eqn:E.
  - apply andb_true_iff in E. destruct E as [E1 E2].
    apply Nat.leb_le in E1. apply Nat.ltb_lt in E2.
    apply put_nth_inside; lia.
  - apply put_nth_outside; [exact Hw |].
    apply andb_false_iff in E.
    destruct E as [E|E]; [apply Nat.leb_gt in E | apply Nat.ltb_ge in E]; lia.
Qed.

Lemma row_ok_bounds clen (r : Z * Z) :
  row_ok clen r = true -> 0 <= fst r <= snd r /\ snd r <= clen.
Proof.
  unfold row_ok. intros H.
  apply andb_true_iff in H. destruct H as [H H3].
  apply andb_true_iff in H. destruct H as [H1 H2].
  apply Z.leb_le in H1, H2, H3. lia.
Qed.

(** One write of the loops: a row inside the content receives as many
    items as it has. *)
Lemma setrange_row content s e ys :
  row_ok (Z.of_nat (length content)) (s, e) = true ->
  length ys = Z.to_nat (e - s) ->
  setrange content s e (Items ys) = Ok (put content (Z.to_nat s) ys)
  /\ length (put content (Z.to_nat s) ys) = length content.
Proof.
  intros Hok Hlen. apply row_ok_bounds in Hok. simpl in Hok.
  rewrite setrange_inside by lia. unfold broadcast_to.
  rewrite Hlen, Nat.eqb_refl. split; [reflexivity |].
  apply put_length. lia.
Qed.

Lemma fill_rows_cons (v : rhs A) s e ranges content :
  fill_rows v ((s, e) :: ranges) content
  = match setrange content s e v with
    | Raise ex => (Raise ex, content)
    | Ok content' => fill_rows v ranges content'
    end.
Proof. reflexivity. Qed.

Lemma distribute_rows_cons xs (this : Z) s e ranges content :
  distribute_rows itembytes xs this ((s, e) :: ranges) content
  = match setrange content s e
            (Items (getrange xs this
                      (wrap itembytes (this + wrap itembytes (e - s))))) with
    | Raise ex => (Raise ex, content)
    | Ok content' =>
        distribute_rows itembytes xs (wrap itembytes (this + wrap itembytes (e - s)))
                        ranges content'
    end.
Proof. reflexivity. Qed.

Lemma copy_rows_cons (what : JaggedArray A) shared (i : Z) n s e ranges content :
  copy_rows what shared i (S n) ((s, e) :: ranges) content
  = match row what (if shared then content else _content what) i with
    | Raise ex => (Raise ex, content)
    | Ok which =>
        match setrange content s e (Items which) with
        | Raise ex => (Raise ex, content)
        | Ok content' => copy_rows what shared (i + 1) n ranges content'
        end
    end.
Proof. reflexivity. Qed.

Lemma fill_rows_spec (x : A) ranges : forall content,
  forallb (row_ok (Z.of_nat (length content))) ranges = true ->
  fill_rows (Item x) ranges content = (Ok tt, apply_writes (fill_writes x ranges) content).
Proof.
  induction ranges as [|[s e] ranges IH]; intros content Hok; [reflexivity |].
  simpl in Hok. apply andb_true_iff in Hok. destruct Hok as [Hr Hrest].
  pose proof (row_ok_bounds _ _ Hr) as Hb. simpl in Hb.
  rewrite fill_rows_cons, setrange_inside by lia.
  cbv beta iota delta [bind broadcast_to].
  simpl fill_writes. simpl apply_writes.
  apply IH. rewrite put_length; [exact Hrest |].
  rewrite repeat_length. lia.
Qed.

Lemma total_cons s e ranges : total ((s, e) :: ranges) = (e - s) + total ranges.
Proof. reflexivity. Qed.

Lemma total_nonneg clen ranges :
  forallb (row_ok clen) ranges = true -> 0 <= total ranges.
Proof.
  induction ranges as [|[s e] ranges IH]; intros H; [simpl; lia |].
  simpl in H. apply andb_true_iff in H. destruct H as [Hr Hrest].
  apply row_ok_bounds in Hr. simpl in Hr. rewrite total_cons. specialize (IH Hrest). lia.
Qed.

Lemma wrap_small (v bound : Z) :
  in_range itembytes bound = true -> 0 <= v <= bound -> wrap itembytes v = v.
Proof.
  intros Hb Hv. apply wrap_in_range. unfold in_range in *.
  apply andb_true_iff in Hb. destruct Hb as [H1 H2].
  apply Z.leb_le in H1. apply Z.ltb_lt in H2.
  pose proof (half_pos itembytes).
  apply andb_true_iff. split; [apply Z.leb_le | apply Z.ltb_lt]; lia.
Qed.

Lemma distribute_rows_spec xs ranges : forall (this : nat) content,
  forallb (row_ok (Z.of_nat (length content))) ranges = true ->
  in_range itembytes (Z.of_nat (length xs)) = true ->
  Z.of_nat this + total ranges <= Z.of_nat (length xs) ->
  distribute_rows itembytes xs (Z.of_nat this) ranges content
  = (Ok tt, apply_writes (segment_writes xs this ranges) content).
Proof.
  induction ranges as [|[s e] ranges IH]; intros this content Hok Hxs Htot; [reflexivity |].
  simpl in Hok. apply andb_true_iff in Hok. destruct Hok as [Hr Hrest].
  pose proof (row_ok_bounds _ _ Hr) as Hb. simpl in Hb.
  pose proof (total_nonneg _ _ Hrest) as Hnn. rewrite total_cons in Htot.
  rewrite distribute_rows_cons.
  rewrite (wrap_small (e - s) (Z.of_nat (length xs))) by (auto; lia).
  rewrite (wrap_small (Z.of_nat this + (e - s)) (Z.of_nat (length xs))) by (auto; lia).
  rewrite getrange_inside by lia.
  replace (Z.of_nat this + (e - s) - Z.of_nat this) with (e - s) by lia.
  rewrite Nat2Z.id.
  destruct (setrange_row content s e (firstn (Z.to_nat (e - s)) (skipn this xs)) Hr)
    as [Hset Hlen].
  { rewrite length_firstn, length_skipn. lia. }
  rewrite Hset. simpl segment_writes. simpl apply_writes.
  replace (Z.of_nat this + (e - s)) with (Z.of_nat (this + Z.to_nat (e - s))) by lia.
  apply IH; [now rewrite Hlen | exact Hxs | lia].
Qed.

(** A sequence of one item, distributed, is broadcast. *)
Lemma segment_writes_single (x : A) ranges : forall (this : nat) clen,
  forallb (row_ok clen) ranges = true ->
  Z.of_nat this + total ranges <= 1 ->
  segment_writes [x] this ranges = fill_writes x ranges.
Proof.
  induction ranges as [|[s e] ranges IH]; intros this clen Hok Htot; [reflexivity |].
  simpl in Hok. apply andb_true_iff in Hok. destruct Hok as [Hr Hrest].
  pose proof (row_ok_bounds _ _ Hr) as Hb. simpl in Hb.
  pose proof (total_nonneg _ _ Hrest) as Hnn. rewrite total_cons in Htot.
  simpl segment_writes. simpl fill_writes.
  rewrite (IH _ clen Hrest) by lia. f_equal. f_equal.
  assert (Hc : e - s = 0 \/ (e - s = 1 /\ this = 0%nat)) by lia.
  destruct Hc as [-> | [-> ->]]; reflexivity.
Qed.

Lemma nth_error_tolist (what : JaggedArray A) k s e :
  nth_error (starts what) k = Some s -> nth_error (stops what) k = Some e ->
  nth_error (tolist what) k = Some (getrange (_content what) s e).
Proof.
  intros Hs He. unfold tolist. rewrite nth_error_map.
  now rewrite (nth_error_combine _ _ _ _ _ Hs He).
Qed.

(** Iteration yields the rows of [tolist]. *)
Lemma row_tolist (what : JaggedArray A) k r :
  _check_startsstops what = Ok tt ->
  nth_error (tolist what) k = Some r ->
  row what (_content what) (Z.of_nat k) = Ok r.
Proof.
  intros Hc Hr. unfold tolist in Hr. rewrite nth_error_map in Hr.
  destruct (nth_error (combine (starts what) (stops what)) k) as [[s e]|] eqn:E;
    [| discriminate].
  simpl in Hr. inversion Hr; subst.
  assert (Hk : (k < length (combine (starts what) (stops what)))%nat)
    by (apply nth_error_Some; congruence).
  rewrite length_combine in Hk.
  destruct (getitem_inside (starts what) (Z.of_nat k)) as [s' [Gs Hs]]; [lia |].
  destruct (getitem_inside (stops what) (Z.of_nat k)) as [e' [Ge He]]; [lia |].
  rewrite Nat2Z.id in Hs, He.
  rewrite (nth_error_combine _ _ _ _ _ Hs He) in E. inversion E; subst.
  unfold row. rewrite Hc, Gs, Ge. reflexivity.
Qed.

Lemma copy_rows_spec (what : JaggedArray A) ranges : forall (i n : nat) content,
  _check_startsstops what = Ok tt ->
  forallb (row_ok (Z.of_nat (length content))) ranges = true ->
  (length ranges <= n)%nat ->
  (forall k r, nth_error ranges k = Some r ->
               exists rw, nth_error (tolist what) (i + k) = Some rw
                          /\ length rw = Z.to_nat (snd r - fst r)) ->
  copy_rows what false (Z.of_nat i) n ranges content
  = (Ok tt, apply_writes (copy_writes ranges (skipn i (tolist what))) content).
Proof.
  induction ranges as [|[s e] ranges IH]; intros i n content Hc Hok Hn Hrows.
  - destruct n; reflexivity.
  - destruct n as [|n]; [simpl in Hn; lia |].
    simpl in Hok. apply andb_true_iff in Hok. destruct Hok as [Hr Hrest].
    destruct (Hrows 0%nat (s, e) eq_refl) as [rw [Hrw Hlen]].
    rewrite Nat.add_0_r in Hrw. simpl in Hlen.
    rewrite copy_rows_cons. cbv iota. rewrite (row_tolist what i rw Hc Hrw).
    destruct (setrange_row content s e rw Hr Hlen) as [Hset Hl].
    rewrite Hset.
    replace (Z.of_nat i + 1) with (Z.of_nat (S i)) by lia.
    rewrite (IH (S i) n).
    + rewrite (skipn_cons_nth _ _ _ Hrw). reflexivity.
    + exact Hc.
    + now rewrite Hl.
    + simpl in Hn. lia.
    + intros k r Hk. destruct (Hrows (S k) r Hk) as [rw' [H1 H2]].
      exists rw'. split; [| exact H2]. now replace (S i + k)%nat with (i + S k)%nat by lia.
Qed.

(** The sum the code computes is the sum of the counts, in the index
    type. *)
Lemma sum_counts (ss es : list Z) :
  Numpy.sum itembytes (map (fun '(x, y) => wrap itembytes (x - y)) (combine es ss))
  = wrap itembytes (total (combine ss es)).
Proof.
  unfold Numpy.sum.
  assert (G : forall acc,
             fold_left (fun a x => wrap itembytes (a + x))
               (map (fun '(x, y) => wrap itembytes (x - y)) (combine es ss))
               (wrap itembytes acc)
             = wrap itembytes (acc + total (combine ss es))).
  { revert es. induction ss as [|s ss IH]; intros [|e es] acc; simpl;
      try (f_equal; lia).
    rewrite wrap_add_l, wrap_add_r. rewrite IH. f_equal. lia. }
  specialize (G 0).
  rewrite (wrap_in_range itembytes 0) in G.
  - exact G.
  - unfold in_range. pose proof (half_pos itembytes).
    apply andb_true_iff. split; [apply Z.leb_le | apply Z.ltb_lt]; lia.
Qed.
End AssignLoops.

(** ** The rows a selector selects *)
Section SelectedRows.
Implicit Types (sts sps ss es : list Z).

Lemma nth_error_combine_inv {X Y : Type} (xs : list X) (ys : list Y) k x y :
  nth_error (combine xs ys) k = Some (x, y) ->
  nth_error xs k = Some x /\ nth_error ys k = Some y.
Proof.
  revert ys k. induction xs as [|x' xs IH]; intros [|y' ys] [|k] H;
    simpl in *; try discriminate.
  - inversion H. now split.
  - now apply IH.
Qed.

Lemma rows_from_rows clen sts sps ss es :
  (forall k s e, nth_error ss k = Some s -> nth_error es k = Some e ->
                 exists j, nth_error sts j = Some s /\ nth_error sps j = Some e) ->
  forallb (row_ok clen) (combine sts sps) = true ->
  forallb (row_ok clen) (combine ss es) = true.
Proof.
  intros Hsel Hok. rewrite forallb_forall in *. intros [s e] Hin.
  apply In_nth_error in Hin. destruct Hin as [k Hk].
  apply nth_error_combine_inv in Hk. destruct Hk as [Hs He].
  destruct (Hsel k s e Hs He) as [j [Hj1 Hj2]].
  apply Hok. eapply nth_error_In. apply nth_error_combine; eauto.
Qed.

Lemma take_rows sts sps idx : forall ss es,
  length sps = length sts ->
  take sts idx = Ok ss -> take sps idx = Ok es ->
  length ss = length es
  /\ forall k s e, nth_error ss k = Some s -> nth_error es k = Some e ->
                   exists j, nth_error sts j = Some s /\ nth_error sps j = Some e.
Proof.
  induction idx as [|i idx IH]; intros ss es Hlen Hs He; simpl in *.
  - inversion Hs; inversion He; subst. split; [reflexivity |].
    intros [|k] s e H; discriminate.
  - destruct (getitem sts i) as [s0|] eqn:Gs; [| discriminate].
    destruct (getitem sps i) as [e0|] eqn:Ge; [| discriminate].
    simpl in Hs, He.
    destruct (take sts idx) as [ss'|] eqn:Ts; [| discriminate].
    destruct (take sps idx) as [es'|] eqn:Te; [| discriminate].
    simpl in Hs, He. inversion Hs; inversion He; subst.
    destruct (IH ss' es' Hlen eq_refl eq_refl) as [IHl IHr].
    split; [simpl; congruence |].
    intros [|k] s e H1 H2; simpl in H1, H2.
    + inversion H1; inversion H2; subst.
      apply getitem_ok in Gs, Ge. rewrite Hlen in Ge.
      exists (Z.to_nat (wrap_index (Z.of_nat (length sts)) i)). now split.
    + now apply IHr with (k := k).
Qed.

Lemma compress_rows sts : forall sps mask,
  length (compress sts mask) = length (compress sps mask) \/ length sps <> length sts.
Proof.
  induction sts as [|s sts IH]; intros [|e sps] [|b mask]; simpl; auto.
  destruct (IH sps mask) as [H|H]; [| right; congruence].
  destruct b; simpl; left; congruence.
Qed.

Lemma compress_pairs sts : forall sps mask k s e,
  length sps = length sts ->
  nth_error (compress sts mask) k = Some s -> nth_error (compress sps mask) k = Some e ->
  exists j, nth_error sts j = Some s /\ nth_error sps j = Some e.
Proof.
  induction sts as [|s0 sts IH]; intros [|e0 sps] [|b mask] k s e Hlen Hs He;
    simpl in *; try discriminate; try (destruct k; discriminate).
  assert (Hl : length sps = length sts) by congruence.
  destruct b.
  - destruct k as [|k]; simpl in *.
    + inversion Hs; inversion He; subst. exists 0%nat. now split.
    + destruct (IH sps mask k s e Hl Hs He) as [j [H1 H2]]. exists (S j). now split.
  - destruct (IH sps mask k s e Hl Hs He) as [j [H1 H2]]. exists (S j). now split.
Qed.

Lemma slice_rows sts sps sl ss es :
  length sps = length sts ->
  getslice sts sl = Ok ss -> getslice sps sl = Ok es ->
  length ss = length es
  /\ forall k s e, nth_error ss k = Some s -> nth_error es k = Some e ->
                   exists j, nth_error sts j = Some s /\ nth_error sps j = Some e.
Proof.
  intros Hlen. unfold getslice. rewrite Hlen.
  destruct (slice_indices sl (Z.of_nat (length sts))) as [[[start stop] step]|] eqn:E;
    [| discriminate].
  cbv beta iota delta [bind]. intros Hs He. inversion Hs; inversion He; subst.
  set (n := slice_length start stop step).
  assert (Hb : forall k, (k < n)%nat ->
                 0 <= start + Z.of_nat k * step < Z.of_nat (length sts)).
  { intros k Hk. apply (slice_indices_bounds sl _ start stop step k); auto. lia. }
  destruct (strided_inside sts start step n Hb) as [Ls Ns].
  destruct (strided_inside sps start step n) as [Le Ne]; [now rewrite Hlen |].
  split; [congruence |].
  intros k s e H1 H2.
  assert (Hk : (k < n)%nat) by (rewrite <- Ls; apply nth_error_Some; congruence).
  rewrite Ns in H1 by exact Hk. rewrite Ne in H2 by exact Hk. eauto.
Qed.

(** With as many stops as starts, the rows a selector selects are rows
    of the array. *)
Lemma selected_rows clen sts sps sel ss es :
  length sps = length sts ->
  index_items sts sel = Ok (Array ss) -> index_items sps sel = Ok (Array es) ->
  forallb (row_ok clen) (combine sts sps) = true ->
  length ss = length es /\ forallb (row_ok clen) (combine ss es) = true.
Proof.
  intros Hlen Hs He Hok.
  assert (G : length ss = length es
              /\ forall k s e, nth_error ss k = Some s -> nth_error es k = Some e ->
                               exists j, nth_error sts j = Some s /\ nth_error sps j = Some e).
  { destruct sel as [i|sl|idx|mask|name]; simpl in Hs, He.
    - destruct (getitem sts i); discriminate.
    - destruct (getslice sts sl) as [l1|] eqn:E1; [| discriminate].
      destruct (getslice sps sl) as [l2|] eqn:E2; [| discriminate].
      inversion Hs; inversion He; subst. eapply slice_rows; eauto.
    - destruct (take sts idx) as [l1|] eqn:E1; [| discriminate].
      destruct (take sps idx) as [l2|] eqn:E2; [| discriminate].
      inversion Hs; inversion He; subst. eapply take_rows; eauto.
    - unfold getmask in Hs, He.
      destruct (Nat.eqb (length mask) (length sts)); [| discriminate].
      destruct (Nat.eqb (length mask) (length sps)); [| discriminate].
      inversion Hs; inversion He; subst. split.
      + destruct (compress_rows sts sps mask); [assumption | contradiction].
      + intros k s e. now apply compress_pairs.
    - discriminate. }
  destruct G as [G1 G2]. split; [exact G1 |].
  eapply rows_from_rows; eauto.
Qed.
End SelectedRows.

(** ** JaggedArray.__setitem__ on selected rows *)
Section SetItem.
Variable itembytes : positive.
Context {A : Type}.
Variable getfield : list A -> string -> option (list A).
Variable asarray : JaggedArray A -> result (rhs A).
Implicit Types (N what : JaggedArray A) (ss es : list Z).

Lemma setitem_assign_rows N sel ss es rhs_ :
  _writeable N = true -> _check_startsstops N = Ok tt ->
  selects_rows sel = true ->
  index_items (starts N) sel = Ok (Array ss) ->
  index_items (stops N) sel = Ok (Array es) ->
  __setitem__ itembytes getfield asarray N sel rhs_
  = assign_rows itembytes ss es rhs_ (_content N).
Proof.
  intros Hw Hc Hsel Hs He. unfold __setitem__.
  destruct sel; try discriminate; rewrite Hw, Hc, Hs, He; reflexivity.
Qed.

Lemma Forall2_nth_error {X Y : Type} (P : X -> Y -> Prop) xs ys :
  Forall2 P xs ys ->
  forall k x, nth_error xs k = Some x -> exists y, nth_error ys k = Some y /\ P x y.
Proof.
  induction 1 as [|x0 y0 xs ys H0 _ IH]; intros [|k] x Hk; simpl in *; try discriminate.
  - inversion Hk; subst. eauto.
  - now apply IH.
Qed.

Lemma kind_copy_jagged : kind_of copy_jagged_error = Some length_mismatch.
Proof. reflexivity. Qed.

Lemma kind_copy_sequence : kind_of copy_sequence_error = Some length_mismatch.
Proof. reflexivity. Qed.

(** C4 (as amended): for a writeable jagged array that satisfies the
    invariant of the data model (with as many stops as starts) and a
    selector that selects the rows [ranges]:
    - a jagged right-hand side with another number of rows fails with a
      length mismatch and the content is unchanged; one with the same
      number of rows, each as long as the row it is assigned to, that
      does not share the content buffer of the array, is copied row by
      row;
    - a sequence of length one is broadcast to every selected row;
    - a sequence as long as the sum of the selected counts (a sum that
      the index type holds) is distributed over the rows in order;
    - a sequence of any other length fails with a length mismatch and
      the content is unchanged.
    After a successful assignment every position of the content holds
    the item given by the last row that covers it. *)
Theorem setitem_rows N sel ss es :
  _writeable N = true -> _check_startsstops N = Ok tt ->
  invariant N = true -> length (stops N) = length (starts N) ->
  selects_rows sel = true ->
  index_items (starts N) sel = Ok (Array ss) ->
  index_items (stops N) sel = Ok (Array es) ->
  let ranges := combine ss es in
  let content := _content N in
  let assign := __setitem__ itembytes getfield asarray N sel in
  (forall what shared,
      __len__ what <> Z.of_nat (length ss) ->
      assign (Jag what shared) = (Raise copy_jagged_error, content)
      /\ fails_with (fst (assign (Jag what shared))) length_mismatch)
  /\ (forall what,
        _check_startsstops what = Ok tt ->
        __len__ what = Z.of_nat (length ss) ->
        Forall2 (fun r rw => length rw = Z.to_nat (snd r - fst r)) ranges (tolist what) ->
        exists content',
          assign (Jag what false) = (Ok tt, content')
          /\ length content' = length content
          /\ forall p, nth_error content' p
                       = written (copy_writes ranges (tolist what)) p (nth_error content p))
  /\ (forall x,
        exists content',
          assign (Seq [x]) = (Ok tt, content')
          /\ length content' = length content
          /\ forall p, nth_error content' p
                       = written (fill_writes x ranges) p (nth_error content p))
  /\ (forall xs,
        Z.of_nat (length xs) = total ranges ->
        in_range itembytes (total ranges) = true ->
        exists content',
          assign (Seq xs) = (Ok tt, content')
          /\ length content' = length content
          /\ forall p, nth_error content' p
                       = written (segment_writes xs 0 ranges) p (nth_error content p))
  /\ (forall xs,
        length xs <> 1%nat ->
        Z.of_nat (length xs) <> wrap itembytes (total ranges) ->
        assign (Seq xs) = (Raise copy_sequence_error, content)
        /\ fails_with (fst (assign (Seq xs))) length_mismatch)
  /\ (in_range itembytes (total ranges) = true ->
      wrap itembytes (total ranges) = total ranges).
Proof.
  intros Hw Hc Hinv Hlen Hsel Hs He ranges content assign.
  assert (Hassign : forall r, assign r = assign_rows itembytes ss es r content)
    by (intros r; now apply setitem_assign_rows).
  assert (Hrows : length ss = length es
                  /\ forallb (row_ok (Z.of_nat (length content))) ranges = true).
  { apply (selected_rows _ (starts N) (stops N) sel); auto.
    unfold invariant in Hinv. apply andb_true_iff in Hinv. apply Hinv. }
  destruct Hrows as [Hl Hok].
  assert (Hfit : forall (ws : list (nat * list A)),
             (forall w, In w ws -> exists r, In r ranges /\ fst w = Z.to_nat (fst r)
                                             /\ length (snd w) = Z.to_nat (snd r - fst r)) ->
             forall w, In w ws -> (fst w + length (snd w) <= length content)%nat).
  { intros ws Hws w Hin. destruct (Hws w Hin) as [r [Hr [H1 H2]]].
    rewrite forallb_forall in Hok. apply Hok in Hr. apply row_ok_bounds in Hr. lia. }
  assert (Hsub : subtract itembytes es ss
                 = Ok (map (fun '(x, y) => wrap itembytes (x - y)) (combine es ss)))
    by (unfold subtract; now rewrite Hl, Nat.eqb_refl).
  split; [| split; [| split; [| split; [| split]]]].
  - intros what shared Hne.
    assert (E : assign (Jag what shared) = (Raise copy_jagged_error, content)).
    { rewrite Hassign. unfold assign_rows.
      destruct (__len__ what =? Z.of_nat (length ss)) eqn:E;
        [apply Z.eqb_eq in E; contradiction | reflexivity]. }
    split; [exact E |]. rewrite E. exists copy_jagged_error. now split.
  - intros what Hcw Hn Hrw.
    exists (apply_writes (copy_writes ranges (tolist what)) content).
    split; [| apply apply_writes_spec].
    + rewrite Hassign. unfold assign_rows. rewrite Hn, Z.eqb_refl. simpl negb. cbv iota.
      rewrite Nat2Z.id.
      change 0 with (Z.of_nat 0).
      rewrite (copy_rows_spec what (combine ss es) 0 (length ss) content); auto.
      * rewrite length_combine. lia.
      * intros k r Hk. simpl. eapply Forall2_nth_error in Hrw; eauto.
    + apply Hfit. intros [st ys] Hin. unfold copy_writes in Hin.
      apply in_map_iff in Hin. destruct Hin as [[r rw] [Heq Hin]].
      inversion Heq; subst. exists r.
      apply In_nth_error in Hin. destruct Hin as [k Hk].
      apply nth_error_combine_inv in Hk. destruct Hk as [Hk1 Hk2].
      destruct (Forall2_nth_error _ _ _ Hrw k r Hk1) as [rw' [Hk3 Hk4]].
      split; [eapply nth_error_In; eauto |]. simpl. split; [reflexivity | congruence].
  - intros x. exists (apply_writes (fill_writes x ranges) content).
    split; [| apply apply_writes_spec].
    + rewrite Hassign. unfold assign_rows. now apply fill_rows_spec.
    + apply Hfit. intros [st ys] Hin. unfold fill_writes in Hin.
      apply in_map_iff in Hin. destruct Hin as [r [Heq Hin]].
      inversion Heq; subst. exists r. simpl. rewrite repeat_length. auto.
  - intros xs Hxs Hrange.
    assert (Hseg : forall rs (this : nat) w, In w (segment_writes xs this rs) ->
                     Z.of_nat this + total rs <= Z.of_nat (length xs) ->
                     forallb (row_ok (Z.of_nat (length content))) rs = true ->
                     exists r, In r rs /\ fst w = Z.to_nat (fst r)
                               /\ length (snd w) = Z.to_nat (snd r - fst r)).
    { induction rs as [|[s e] rs IH]; intros this w Hin Ht Hr; [contradiction |].
      simpl in Hr. apply andb_true_iff in Hr. destruct Hr as [Hr1 Hr2].
      pose proof (row_ok_bounds _ _ Hr1) as Hb. simpl in Hb.
      pose proof (total_nonneg _ _ Hr2). rewrite total_cons in Ht.
      simpl in Hin. destruct Hin as [<- | Hin].
      - exists (s, e). simpl. split; [now left |]. split; [reflexivity |].
        rewrite length_firstn, length_skipn. lia.
      - destruct (IH _ w Hin) as [r [H1 H2]]; [lia | exact Hr2 |].
        exists r. split; [now right | exact H2]. }
    destruct xs as [|x [|x' xs]].
    + exists (apply_writes (segment_writes [] 0 ranges) content).
      split; [| apply apply_writes_spec].
      * rewrite Hassign. unfold assign_rows. rewrite Hsub, sum_counts.
        rewrite wrap_in_range by exact Hrange. rewrite Hxs, Z.eqb_refl. simpl negb. cbv iota.
        change 0 with (Z.of_nat 0).
        apply distribute_rows_spec; auto; [now rewrite Hxs | lia].
      * apply Hfit. intros w Hin. apply (Hseg ranges 0%nat w Hin); [lia | exact Hok].
    + exists (apply_writes (fill_writes x ranges) content).
      split; [| rewrite (segment_writes_single x ranges 0 _ Hok) by (simpl in Hxs; lia);
                apply apply_writes_spec].
      * rewrite Hassign. unfold assign_rows. now apply fill_rows_spec.
      * apply Hfit. intros [st ys] Hin. unfold fill_writes in Hin.
        apply in_map_iff in Hin. destruct Hin as [r [Heq Hin]].
        inversion Heq; subst. exists r. simpl. rewrite repeat_length. auto.
    + exists (apply_writes (segment_writes (x :: x' :: xs) 0 ranges) content).
      split; [| apply apply_writes_spec].
      * rewrite Hassign. unfold assign_rows. rewrite Hsub, sum_counts.
        rewrite wrap_in_range by exact Hrange. rewrite Hxs, Z.eqb_refl. simpl negb. cbv iota.
        change 0 with (Z.of_nat 0).
        apply distribute_rows_spec; auto; [now rewrite Hxs | lia].
      * apply Hfit. intros w Hin. apply (Hseg ranges 0%nat w Hin); [lia | exact Hok].
  - intros xs H1 Hne.
    assert (E : assign (Seq xs) = (Raise copy_sequence_error, content)).
    { rewrite Hassign. unfold assign_rows. rewrite Hsub, sum_counts.
      destruct (Z.of_nat (length xs) =? wrap itembytes (total (combine ss es))) eqn:E;
        [apply Z.eqb_eq in E; contradiction |].
      destruct xs as [|x [|x' xs]]; try reflexivity. simpl in H1. congruence. }
    split; [exact E |]. rewrite E. exists copy_sequence_error. now split.
  - intros Hr. now apply wrap_in_range.
Qed.
End SetItem.

Lemma setitem_rows_witness :
  let N := mk (Owner (Buffer 0 [0; 2])) (Owner (Buffer 1 [2; 5])) [1; 2; 3; 4; 5] true in
  let assign := __setitem__ 8 (fun _ _ => None) (fun _ => Ok (Item 0)) N
                            (SelSlice (Slice None None None)) in
  (_writeable N = true /\ _check_startsstops N = Ok tt /\ invariant N = true
   /\ length (stops N) = length (starts N))
  /\ (exists content',
        assign (Seq [7]) = (Ok tt, content')
        /\ length content' = 5%nat
        /\ forall p, nth_error content' p
                     = written (fill_writes 7 [(0, 2); (2, 5)]) p (nth_error [1; 2; 3; 4; 5] p))
  /\ (length [7; 8; 9] <> 1%nat ->
      Z.of_nat (length [7; 8; 9]) <> wrap 8 (total [(0, 2); (2, 5)]) ->
      assign (Seq [7; 8; 9]) = (Raise copy_sequence_error, [1; 2; 3; 4; 5])
      /\ fails_with (fst (assign (Seq [7; 8; 9]))) length_mismatch).
Proof.
  intros N assign.
  pose proof (setitem_rows 8 (fun _ _ => None) (fun _ => Ok (Item 0)) N
                (SelSlice (Slice None None None)) [0; 2] [2; 5]
                eq_refl eq_refl eq_refl eq_refl eq_refl eq_refl eq_refl) as H.
  split; [repeat split |].
  destruct H as [_ [_ [H3 [_ [H5 _]]]]].
  split; [apply (H3 7) | apply (H5 [7; 8; 9])].
Defined.

(** C4, the counterexample: a jagged right-hand side with the right
    number of rows is not always copied row by row.
    - With rows of other lengths than the selected rows
      ([N = [[1, 2], [3, 4, 5]]] and [N[:] = [[71, 72], [73, 74]]]) the
      first row is written, the second write fails with numpy's
      broadcast error, which is no length mismatch of the method, and the
      content is left as [[71, 72, 3, 4, 5]].
    - With rows that are views of the content of [N] itself
      ([N = [[1, 2], [3, 4]]] and [N[:] = N[::-1]]) the second row is
      read after the first is written: the content becomes
      [[3, 4, 3, 4]], not [[3, 4, 1, 2]]. *)
Lemma setitem_jagged_rows_not_copied :
  let everything := SelSlice (Slice None None None) in
  let setitem := __setitem__ 8 (fun _ _ => None) (fun _ => Ok (Item 0)) in
  (let N := mk (Owner (Buffer 0 [0; 2])) (Owner (Buffer 1 [2; 5])) [1; 2; 3; 4; 5] true in
   let what := mk (Owner (Buffer 2 [0; 2])) (Owner (Buffer 3 [2; 4])) [71; 72; 73; 74] true in
   invariant N = true /\ invariant what = true
   /\ __len__ what = __len__ N
   /\ tolist what = [[71; 72]; [73; 74]]
   /\ setitem N everything (Jag what false) = (Raise broadcast_error, [71; 72; 3; 4; 5])
   /\ ~ fails_with (fst (setitem N everything (Jag what false))) length_mismatch)
  /\ (let X := Buffer 0 [0; 2] in
      let Y := Buffer 1 [2; 4] in
      let N := mk (Owner X) (Owner Y) [1; 2; 3; 4] true in
      let what := mk (View X 1 (-1) 2) (View Y 1 (-1) 2) [1; 2; 3; 4] true in
      invariant N = true
      /\ __getitem__ (fun _ _ => None) N (SelSlice (Slice None None (Some (-1)))) 2%nat
         = Ok (Array what, 2%nat)
      /\ tolist what = [[3; 4]; [1; 2]]
      /\ setitem N everything (Jag what true) = (Ok tt, [3; 4; 3; 4])).
Proof.
  intros everything setitem. split.
  - intros N what. repeat split.
    intros [e [He Hk]]. vm_compute in He. injection He as <-. discriminate.
  - intros X Y N what. repeat split.
Qed.

(** ** deserialize *)
Section Deserialize.
Import Persist.
Variable json_loads : string -> result json.

(** [unfill] returns every document as it is: a [dict] has none of the
    attributes [gen], [read], [ref], so no constructor is looked up (and
    no whitelist is involved). *)
Lemma unfill_identity source prefix schema : unfill source prefix schema = Ok schema.
Proof. destruct schema; reflexivity. Qed.

Lemma unfill_leaves_gen source prefix schema :
  has_gen schema = true -> unfill source prefix schema = Ok schema.
Proof. intros _. apply unfill_identity. Qed.

(** C1: [deserialize] fails for every source, prefix and whitelist, and
    not with the error of a forbidden constructor: its first statement
    reads the local variable [schema] before anything is assigned to it. *)
Theorem deserialize_unbound_schema (source : list (string * json)) (prefix : string)
    (whitelist : list (list string)) :
  deserialize json_loads source prefix whitelist = Raise (UnboundLocalError "schema")
  /\ ~ fails_with (deserialize json_loads source prefix whitelist) forbidden_constructor
  /\ deserialize json_loads source prefix whitelist
     = deserialize json_loads source prefix [].
Proof.
  assert (E : forall wl, deserialize json_loads source prefix wl
                         = Raise (UnboundLocalError "schema")) by reflexivity.
  split; [apply E |]. split; [| now rewrite !E].
  intros [e [He Hk]]. rewrite E in He. inversion He; subst. discriminate.
Qed.
End Deserialize.

(** ** toarrow *)
Section ToArrowFacts.
Import Arrow.
Variable obj : Type.
Variable isinstance : obj -> cls -> bool.
Variables index content dense compact offsets boolmask mask_of : obj -> obj.
Variables getitem broadcast_flatten mask_and : obj -> obj -> obj.
Variable length : obj -> Z.
Variable empty_default : Z -> obj.
Variable table_columns : obj -> list (string * obj).
Variable union_contents : obj -> list obj.
Variable union_mask : obj -> Z -> obj -> obj -> obj.
Variables tags_int8 index_int32 array : obj -> obj.
Variable infers_string : obj -> bool.

Local Abbreviation recurse :=
  (toarrow_recurse obj isinstance index content getitem dense compact broadcast_flatten
     offsets boolmask mask_and mask_of length empty_default table_columns union_contents
     union_mask tags_int8 index_int32 array).
Local Abbreviation toarrow_ :=
  (toarrow obj isinstance index content getitem dense compact broadcast_flatten
     offsets boolmask mask_and mask_of length empty_default table_columns union_contents
     union_mask tags_int8 index_int32 array).

(** The only string arrays that [recurse] returns are those that
    [pyarrow.array] makes of a numpy array of strings. *)
Lemma recurse_utf8_leaf depth : forall data mask r,
  recurse depth data mask = Ok r -> is_utf8 obj infers_string r = true ->
  exists leaf m, r = pyarrow_array obj leaf m
                 /\ isinstance leaf ndarray = true /\ infers_string leaf = true.
Proof.
  induction depth as [|depth IH]; intros data mask r H Hu; [discriminate |].
  simpl in H.
  destruct (isinstance data ndarray) eqn:En.
  { inversion H; subst. exists data, mask. auto. }
  repeat match type of H with
         | (if ?c then _ else _) = Ok _ => destruct c
         end;
    try discriminate;
    try (eapply IH; eassumption).
  all: match type of H with bind ?x _ = _ => destruct x end; [| discriminate].
  all: inversion H; subst; discriminate.
Qed.

(** The tests that a node passes by on its way to a later case. *)
Lemma not_instances (data : obj) (classes : list cls) (c : cls) :
  forallb (fun c => negb (isinstance data c)) classes = true ->
  In c classes -> isinstance data c = false.
Proof.
  intros H Hin. rewrite forallb_forall in H. apply H in Hin.
  now apply negb_true_iff in Hin.
Qed.

End ToArrowFacts.



(** ** schema2type and fromparquet *)
Section FromParquetFacts.
Import Arrow.
Variable type_ : Type.
Variable none : type_.
Variable of_leaf : leaf -> type_.
Variable OptionType : type_ -> type_.
Variable ArrayType : takes -> type_ -> type_.
Variables and_ or_ : type_ -> type_ -> type_.
Variable columns : type_ -> list string.
Variable field : type_ -> string -> type_.

Local Abbreviation schema2type_ := (schema2type type_ none of_leaf OptionType ArrayType and_ or_).
Local Abbreviation fromparquet_ :=
  (fromparquet type_ none of_leaf OptionType ArrayType and_ or_ columns field).
Local Abbreviation make_chunk_ := (make_chunk type_ ArrayType columns field).
Local Abbreviation row_group_loop_ := (row_group_loop type_ ArrayType columns field).

(** A field whose name occurs once in the schema is found by its name. *)
Lemma field_by_name_unique (s : schema) name t b :
  NoDup (names s) -> In (name, t, b) s -> field_by_name s name = Some (t, b).
Proof.
  unfold field_by_name, names.
  induction s as [|[[n0 t0] b0] s IH]; intros Hnd Hin; [contradiction |].
  simpl in Hnd. inversion Hnd as [|? ? Hnotin Hnd']; subst.
  simpl. destruct Hin as [Heq | Hin].
  - inversion Heq; subst. rewrite String.eqb_refl.
    assert (E : filter (fun f => String.eqb (fst (fst f)) name) s = []).
    { clear -Hnotin. induction s as [|f s IH]; [reflexivity |].
      simpl in *. destruct (String.eqb (fst (fst f)) name) eqn:E.
      - apply String.eqb_eq in E. exfalso. apply Hnotin. now left.
      - apply IH. intros H. apply Hnotin. now right. }
    now rewrite E.
  - destruct (String.eqb n0 name) eqn:E.
    + apply String.eqb_eq in E. subst. exfalso. apply Hnotin.
      apply in_map_iff. exists (name, t, b). now split.
    + now apply IH.
Qed.

(** [schema2type] succeeds on a schema whose names are distinct, and
    gives a type unless the schema is empty. *)
Lemma schema2type_defined (s : schema) :
  NoDup (names s) -> names s <> [] -> exists t, schema2type_ s = Ok (Some t).
Proof.
  intros Hnd Hne. unfold schema2type.
  assert (G : forall l out,
             (forall n, In n l -> exists t b, In (n, t, b) s) ->
             (l <> [] \/ out <> None) ->
             exists t,
               fold_left
                 (fun acc name =>
                    bind acc (fun out =>
                    match field_by_name s name with
                    | None => Raise (AttributeError "'NoneType' object has no attribute 'type'")
                    | Some (t, n) =>
                        Ok (match out with
                            | None => Some (ArrayType (Name name) (schema2type_recurse type_ none of_leaf OptionType ArrayType and_ or_ t n))
                            | Some o => Some (and_ o (ArrayType (Name name) (schema2type_recurse type_ none of_leaf OptionType ArrayType and_ or_ t n)))
                            end)
                    end)) l (Ok out) = Ok (Some t)).
  { induction l as [|n l IH]; intros out Hin Hsome.
    - destruct Hsome as [H|H]; [congruence |].
      destruct out as [t|]; [exists t; reflexivity | congruence].
    - destruct (Hin n (or_introl eq_refl)) as [t [b Hf]].
      simpl. rewrite (field_by_name_unique s n t b Hnd Hf).
      apply IH; [intros m Hm; apply Hin; now right |].
      right. destruct out; discriminate. }
  apply G; [| now left].
  intros n Hn. unfold names in Hn. apply in_map_iff in Hn.
  destruct Hn as [[[n' t] b] [Heq Hin]]. simpl in Heq. subst. eauto.
Qed.

Section Chunks.
Variable file : parquet.
Variable cache : option nat.
Variable persistvirtual : bool.
Variable filetype : type_.

Local Abbreviation column :=
  (Arrow.column type_ ArrayType field file cache persistvirtual filetype).

Lemma table_set_spec (contents : list (string * node type_)) n x :
  (forall m, In m (map fst (table_set type_ contents n x)) <-> m = n \/ In m (map fst contents))
  /\ (forall m v, In (m, v) (table_set type_ contents n x) ->
                  (m = n /\ v = x) \/ In (m, v) contents).
Proof.
  induction contents as [|[m0 y] contents [IH1 IH2]]; simpl.
  - split; [intros m; intuition congruence |].
    intros m v [H|[]]. inversion H. now left.
  - destruct (String.eqb m0 n) eqn:E.
    + apply String.eqb_eq in E. subst. simpl. split; [intros m; intuition congruence |].
      intros m v [H|H]; [inversion H; now left | right; now right].
    + simpl. split.
      * intros m. rewrite IH1. intuition congruence.
      * intros m v [H|H]; [right; now left |].
        destruct (IH2 m v H) as [H'|H']; [now left | right; now right].
Qed.

(** A chunk is a table with one column for each column of the file's
    type, each the virtual array of its row group and name. *)
Lemma make_chunk_spec (i numrows : Z) :
  exists contents,
    make_chunk_ file cache persistvirtual filetype i numrows = Table type_ contents
    /\ (forall n, In n (columns filetype) <-> In n (map fst contents))
    /\ (forall n v, In (n, v) contents -> v = column i numrows n).
Proof.
  unfold make_chunk. eexists. split; [reflexivity |].
  assert (G : forall cols contents,
             (forall n v, In (n, v) contents -> v = column i numrows n) ->
             let result := fold_left (fun c n => table_set type_ c n (column i numrows n))
                                     cols contents in
             (forall n, In n (map fst result) <-> In n cols \/ In n (map fst contents))
             /\ (forall n v, In (n, v) result -> v = column i numrows n)).
  { induction cols as [|c cols IH]; intros contents Hc; simpl.
    - split; [intros n; tauto | exact Hc].
    - destruct (table_set_spec contents c (column i numrows c)) as [T1 T2].
      destruct (IH (table_set type_ contents c (column i numrows c))) as [R1 R2].
      { intros n v Hin. destruct (T2 n v Hin) as [[-> ->]|H]; [reflexivity | now apply Hc]. }
      split; [| exact R2].
      intros n. rewrite R1, T1. split; intros H; intuition (subst; auto). }
  destruct (G (columns filetype) [] ltac:(intros n v [])) as [G1 G2].
  split; [| exact G2].
  intros n. unfold column in G1. rewrite G1. simpl. tauto.
Qed.

(** The loop appends one chunk, and its number of rows, for each row
    group that has rows. *)
Lemma row_group_loop_spec groups : forall i chunks counts,
  row_group_loop_ file cache persistvirtual filetype i groups chunks counts
  = (chunks ++ map (fun g => make_chunk_ file cache persistvirtual filetype (fst g) (snd g))
                   (with_rows (enumerate i groups)),
     counts ++ map snd (with_rows (enumerate i groups))).
Proof.
  induction groups as [|numrows groups IH]; intros i chunks counts; simpl.
  - now rewrite !app_nil_r.
  - destruct (0 <? numrows); rewrite IH; simpl; [| reflexivity].
    now rewrite <- !app_assoc.
Qed.
End Chunks.

(** C9 (as amended): for a file whose schema has at least one column
    and no repeated column name, [fromparquet] returns a chunked array
    with one chunk, and one count, for each row group that has rows, in
    order.  Each chunk is a table with one column for each column of the
    file's type, and each column [n] of the chunk of row group [i] is a
    virtual array keyed by [(i, n)] whose type is the array type of the
    number of rows of the row group over the type of the column [n]. *)
Theorem fromparquet_chunks (file : parquet) (cache : option nat) (persistvirtual : bool) :
  NoDup (names (arrow_schema file)) -> names (arrow_schema file) <> [] ->
  exists filetype,
    schema2type_ (arrow_schema file) = Ok (Some filetype)
    /\ let groups := with_rows (enumerate 0 (row_groups file)) in
       fromparquet_ file cache persistvirtual
       = Ok (ChunkedArray type_
               (map (fun g => make_chunk_ file cache persistvirtual filetype (fst g) (snd g))
                    groups)
               (map snd groups))
       /\ forall g, In g groups ->
            0 < snd g
            /\ exists contents,
                 make_chunk_ file cache persistvirtual filetype (fst g) (snd g)
                 = Table type_ contents
                 /\ (forall n, In n (columns filetype) <-> In n (map fst contents))
                 /\ (forall n v, In (n, v) contents ->
                       v = VirtualArray type_ file (fst g, n) cache
                             (ArrayType (Length (snd g)) (field filetype n))
                             persistvirtual).
Proof.
  intros Hnd Hne. destruct (schema2type_defined _ Hnd Hne) as [filetype Ht].
  exists filetype. split; [exact Ht |]. split.
  - unfold fromparquet. rewrite Ht. cbv beta iota delta [bind].
    now rewrite row_group_loop_spec.
  - intros g Hin. unfold with_rows in Hin. apply filter_In in Hin.
    destruct Hin as [_ Hpos]. apply Z.ltb_lt in Hpos. split; [exact Hpos |].
    apply make_chunk_spec.
Qed.
End FromParquetFacts.

Lemma fromparquet_chunks_witness :
  let ArrayType := fun (tk : Arrow.takes) (t : list string) =>
                     match tk with Arrow.Name n => [n] | _ => t end in
  let file := Arrow.Parquet [("x", Arrow.DataType "int64", false); ("y", Arrow.string_, true)]
                            [3; 0; 2] in
  (NoDup (Arrow.names (Arrow.arrow_schema file)) /\ Arrow.names (Arrow.arrow_schema file) <> [])
  /\ exists filetype,
       Arrow.schema2type (list string) [] (fun _ => []) (fun t => t) ArrayType
                         (@app string) (@app string) (Arrow.arrow_schema file)
       = Ok (Some filetype)
       /\ Arrow.fromparquet (list string) [] (fun _ => []) (fun t => t) ArrayType
                            (@app string) (@app string) (fun t => t) (fun _ n => [n])
                            file None false
          = Ok (Arrow.ChunkedArray (list string)
                  (map (fun g => Arrow.make_chunk (list string) ArrayType (fun t => t)
                                   (fun _ n => [n]) file None false filetype (fst g) (snd g))
                       (Arrow.with_rows (Arrow.enumerate 0 (Arrow.row_groups file))))
                  (map snd (Arrow.with_rows (Arrow.enumerate 0 (Arrow.row_groups file))))).
Proof.
  intros ArrayType file.
  assert (Hnd : NoDup (Arrow.names (Arrow.arrow_schema file))).
  { simpl. repeat constructor; simpl; intuition discriminate. }
  assert (Hne : Arrow.names (Arrow.arrow_schema file) <> []) by discriminate.
  split; [split; assumption |].
  destruct (fromparquet_chunks (list string) [] (fun _ => []) (fun t => t) ArrayType
              (@app string) (@app string) (fun t => t) (fun _ n => [n])
              file None false Hnd Hne) as [filetype [H1 [H2 _]]].
  exists filetype. split; assumption.
Defined.

(** C9, as stated, fails: the chunks of the chunked array are tables (of
    virtual arrays), not virtual arrays; and for a schema without columns
    [fromparquet] raises instead of returning a chunked array. *)
Lemma fromparquet_chunk_is_table :
  let ArrayType := fun (tk : Arrow.takes) (t : list string) =>
                     match tk with Arrow.Name n => [n] | _ => t end in
  let run := Arrow.fromparquet (list string) [] (fun _ => []) (fun t => t) ArrayType
                               (@app string) (@app string) (fun t => t) (fun _ n => [n]) in
  let chunk := Arrow.Table (list string)
                 [("x", Arrow.VirtualArray (list string)
                          (Arrow.Parquet [("x", Arrow.DataType "int64", false)] [3])
                          (0, "x") None ["x"] false)] in
  run (Arrow.Parquet [("x", Arrow.DataType "int64", false)] [3]) None false
  = Ok (Arrow.ChunkedArray (list string) [chunk] [3])
  /\ Arrow.is_virtual (list string) chunk = false
  /\ run (Arrow.Parquet [] [3]) None false
     = Raise (AttributeError "'NoneType' object has no attribute 'columns'").
Proof. repeat split. Qed.

(** ** dtype2json and json2dtype *)
Section DtypeRoundTrip.
Import Persist.
Variable scalar_size : string -> option Z.

(** Induction on dtypes, through the fields of a record type. *)
Lemma dtype_induction (P : dtype -> Prop) :
  (forall name, P (Simple name)) ->
  (forall b sh, P b -> P (Subarray b sh)) ->
  (forall fields n, Forall (fun f => P (field_type f)) fields -> P (Struct fields n)) ->
  forall d, P d.
Proof.
  intros HS HA HR.
  fix IH 1. intros [name|b sh|fields n].
  - apply HS.
  - apply HA, IH.
  - apply HR. induction fields as [|[[[nm dt] off] ti] fields IHf].
    + constructor.
    + constructor; [apply IH | exact IHf].
Qed.

Lemma map_recurse_ints sh : map recurse (map PInt sh) = map PInt sh.
Proof. induction sh as [|z sh IH]; simpl; [reflexivity | now rewrite IH]. Qed.

Lemma forallb_integral sh : forallb is_integral (map PInt sh) = true.
Proof. induction sh as [|z sh IH]; simpl; auto. Qed.

Lemma last_in {X : Type} (l : list X) : forall x d, In (last (x :: l) d) (x :: l).
Proof.
  induction l as [|y l IH]; intros x d; [now left |].
  right. change (last (x :: y :: l) d) with (last (y :: l) d). apply IH.
Qed.

Lemma as_tuple_ints sh : sh <> [] -> as_tuple (map PInt sh) = true.
Proof.
  intros H. destruct sh as [|z sh]; [congruence |].
  unfold as_tuple. simpl map.
  pose proof (last_in (map PInt sh) (PInt z) (PInt z)) as Hin.
  change (PInt z :: map PInt sh) with (map PInt (z :: sh)) in Hin at 2.
  apply in_map_iff in Hin. destruct Hin as [z' [Hz' _]].
  now rewrite <- Hz'.
Qed.

Lemma as_tuple_fields (l : list pyobj) :
  Forall (fun o => exists n j, o = PTuple [PStr n; j]) l -> as_tuple l = false.
Proof.
  intros H. destruct l as [|first l]; [reflexivity |].
  unfold as_tuple.
  pose proof (last_in l first first) as Hin.
  rewrite Forall_forall in H.
  destruct (H _ Hin) as [n [j Hl]]. rewrite Hl.
  destruct (H first (or_introl eq_refl)) as [n0 [j0 Hf]]. now rewrite Hf.
Qed.

Local Abbreviation valid := (valid scalar_size).
Local Abbreviation packed := (packed scalar_size).
Local Abbreviation numpy_dtype := (numpy_dtype scalar_size).
Local Abbreviation pack := (pack scalar_size).
Local Abbreviation total_size := (total_size scalar_size).
Local Abbreviation repack := (repack scalar_size).

Local Abbreviation field_json :=
  (fun f : string * dtype * Z * option string =>
     match f with (n, dt, _, _) => PTuple [PStr n; dtype2json dt] end).
Local Abbreviation repack_field :=
  (fun f : string * dtype * Z * option string =>
     match f with (n, dt, _, _) => (n, repack dt) end).

Lemma dtype2json_struct fields n :
  dtype2json (Struct fields n) = PList (map field_json fields).
Proof. reflexivity. Qed.

Lemma repack_struct fields n :
  repack (Struct fields n)
  = Struct (pack 0 (map repack_field fields)) (total_size (map repack_field fields)).
Proof. reflexivity. Qed.

(** What [valid] says of a subarray type and of the fields of a record
    type. *)
Lemma valid_subarray b sh :
  valid (Subarray b sh) = true ->
  valid b = true /\ sh <> [] /\ forallb (Z.leb 0) sh = true.
Proof.
  intros Hv. simpl in Hv. apply andb_true_iff in Hv. destruct Hv as [Hv Hdims].
  apply andb_true_iff in Hv. destruct Hv as [Hb Hsh].
  repeat split; try assumption. intros ->. discriminate.
Qed.

Lemma valid_field fields n f :
  valid (Struct fields n) = true -> In f fields ->
  valid (field_type f) = true /\ String.eqb (fst (fst (fst f))) "" = false.
Proof.
  intros Hv Hin. simpl in Hv. apply andb_true_iff in Hv. destruct Hv as [Hv _].
  rewrite forallb_forall in Hv. specialize (Hv _ Hin).
  destruct f as [[[nm dt] off] ti]. apply andb_true_iff in Hv. destruct Hv as [Hdt Hn].
  split; [exact Hdt |]. now apply negb_true_iff in Hn.
Qed.

(** On the description of a valid dtype [recurse] changes nothing: it
    keeps tuples as tuples and the list of fields as a list. *)
Lemma recurse_dtype2json d : valid d = true -> recurse (dtype2json d) = dtype2json d.
Proof.
  induction d as [name|b sh IH|fields n IH] using dtype_induction; intros Hv.
  - reflexivity.
  - destruct (valid_subarray b sh Hv) as (Hb & Hne & _).
    change (dtype2json (Subarray b sh))
      with (PTuple [dtype2json b; PTuple (map PInt sh)]).
    change (recurse (PTuple [dtype2json b; PTuple (map PInt sh)]))
      with (if as_tuple [dtype2json b; PTuple (map PInt sh)]
            then PTuple [recurse (dtype2json b); recurse (PTuple (map PInt sh))]
            else PList [recurse (dtype2json b); recurse (PTuple (map PInt sh))]).
    assert (E : as_tuple [dtype2json b; PTuple (map PInt sh)] = true).
    { unfold as_tuple. simpl last. simpl is_integral_seq. rewrite forallb_integral.
      now rewrite !orb_true_r. }
    rewrite E, (IH Hb).
    change (recurse (PTuple (map PInt sh)))
      with (if as_tuple (map PInt sh) then PTuple (map recurse (map PInt sh))
            else PList (map recurse (map PInt sh))).
    now rewrite (as_tuple_ints sh Hne), map_recurse_ints.
  - rewrite dtype2json_struct.
    change (recurse (PList (map field_json fields)))
      with (if as_tuple (map field_json fields)
            then PTuple (map recurse (map field_json fields))
            else PList (map recurse (map field_json fields))).
    rewrite as_tuple_fields.
    2:{ apply Forall_forall. intros o Ho. apply in_map_iff in Ho.
        destruct Ho as [[[[nm dt] off] ti] [Ho _]]. subst. simpl. eauto. }
    f_equal. rewrite map_map. apply map_ext_in. intros f Hin.
    destruct (valid_field fields n f Hv Hin) as [Hdt _].
    rewrite Forall_forall in IH. specialize (IH _ Hin Hdt).
    destruct f as [[[nm dt] off] ti]. cbn [field_type fst snd] in IH.
    change (recurse (PTuple [PStr nm; dtype2json dt]))
      with (if as_tuple [PStr nm; dtype2json dt]
            then PTuple [PStr nm; recurse (dtype2json dt)]
            else PList [PStr nm; recurse (dtype2json dt)]).
    assert (E : as_tuple [PStr nm; dtype2json dt] = true).
    { unfold as_tuple. simpl is_str. now rewrite orb_true_r. }
    now rewrite E, IH.
Qed.

Lemma ints_PInt sh : ints (map PInt sh) = Ok sh.
Proof. induction sh as [|z sh IH]; simpl; [reflexivity | now rewrite IH]. Qed.

Lemma numpy_dtype_pair b shape :
  numpy_dtype (PTuple [b; PTuple shape])
  = bind (numpy_dtype b) (fun b' =>
    bind (ints shape) (fun sh =>
    if forallb (Z.leb 0) sh then Ok (subarray b' sh) else Raise negative_dimension)).
Proof. reflexivity. Qed.

Local Abbreviation field_spec :=
  (fun (f : pyobj) (acc : result (list (string * dtype))) =>
     match f with
     | PTuple [PStr n; s] =>
         bind (numpy_dtype s) (fun d => bind acc (fun fs => Ok ((n, d) :: fs)))
     | _ => Raise not_understood
     end).

Lemma numpy_dtype_list fields :
  numpy_dtype (PList fields)
  = bind (fold_right field_spec (Ok []) fields)
         (fun fs => if distinct (map fst (autoname 0 fs))
                    then Ok (Struct (pack 0 (autoname 0 fs)) (total_size (autoname 0 fs)))
                    else Raise (ValueError "field already used as a name or title")).
Proof. reflexivity. Qed.

(** Fields that have names keep them. *)
Lemma autoname_named (fs : list (string * dtype)) : forall i,
  forallb (fun f => negb (String.eqb (fst f) "")) fs = true -> autoname i fs = fs.
Proof.
  induction fs as [|[n d] fs IH]; intros i H; [reflexivity |].
  simpl in H. apply andb_true_iff in H. destruct H as [Hn Hrest].
  apply negb_true_iff in Hn. simpl. rewrite Hn. now rewrite IH.
Qed.

Lemma untyped_pack fs : forall at_, untyped (pack at_ fs) = fs.
Proof.
  unfold untyped. induction fs as [|[n d] fs IH]; intros at_; simpl; [reflexivity |].
  now rewrite IH.
Qed.

Lemma titles_pack fs : forall at_, map field_title (pack at_ fs) = map (fun _ => None) fs.
Proof.
  induction fs as [|[n d] fs IH]; intros at_; simpl; [reflexivity | now rewrite IH].
Qed.

Lemma fields_eq (l1 : list (string * dtype * Z * option string)) : forall l2,
  untyped l1 = untyped l2 -> offsets_of l1 = offsets_of l2 ->
  map field_title l1 = map field_title l2 -> l1 = l2.
Proof.
  unfold untyped, offsets_of, field_offset, field_title.
  induction l1 as [|[[f1 o1] t1] l1 IH]; intros [|[[f2 o2] t2] l2] H1 H2 H3; simpl in *;
    try discriminate; [reflexivity |].
  inversion H1; inversion H2; inversion H3; subst. f_equal. now apply IH.
Qed.

Lemma list_eqb_eq (l1 : list Z) : forall l2, list_eqb l1 l2 = true -> l1 = l2.
Proof.
  unfold list_eqb.
  induction l1 as [|x l1 IH]; intros [|y l2] H; simpl in *; try discriminate;
    [reflexivity |].
  apply andb_true_iff in H. destruct H as [H1 H2].
  apply andb_true_iff in H2. destruct H2 as [H2 H3].
  apply Z.eqb_eq in H2. subst. f_equal. apply IH.
  apply andb_true_iff. now split.
Qed.

Lemma list_eqb_refl (l : list Z) : list_eqb l l = true.
Proof.
  unfold list_eqb. rewrite Nat.eqb_refl. cbn [andb].
  induction l as [|x l IH]; [reflexivity |]. simpl. now rewrite Z.eqb_refl, IH.
Qed.

(** [numpy.dtype] makes of the description of a valid dtype the dtype
    with the same names, field types and shapes, in the default layout
    and without titles. *)
Lemma numpy_dtype_repack d :
  valid d = true -> numpy_dtype (dtype2json d) = Ok (repack d).
Proof.
  induction d as [name|b sh IH|fields n IH] using dtype_induction; intros Hv.
  - simpl in *. destruct (scalar_size name); [reflexivity | discriminate].
  - destruct (valid_subarray b sh Hv) as (Hb & Hne & Hdims).
    change (dtype2json (Subarray b sh))
      with (PTuple [dtype2json b; PTuple (map PInt sh)]).
    rewrite numpy_dtype_pair, (IH Hb), ints_PInt. cbn [bind]. rewrite Hdims.
    change (repack (Subarray b sh)) with (Subarray (repack b) sh).
    destruct sh; [congruence | reflexivity].
  - rewrite dtype2json_struct, numpy_dtype_list, repack_struct.
    assert (E : fold_right field_spec (Ok []) (map field_json fields)
                = Ok (map repack_field fields)).
    { assert (Hf : forall f, In f fields -> valid (field_type f) = true)
        by (intros f Hin; apply (valid_field fields n f Hv Hin)).
      clear Hv. induction fields as [|[[[nm dt] off] ti] fields IHf]; [reflexivity |].
      inversion IH as [|? ? Hdt IHrest]; subst. cbn [field_type fst snd] in Hdt.
      simpl. rewrite (Hdt (Hf _ (or_introl eq_refl))). cbn [bind].
      rewrite (IHf IHrest) by (intros f Hin; apply Hf; now right). reflexivity. }
    rewrite E. cbn [bind].
    assert (Ed : map fst (map repack_field fields) = map (fun f => fst (fst (fst f))) fields).
    { rewrite map_map. apply map_ext. now intros [[[nm dt] off] ti]. }
    rewrite autoname_named.
    + rewrite Ed. simpl in Hv. apply andb_true_iff in Hv. destruct Hv as [_ Hd].
      now rewrite Hd.
    + apply forallb_forall. intros [nm dt] Hin. apply in_map_iff in Hin.
      destruct Hin as [f [Ef Hin]].
      destruct (valid_field fields n f Hv Hin) as [_ Hn].
      destruct f as [[[nm' dt'] off] ti]. injection Ef as <- <-.
      cbn [fst] in *. now rewrite Hn.
Qed.

(** A dtype in the default layout and without titles is its own
    repacking. *)
Lemma repack_fixed d : packed d = true -> untitled d = true -> repack d = d.
Proof.
  induction d as [name|b sh IH|fields n IH] using dtype_induction; intros Hp Hu.
  - reflexivity.
  - simpl in Hp, Hu. change (repack (Subarray b sh)) with (Subarray (repack b) sh).
    now rewrite IH.
  - rewrite repack_struct.
    simpl in Hp. apply andb_true_iff in Hp. destruct Hp as [Hp Hn].
    apply andb_true_iff in Hp. destruct Hp as [Hp Ho].
    simpl in Hu.
    assert (E : map repack_field fields = untyped fields).
    { unfold untyped. apply map_ext_in. intros f Hin.
      rewrite forallb_forall in Hp, Hu. specialize (Hp _ Hin). specialize (Hu _ Hin).
      rewrite Forall_forall in IH. specialize (IH _ Hin).
      destruct f as [[[nm dt] off] [ti|]]; [discriminate |].
      cbn [field_type fst snd] in *. now rewrite IH. }
    rewrite E. apply Z.eqb_eq in Hn. subst n. f_equal.
    symmetry. apply fields_eq.
    + now rewrite untyped_pack.
    + now apply list_eqb_eq.
    + rewrite titles_pack. unfold untyped. rewrite map_map.
      apply map_ext_in. intros f Hin.
      rewrite forallb_forall in Hu. specialize (Hu _ Hin).
      destruct f as [[[nm dt] off] [ti|]]; [discriminate | reflexivity].
Qed.

Lemma field_json_pack fs : forall at_,
  map field_json (pack at_ fs)
  = map (fun f : string * dtype => PTuple [PStr (fst f); dtype2json (snd f)]) fs.
Proof.
  induction fs as [|[n d] fs IH]; intros at_; simpl; [reflexivity | now rewrite IH].
Qed.

(** The repacked dtype has the description of the dtype. *)
Lemma dtype2json_repack d : dtype2json (repack d) = dtype2json d.
Proof.
  induction d as [name|b sh IH|fields n IH] using dtype_induction.
  - reflexivity.
  - change (dtype2json (repack (Subarray b sh)))
      with (PTuple [dtype2json (repack b); PTuple (map PInt sh)]).
    now rewrite IH.
  - rewrite repack_struct, !dtype2json_struct, field_json_pack, map_map.
    f_equal. apply map_ext_in. intros f Hin.
    rewrite Forall_forall in IH. specialize (IH _ Hin).
    destruct f as [[[nm dt] off] ti]. cbn [field_type fst snd] in *.
    now rewrite IH.
Qed.

Lemma packed_pack fs : forall at_,
  forallb (fun f : string * dtype * Z * option string =>
             match f with (_, dt, _, _) => packed dt end) (pack at_ fs)
  = forallb (fun f : string * dtype => packed (snd f)) fs.
Proof.
  induction fs as [|[n d] fs IH]; intros at_; simpl; [reflexivity | now rewrite IH].
Qed.

Lemma untitled_pack fs : forall at_,
  forallb (fun f : string * dtype * Z * option string =>
             match f with
             | (_, dt, _, None) => untitled dt
             | (_, _, _, Some _) => false
             end) (pack at_ fs)
  = forallb (fun f : string * dtype => untitled (snd f)) fs.
Proof.
  induction fs as [|[n d] fs IH]; intros at_; simpl; [reflexivity | now rewrite IH].
Qed.

Lemma packed_repack d : packed (repack d) = true.
Proof.
  induction d as [name|b sh IH|fields n IH] using dtype_induction.
  - reflexivity.
  - exact IH.
  - rewrite repack_struct.
    change (packed (Struct (pack 0 (map repack_field fields))
                           (total_size (map repack_field fields))))
      with (forallb (fun f : string * dtype * Z * option string =>
                       match f with (_, dt, _, _) => packed dt end)
                    (pack 0 (map repack_field fields))
            && list_eqb (offsets_of (pack 0 (map repack_field fields)))
                        (offsets_of (pack 0 (untyped (pack 0 (map repack_field fields)))))
            && (total_size (map repack_field fields)
                =? total_size (untyped (pack 0 (map repack_field fields))))).
    rewrite untyped_pack, list_eqb_refl, Z.eqb_refl, packed_pack, !andb_true_r.
    apply forallb_forall. intros [nm dt] Hin. apply in_map_iff in Hin.
    destruct Hin as [[[[nm' dt'] off] ti] [E Hin]]. injection E as <- <-.
    rewrite Forall_forall in IH. exact (IH _ Hin).
Qed.

Lemma untitled_repack d : untitled (repack d) = true.
Proof.
  induction d as [name|b sh IH|fields n IH] using dtype_induction.
  - reflexivity.
  - exact IH.
  - rewrite repack_struct. cbn [untitled]. rewrite untitled_pack.
    apply forallb_forall. intros [nm dt] Hin. apply in_map_iff in Hin.
    destruct Hin as [[[[nm' dt'] off] ti] [E Hin]]. injection E as <- <-.
    rewrite Forall_forall in IH. exact (IH _ Hin).
Qed.

(** C10 (as amended): [json2dtype(dtype2json(d)) == d] for every dtype
    (simple, subarray at any nesting, or record) whose record types, at
    any depth, have the default layout (fields one after the other, no
    padding) and no field titles. *)
Theorem json2dtype_dtype2json d :
  valid d = true -> packed d = true -> untitled d = true ->
  json2dtype scalar_size (dtype2json d) = Ok d.
Proof.
  intros Hv Hp Hu. unfold json2dtype.
  rewrite recurse_dtype2json by exact Hv.
  rewrite numpy_dtype_repack by exact Hv.
  now rewrite repack_fixed.
Qed.
End DtypeRoundTrip.

Lemma json2dtype_dtype2json_witness :
  let d := Persist.Subarray
             (Persist.Struct
                [("x", Persist.Simple "int32", 0, None);
                 ("y", Persist.Subarray (Persist.Subarray (Persist.Simple "float64") [2]) [3],
                  4, None)] 52)
             [4] in
  (Persist.valid Persist.numpy_scalar_size d = true
   /\ Persist.packed Persist.numpy_scalar_size d = true
   /\ Persist.untitled d = true)
  /\ Persist.json2dtype Persist.numpy_scalar_size (Persist.dtype2json d) = Ok d.
Proof.
  intros d. split; [repeat split |].
  apply (json2dtype_dtype2json Persist.numpy_scalar_size d); reflexivity.
Defined.

(** C10, as stated, fails for a record type with padding and for one with
    a field title.  The aligned record of an [int8] at offset 0 and an
    [int64] at offset 8, 16 bytes long, comes back as the 9-byte record
    with the [int64] at offset 1; the record of one [int32] field [a]
    with the title [first] comes back without the title. *)
Lemma json2dtype_aligned_record :
  let d := Persist.Struct [("a", Persist.Simple "int8", 0, None);
                           ("b", Persist.Simple "int64", 8, None)] 16 in
  let t := Persist.Struct [("a", Persist.Simple "int32", 0, Some "first")] 4 in
  (Persist.valid Persist.numpy_scalar_size d = true
   /\ Persist.dtype2json d
      = Persist.PList [Persist.PTuple [Persist.PStr "a"; Persist.PStr "int8"];
                       Persist.PTuple [Persist.PStr "b"; Persist.PStr "int64"]]
   /\ Persist.json2dtype Persist.numpy_scalar_size (Persist.dtype2json d)
      = Ok (Persist.Struct [("a", Persist.Simple "int8", 0, None);
                            ("b", Persist.Simple "int64", 1, None)] 9)
   /\ Persist.json2dtype Persist.numpy_scalar_size (Persist.dtype2json d) <> Ok d)
  /\ (Persist.valid Persist.numpy_scalar_size t = true
      /\ Persist.packed Persist.numpy_scalar_size t = true
      /\ Persist.dtype2json t
         = Persist.PList [Persist.PTuple [Persist.PStr "a"; Persist.PStr "int32"]]
      /\ Persist.json2dtype Persist.numpy_scalar_size (Persist.dtype2json t)
         = Ok (Persist.Struct [("a", Persist.Simple "int32", 0, None)] 4)
      /\ Persist.json2dtype Persist.numpy_scalar_size (Persist.dtype2json t) <> Ok t).
Proof. repeat split; discriminate. Qed.

(* ================================================================== *)
(** * Part III: further properties of the code *)
(* ================================================================== *)

(** ** fromiterable *)
Section FromIterableFacts.
Context {A R : Type}.
Variable cls : list Z -> list Z -> list A -> bool -> R.
Implicit Types (iterable : list (list A)) (content : list A).

Lemma running_lengths_length iterable : forall acc,
  length (running_lengths acc iterable) = length iterable.
Proof. induction iterable as [|x rest IH]; intros acc; simpl; [reflexivity | now rewrite IH]. Qed.

Lemma fromiterable_loop_value iterable : forall offsets acc content,
  fromiterable_loop iterable (offsets ++ [acc]) content
  = Ok ((offsets ++ [acc]) ++ running_lengths acc iterable, content ++ concat iterable).
Proof.
  induction iterable as [|x rest IH]; intros offsets acc content; simpl.
  - now rewrite !app_nil_r.
  - assert (Hlast : getitem (offsets ++ [acc]) (-1) = Ok acc).
    { rewrite (getitem_last (offsets ++ [acc]) 0) by (destruct offsets; discriminate).
      now rewrite last_last. }
    rewrite Hlast. cbv beta iota delta [bind].
    rewrite IH. now rewrite <- !app_assoc.
Qed.
Lemma rows_of_running_lengths iterable : forall acc content0,
  Z.of_nat (length content0) = acc ->
  let rows := combine (firstn (length iterable) (acc :: running_lengths acc iterable))
                      (running_lengths acc iterable) in
  let content := content0 ++ concat iterable in
  map (fun r => getrange content (fst r) (snd r)) rows = iterable
  /\ forallb (row_ok (Z.of_nat (length content))) rows = true
  /\ map (fun r => snd r - fst r) rows = map (fun x => Z.of_nat (length x)) iterable.
Proof.
  induction iterable as [|x rest IH]; intros acc content0 Hacc; cbv zeta.
  - repeat split.
  - cbn [running_lengths length firstn combine map forallb concat fst snd].
    specialize (IH (acc + Z.of_nat (length x)) (content0 ++ x)).
    rewrite length_app, Nat2Z.inj_add, Hacc in IH. specialize (IH eq_refl).
    cbv zeta in IH. rewrite <- app_assoc in IH.
    destruct IH as (IH1 & IH2 & IH3).
    rewrite IH1, IH2, IH3. subst acc.
    repeat split.
    + f_equal. rewrite getrange_inside by (try rewrite !length_app; lia).
      replace (Z.to_nat (Z.of_nat (length content0) + Z.of_nat (length x)
                         - Z.of_nat (length content0))) with (length x) by lia.
      rewrite Nat2Z.id, skipn_app, skipn_all, Nat.sub_diag. simpl.
      now rewrite firstn_app, firstn_all, Nat.sub_diag, firstn_O, app_nil_r.
    + rewrite andb_true_r. unfold row_ok. cbn [fst snd]. rewrite !length_app.
      apply andb_true_intro; split; [apply andb_true_intro; split |]; apply Z.leb_le; lia.
    + f_equal. lia.
Qed.

(** [fromiterable] cuts the concatenation of the items at the running sums
    of their lengths: the class receives as many starts and stops as there
    are items, every range lies inside the content, each range ends where
    the next begins, and the ranges give the items back, in order. *)
Theorem fromiterable_rows iterable (writeable : bool) :
  exists starts stops,
    fromiterable cls iterable writeable = Ok (cls starts stops (concat iterable) writeable)
    /\ length starts = length iterable
    /\ length stops = length iterable
    /\ map (fun r => getrange (concat iterable) (fst r) (snd r)) (combine starts stops)
       = iterable
    /\ forallb (row_ok (Z.of_nat (length (concat iterable)))) (combine starts stops) = true
    /\ map (fun r => snd r - fst r) (combine starts stops)
       = map (fun x => Z.of_nat (length x)) iterable
    /\ (forall i, (S i < length iterable)%nat -> nth_error stops i = nth_error starts (S i)).
Proof.
  exists (firstn (length iterable) (0 :: running_lengths 0 iterable)),
         (running_lengths 0 iterable).
  destruct (rows_of_running_lengths iterable 0 [] eq_refl) as (H1 & H2 & H3).
  cbn [app] in H1, H2.
  split; [| split; [| split; [| split; [| split; [| split]]]]]; try assumption.
  - unfold fromiterable.
    change [0] with ([] ++ [0]) at 1.
    rewrite (fromiterable_loop_value iterable [] 0 []). cbn [app bind].
    rewrite getslice_all_but_last, getslice_all_but_first. cbn [bind skipn length].
    rewrite running_lengths_length.
    now replace (S (length iterable) - 1)%nat with (length iterable) by lia.
  - rewrite length_firstn. cbn [length]. rewrite running_lengths_length. lia.
  - apply running_lengths_length.
  - intros i Hi. rewrite nth_error_firstn_lt by assumption. reflexivity.
Qed.
End FromIterableFacts.

(** ** compatible *)
Section Compatible.
Context {A : Type}.
Implicit Types (x y z : argument A) (l : list (argument A)).

Lemma forallb_permutation {X : Type} (f : X -> bool) (l l' : list X) :
  Permutation l l' -> forallb f l = forallb f l'.
Proof.
  intros HP. apply eq_true_iff_eq. rewrite !forallb_forall.
  split; intros H x Hx; apply H.
  - apply Permutation_in with (l := l'); [now apply Permutation_sym | assumption].
  - apply Permutation_in with (l := l); assumption.
Qed.

Lemma same_structure_spec x y :
  same_structure x y = true
  <-> exists N F, y = IsJagged N /\ x = IsJagged F
                  /\ starts N = starts F /\ stops N = stops F.
Proof.
  unfold same_structure. split.
  - destruct y as [N|]; [| discriminate]. destruct x as [F|]; [| discriminate].
    intros H. apply andb_prop in H as [H1 H2].
    apply array_equal_eq in H1, H2. exists N, F. auto.
  - intros (N & F & -> & -> & H1 & H2).
    apply andb_true_intro; split; apply array_equal_eq; assumption.
Qed.

(** Without an object of another class, the answer is true exactly when
    any two arguments have the same starts and the same stops. *)
Lemma compatible_pairwise l :
  forallb isinstance_jagged l = true ->
  exists b, compatible l = Ok b
            /\ (b = true <-> forall x y, In x l -> In y l -> same_structure x y = true).
Proof.
  intros Hall. unfold compatible. rewrite Hall. cbn [negb].
  destruct l as [|first rest]; eexists; (split; [reflexivity |]).
  - split; [intros _ x y [] | reflexivity].
  - rewrite forallb_forall. split.
    + intros H x y Hx Hy.
      assert (Hf : forall z, In z (first :: rest) -> same_structure first z = true).
      { intros z [<- | Hz]; [| now apply H].
        cbn [forallb] in Hall. apply andb_prop in Hall as [Hj _].
        destruct first as [F|]; [| discriminate].
        apply same_structure_spec. exists F, F. auto. }
      apply Hf, same_structure_spec in Hx, Hy.
      destruct Hx as (Nx & F & -> & HF & Hx1 & Hx2).
      destruct Hy as (Ny & F' & -> & HF' & Hy1 & Hy2).
      rewrite HF in HF'. injection HF' as <-.
      apply same_structure_spec. exists Ny, Nx. repeat split; congruence.
    + intros H z Hz. apply H; [now left | now right].
Qed.

(** [compatible] does not depend on the order of its arguments, although
    it compares each of them with the first one only: a permutation of the
    arguments gives the same answer, or the same type error when one of
    them is not a jagged array. *)
Theorem compatible_permutation l l' :
  Permutation l l' -> compatible l = compatible l'.
Proof.
  intros HP.
  destruct (forallb isinstance_jagged l) eqn:Hall.
  - assert (Hall' : forallb isinstance_jagged l' = true)
      by now rewrite <- (forallb_permutation _ l l' HP).
    destruct (compatible_pairwise l Hall) as (b & -> & Hb).
    destruct (compatible_pairwise l' Hall') as (b' & -> & Hb').
    f_equal. apply eq_true_iff_eq. rewrite Hb, Hb'.
    split; intros H x y Hx Hy; apply H;
      first [ now apply Permutation_in with (l := l')
            | apply Permutation_in with (l := l); [now apply Permutation_sym | assumption]
            | apply Permutation_in with (l := l'); [now apply Permutation_sym | assumption]
            | now apply Permutation_in with (l := l) ].
  - assert (Hall' : forallb isinstance_jagged l' = false)
      by now rewrite <- (forallb_permutation _ l l' HP).
    unfold compatible. now rewrite Hall, Hall'.
Qed.
End Compatible.

Lemma compatible_permutation_witness :
  let a := IsJagged (mk (Owner (Buffer 0 [0; 2])) (Owner (Buffer 1 [2; 3])) ["a"; "b"; "c"] true) in
  let b := IsJagged (mk (Owner (Buffer 2 [0; 2])) (Owner (Buffer 3 [2; 3])) ["x"; "y"; "z"] true) in
  let c := IsJagged (mk (Owner (Buffer 4 [0; 1])) (Owner (Buffer 5 [1; 3])) ["x"; "y"; "z"] true) in
  Permutation [a; b; c] [c; a; b]
  /\ compatible [a; b; c] = compatible [c; a; b].
Proof.
  intros a b c.
  assert (HP : Permutation [a; b; c] [c; a; b])
    by exact (Permutation_sym (Permutation_cons_append [a; b] c)).
  split; [exact HP | exact (compatible_permutation [a; b; c] [c; a; b] HP)].
Defined.

(** ** Rows of selections *)
Section GetItemCompose.
Context {A : Type}.
Variable getfield : list A -> string -> option (list A).
Implicit Types (N : JaggedArray A) (l : list Z).

Lemma getitem_nth {X : Type} (xs : list X) (i : Z) (x : X) :
  0 <= wrap_index (Z.of_nat (length xs)) i < Z.of_nat (length xs) ->
  nth_error xs (Z.to_nat (wrap_index (Z.of_nat (length xs)) i)) = Some x ->
  getitem xs i = Ok x.
Proof.
  intros Hb Hn. unfold getitem. cbv zeta.
  replace (wrap_index (Z.of_nat (length xs)) i <? 0) with false
    by (symmetry; apply Z.ltb_ge; lia).
  replace (Z.of_nat (length xs) <=? wrap_index (Z.of_nat (length xs)) i) with false
    by (symmetry; apply Z.leb_gt; lia).
  cbn [orb]. now rewrite Hn.
Qed.

Lemma take_nth {X : Type} (xs : list X) idx : forall ys,
  take xs idx = Ok ys ->
  length ys = length idx
  /\ forall k j, nth_error idx k = Some j ->
                 exists x, getitem xs j = Ok x /\ nth_error ys k = Some x.
Proof.
  induction idx as [|j0 idx IH]; intros ys H.
  - injection H as <-. split; [reflexivity | intros [|k] j Hk; discriminate].
  - cbn [take] in H. destruct (getitem xs j0) as [x0|] eqn:H0; [| discriminate].
    cbn [bind] in H. destruct (take xs idx) as [ys0|] eqn:H1; [| discriminate].
    cbn [bind] in H. injection H as <-.
    destruct (IH ys0 eq_refl) as [Hl Hn]. split; [simpl; now rewrite Hl |].
    intros [|k] j Hk.
    + injection Hk as <-. exists x0. split; [assumption | reflexivity].
    + apply Hn. exact Hk.
Qed.

Lemma take_getitem {X : Type} (xs : list X) idx ys (i j : Z) :
  take xs idx = Ok ys -> getitem idx i = Ok j -> getitem ys i = getitem xs j.
Proof.
  intros Ht Hi. destruct (take_nth xs idx ys Ht) as [Hl Hn].
  apply getitem_ok in Hi as [Hb Hk].
  destruct (Hn _ _ Hk) as (x & Hx & Hy). rewrite Hx.
  apply getitem_nth; rewrite Hl; assumption.
Qed.
Lemma getitem_array_inv N idx N' (n n' : nat) :
  __getitem__ getfield N (SelArray idx) n = Ok (Array N', n') ->
  exists ss es,
    _check_startsstops N = Ok tt
    /\ take (starts N) idx = Ok ss /\ take (stops N) idx = Ok es
    /\ N' = mk (Owner (Buffer n ss)) (Owner (Buffer (S n) es)) (_content N) (_writeable N).
Proof.
  unfold __getitem__, mbind, lift, index, new_array, ret, starts, stops.
  destruct (_check_startsstops N) as [[]|]; [| discriminate]. cbn [bind].
  destruct (take (items (_starts N)) idx) as [ss|]; [| discriminate]. cbn [bind].
  destruct (take (items (_stops N)) idx) as [es|]; [| discriminate]. cbn [bind].
  intros H. injection H as <- <-. exists ss, es. auto.
Qed.

(** Selecting rows with an integer array and then taking row [i] of the
    selection gives the same view of the content as taking row [idx[i]]
    of the array itself. *)
Theorem getitem_array_then_row N idx N' (n n' : nat) (i j : Z) :
  __getitem__ getfield N (SelArray idx) n = Ok (Array N', n') ->
  getitem idx i = Ok j ->
  forall m : nat,
    __getitem__ getfield N' (SelInt i) m = __getitem__ getfield N (SelInt j) m.
Proof.
  intros HN Hi m.
  apply getitem_array_inv in HN as (ss & es & Hc & Hs & He & ->).
  pose proof (take_getitem _ _ _ _ _ Hs Hi) as Es.
  pose proof (take_getitem _ _ _ _ _ He Hi) as Ee.
  destruct (take_nth _ _ _ Hs) as [Ls _]. destruct (take_nth _ _ _ He) as [Le _].
  unfold __getitem__, mbind, lift, index.
  rewrite Hc. unfold _check_startsstops. cbn [_starts _stops len cells items].
  replace (Z.of_nat (length es) <? Z.of_nat (length ss)) with false
    by (symmetry; apply Z.ltb_ge; lia).
  cbn [bind]. fold (starts N) (stops N). rewrite Es, Ee. reflexivity.
Qed.
Lemma len_view a (start step : Z) (n : nat) : len (view a start step n) = Z.of_nat n.
Proof. destruct a; reflexivity. Qed.

Lemma getitem_view_row a (start step : Z) (L k : nat) :
  wf a = true ->
  (forall j, (j < L)%nat -> 0 <= start + Z.of_nat j * step < len a) ->
  (k < L)%nat ->
  getitem (items (view a start step L)) (Z.of_nat k)
  = getitem (items a) (start + Z.of_nat k * step).
Proof.
  intros Hwf Hb Hk. rewrite items_view by assumption.
  pose proof (wf_length a Hwf) as Hlen.
  destruct (strided_inside (items a) start step L) as [HL Hn].
  { intros j Hj. rewrite Hlen. now apply Hb. }
  specialize (Hb k Hk). specialize (Hn k Hk).
  destruct (getitem_inside (items a) (start + Z.of_nat k * step)) as (x & Hx & Hx');
    [lia |].
  rewrite Hx. apply getitem_nth.
  - rewrite HL. unfold wrap_index.
    replace (Z.of_nat k <? 0) with false by (symmetry; apply Z.ltb_ge; lia). lia.
  - rewrite HL. unfold wrap_index.
    replace (Z.of_nat k <? 0) with false by (symmetry; apply Z.ltb_ge; lia).
    rewrite Nat2Z.id, Hn. exact Hx'.
Qed.

Lemma getitem_slice_inv N sl N' (n n' : nat) :
  __getitem__ getfield N (SelSlice sl) n = Ok (Array N', n') ->
  exists vs ve,
    _check_startsstops N = Ok tt
    /\ getslice_array (_starts N) sl = Ok vs /\ getslice_array (_stops N) sl = Ok ve
    /\ N' = mk vs ve (_content N) (_writeable N).
Proof.
  unfold __getitem__, mbind, lift, index, ret.
  destruct (_check_startsstops N) as [[]|]; [| discriminate]. cbn [bind].
  destruct (getslice_array (_starts N) sl) as [vs|]; [| discriminate]. cbn [bind].
  destruct (getslice_array (_stops N) sl) as [ve|]; [| discriminate]. cbn [bind].
  intros H. injection H as <- <-. exists vs, ve. auto.
Qed.

(** Selecting rows with a slice and then taking row [k] of the selection
    gives the same view of the content as taking the row of the array
    itself at the [k]-th position of the slice, [start + k * step]. *)
Theorem getitem_slice_then_row N sl N' (n n' : nat) (start stop step : Z) (k : nat) :
  wf (_starts N) = true -> wf (_stops N) = true ->
  len (_stops N) = len (_starts N) ->
  __getitem__ getfield N (SelSlice sl) n = Ok (Array N', n') ->
  slice_indices sl (__len__ N) = Ok (start, stop, step) ->
  (k < slice_length start stop step)%nat ->
  forall m : nat,
    __getitem__ getfield N' (SelInt (Z.of_nat k)) m
    = __getitem__ getfield N (SelInt (start + Z.of_nat k * step)) m.
Proof.
  intros Ws We Hlen HN Hsl Hk m.
  apply getitem_slice_inv in HN as (vs & ve & Hc & Hs & He & ->).
  unfold __len__ in Hsl. unfold getslice_array in Hs, He.
  rewrite Hlen in He. rewrite Hsl in Hs, He. cbn [bind] in Hs, He.
  destruct (slice_length start stop step) as [|q] eqn:Eq; [lia |].
  injection Hs as <-. injection He as <-.
  assert (Hb : forall j, (j < S q)%nat ->
                         0 <= start + Z.of_nat j * step < len (_starts N)).
  { intros j Hj. apply (slice_indices_bounds sl _ start stop step); try assumption.
    - destruct (_starts N); simpl; lia.
    - now rewrite Eq. }
  unfold __getitem__, mbind, lift, index.
  rewrite Hc. unfold _check_startsstops. cbn [_starts _stops].
  rewrite !len_view, Z.ltb_irrefl. cbn [bind].
  rewrite (getitem_view_row _ _ _ _ _ Ws Hb Hk).
  rewrite <- Hlen in Hb. rewrite (getitem_view_row _ _ _ _ _ We Hb Hk).
  reflexivity.
Qed.
End GetItemCompose.

Lemma getitem_array_then_row_witness :
  let N := mk (Owner (Buffer 0 [0; 2; 2])) (Owner (Buffer 1 [2; 2; 5]))
              ["a"; "b"; "c"; "d"; "e"] true in
  let N' := mk (Owner (Buffer 5 [2; 0])) (Owner (Buffer 6 [5; 2]))
               ["a"; "b"; "c"; "d"; "e"] true in
  __getitem__ (fun _ _ => None) N (SelArray [2; 0]) 5%nat = Ok (Array N', 7%nat)
  /\ getitem [2; 0] 0 = Ok 2
  /\ __getitem__ (fun _ _ => None) N' (SelInt 0) 0%nat
     = __getitem__ (fun _ _ => None) N (SelInt 2) 0%nat.
Proof.
  intros N N'.
  split; [reflexivity | split; [reflexivity |]].
  exact (getitem_array_then_row (fun _ _ => None) N [2; 0] N' 5 7 0 2 eq_refl eq_refl 0%nat).
Defined.

Lemma getitem_slice_then_row_witness :
  let X := Buffer 0 [0; 2; 2] in
  let Y := Buffer 1 [2; 2; 5] in
  let N := mk (Owner X) (Owner Y) ["a"; "b"; "c"; "d"; "e"] true in
  let N' := mk (View X 2 (-1) 3) (View Y 2 (-1) 3) ["a"; "b"; "c"; "d"; "e"] true in
  let reversed := Slice None None (Some (-1)) in
  (wf (_starts N) = true /\ wf (_stops N) = true /\ len (_stops N) = len (_starts N))
  /\ __getitem__ (fun _ _ => None) N (SelSlice reversed) 0%nat = Ok (Array N', 0%nat)
  /\ slice_indices reversed (__len__ N) = Ok (2, -1, -1)
  /\ (1 < slice_length 2 (-1) (-1))%nat
  /\ __getitem__ (fun _ _ => None) N' (SelInt 1) 0%nat
     = __getitem__ (fun _ _ => None) N (SelInt (2 + 1 * -1)) 0%nat.
Proof.
  intros X Y N N' reversed.
  assert (Hk : (1 < slice_length 2 (-1) (-1))%nat) by (vm_compute; lia).
  split; [repeat split | split; [reflexivity | split; [reflexivity | split; [exact Hk |]]]].
  exact (getitem_slice_then_row (fun _ _ => None) N reversed N' 0 0 2 (-1) (-1) 1
           eq_refl eq_refl eq_refl eq_refl eq_refl Hk 0%nat).
Defined.

(** ** Assignment to one row *)
Section SetItemRow.
Variable itembytes : positive.
Context {A : Type}.
Variable getfield : list A -> string -> option (list A).
Variable asarray : JaggedArray A -> result (rhs A).
Implicit Types (N : JaggedArray A) (content xs : list A).

Lemma getrange_put content (s e : Z) xs :
  0 <= s <= e -> e <= Z.of_nat (length content) ->
  length xs = Z.to_nat (e - s) ->
  getrange (put content (Z.to_nat s) xs) s e = xs.
Proof.
  intros Hs He Hl.
  assert (Hlen : length (put content (Z.to_nat s) xs) = length content)
    by (apply put_length; lia).
  rewrite getrange_inside by (try rewrite Hlen; lia).
  unfold put. rewrite skipn_app, length_firstn, Nat.min_l by lia.
  rewrite Nat.sub_diag. cbn [skipn].
  rewrite skipn_all2 by (rewrite length_firstn; lia). cbn [app].
  rewrite <- Hl. now rewrite firstn_app, firstn_all, Nat.sub_diag, firstn_O, app_nil_r.
Qed.

(** After [N[i] = xs], with as many items as row [i] has, [N[i]] is [xs];
    the content keeps its length and is unchanged outside the row. *)
Theorem setitem_then_getitem N (i s e : Z) xs :
  _writeable N = true ->
  _check_startsstops N = Ok tt ->
  getitem (starts N) i = Ok s -> getitem (stops N) i = Ok e ->
  0 <= s <= e -> e <= Z.of_nat (length (_content N)) ->
  Z.of_nat (length xs) = e - s ->
  exists content',
    __setitem__ itembytes getfield asarray N (SelInt i) (Seq xs) = (Ok tt, content')
    /\ length content' = length (_content N)
    /\ (forall n : nat,
          __getitem__ getfield (mk (_starts N) (_stops N) content' (_writeable N)) (SelInt i) n
          = Ok (Scalar xs, n))
    /\ (forall p, (p < Z.to_nat s \/ Z.to_nat e <= p)%nat ->
                  nth_error content' p = nth_error (_content N) p).
Proof.
  intros Hw Hc Hs He Hse Hlen Hxs.
  assert (Hl : length xs = Z.to_nat (e - s)) by lia.
  assert (Hrow : row_ok (Z.of_nat (length (_content N))) (s, e) = true).
  { unfold row_ok. cbn [fst snd].
    apply andb_true_intro; split; [apply andb_true_intro; split |]; apply Z.leb_le; lia. }
  destruct (setrange_row (_content N) s e xs Hrow Hl) as [Hset Hput].
  exists (put (_content N) (Z.to_nat s) xs).
  split; [| split; [exact Hput | split]].
  - unfold __setitem__. cbv zeta. rewrite Hw, Hc. cbn [negb index_items].
    rewrite Hs, He. cbn [bind as_rhs]. now rewrite Hset.
  - intros n. unfold __getitem__, mbind, lift, index.
    unfold _check_startsstops in *. cbn [_starts _stops _content].
    rewrite Hc. cbn [bind]. fold (starts N) (stops N). rewrite Hs, He.
    unfold lift, ret. cbn [bind]. now rewrite getrange_put.
  - intros p Hp. apply put_nth_outside; lia.
Qed.
End SetItemRow.

Lemma setitem_then_getitem_witness :
  let N := mk (Owner (Buffer 0 [0; 2])) (Owner (Buffer 1 [2; 5])) [10; 20; 30; 40; 50] true in
  exists content',
    __setitem__ 8 (fun _ _ => None) (fun _ => Ok (Item 0)) N (SelInt 1) (Seq [7; 8; 9])
    = (Ok tt, content')
    /\ length content' = length (_content N)
    /\ (forall n : nat,
          __getitem__ (fun _ _ => None)
                      (mk (_starts N) (_stops N) content' (_writeable N)) (SelInt 1) n
          = Ok (Scalar [7; 8; 9], n))
    /\ (forall p, (p < Z.to_nat 2 \/ Z.to_nat 5 <= p)%nat ->
                  nth_error content' p = nth_error (_content N) p).
Proof.
  intros N.
  apply (setitem_then_getitem 8 (fun _ _ => None) (fun _ => Ok (Item 0)) N 1 2 5 [7; 8; 9]);
    try reflexivity; simpl; lia.
Defined.

(** ** ByteJaggedArray: one row, written and read *)
Section BytesRow.
Variable itembytes : positive.
Context {B T : Type}.
Variable dsize : positive.
Variable encode : T -> list B.
Variable decode : list B -> T.
Variable getfield : list B -> string -> option (list B).
Variable asarray : JaggedArray T -> result (rhs T).
Hypothesis encode_size : forall x, length (encode x) = Pos.to_nat dsize.
Hypothesis decode_encode : forall x, decode (encode x) = x.
Implicit Types (N : Bytes.ByteJaggedArray B) (content : list B) (xs : list T).

Lemma length_flat_map_encode xs :
  length (flat_map encode xs) = (length xs * Pos.to_nat dsize)%nat.
Proof.
  induction xs as [|x xs IH]; [reflexivity |].
  cbn [flat_map length]. rewrite length_app, IH, encode_size. lia.
Qed.

Lemma chunks_flat_map xs :
  Bytes.chunks B dsize (length xs) (flat_map encode xs) = map encode xs.
Proof.
  induction xs as [|x xs IH]; [reflexivity |].
  cbn [flat_map length Bytes.chunks map].
  rewrite <- (encode_size x) at 1. rewrite firstn_app, firstn_all, Nat.sub_diag, firstn_O, app_nil_r.
  rewrite <- (encode_size x). rewrite skipn_app, skipn_all, Nat.sub_diag. cbn [skipn app].
  now rewrite IH.
Qed.

Lemma view_as_encode xs : Bytes.view_as B T dsize decode (flat_map encode xs) = Ok xs.
Proof.
  unfold Bytes.view_as. rewrite length_flat_map_encode.
  replace (Z.of_nat (length xs * Pos.to_nat dsize) mod Z.pos dsize =? 0) with true.
  - rewrite Nat.div_mul by lia. rewrite chunks_flat_map, map_map.
    f_equal. rewrite <- (map_id xs) at 2. apply map_ext. exact decode_encode.
  - symmetry. apply Z.eqb_eq. rewrite Nat2Z.inj_mul, positive_nat_Z. apply Z.mod_mul. lia.
Qed.

(** The write of a row that holds a whole number of items starts at the
    first byte of the row, whatever its alignment. *)
Lemma write_row content (s e : Z) xs :
  0 <= s -> e <= Z.of_nat (length content) ->
  e - s = Z.of_nat (length xs) * Z.pos dsize ->
  let '(startpos, stoppos, offset) := Bytes.positions dsize (s, e) in
  Bytes.write B T dsize encode content startpos stoppos offset (Items xs)
  = Ok (put content (Z.to_nat s) (flat_map encode xs)).
Proof.
  intros Hs He Hk. unfold Bytes.positions.
  set (d := Z.pos dsize) in *. set (k := Z.of_nat (length xs)) in *.
  assert (Hd : 0 < d) by (subst d; lia).
  assert (Hk0 : 0 <= k) by (subst k; lia).
  pose proof (Z.div_mod s d ltac:(lia)) as Hdm.
  pose proof (Z.mod_pos_bound s d Hd) as Hm.
  assert (Hq : 0 <= s / d) by (apply Z.div_pos; lia).
  assert (Hed : e / d = s / d + k).
  { replace e with (s + k * d) by lia. apply Z.div_add. lia. }
  unfold Bytes.write, Bytes.frombuffer. fold d. rewrite Hed.
  replace ((s mod d <? 0) || (Z.of_nat (length content) <? s mod d)) with false
    by (symmetry; apply orb_false_intro; apply Z.ltb_ge; nia).
  replace (s / d + k <? 0) with false by (symmetry; apply Z.ltb_ge; lia).
  replace (Z.of_nat (length content) - s mod d <? (s / d + k) * d) with false
    by (symmetry; apply Z.ltb_ge; nia).
  cbn [bind]. unfold clamp_bound.
  replace (s / d <? 0) with false by (symmetry; apply Z.ltb_ge; lia).
  replace (s / d + k <? 0) with false by (symmetry; apply Z.ltb_ge; lia).
  rewrite Z.min_l, Z.min_id by lia.
  rewrite slice_length_unit by lia.
  replace (Z.to_nat (s / d + k - s / d)) with (length xs) by (subst k; lia).
  unfold broadcast_to. rewrite Nat.eqb_refl. cbn [bind].
  do 2 f_equal. nia.
Qed.

(** For a row whose bytes hold a whole number of items of the element
    type, [N[i] = xs] with that many items writes their bytes over the row,
    changes no other byte, and [N[i]] then reads [xs] back. *)
Theorem bytes_setitem_then_getitem N (i s e : Z) xs :
  Bytes._writeable B N = true ->
  Bytes._check_startsstops B N = Ok tt ->
  getitem (Bytes.starts B N) i = Ok s -> getitem (Bytes.stops B N) i = Ok e ->
  0 <= s -> e <= Z.of_nat (length (Bytes._content B N)) ->
  e - s = Z.of_nat (length xs) * Z.pos dsize ->
  exists content',
    Bytes.__setitem__ itembytes B T dsize encode getfield asarray N (SelInt i) (Bytes.Seq T xs)
    = (Ok tt, content')
    /\ length content' = length (Bytes._content B N)
    /\ (forall n : nat,
          Bytes.__getitem__ B T dsize getfield decode
            (Bytes.mk B (Bytes._starts B N) (Bytes._stops B N) content' (Bytes._writeable B N))
            (SelInt i) n
          = Ok (Scalar xs, n))
    /\ (forall p, (p < Z.to_nat s \/ Z.to_nat e <= p)%nat ->
                  nth_error content' p = nth_error (Bytes._content B N) p).
Proof.
  intros Hw Hc Hs He Hs0 Hlen Hk.
  pose proof (length_flat_map_encode xs) as Hl.
  assert (Hl' : length (flat_map encode xs) = Z.to_nat (e - s)).
  { rewrite Hl, Hk, <- positive_nat_Z, <- Nat2Z.inj_mul. now rewrite Nat2Z.id. }
  assert (Hse : s <= e) by nia.
  exists (put (Bytes._content B N) (Z.to_nat s) (flat_map encode xs)).
  assert (Hput : length (put (Bytes._content B N) (Z.to_nat s) (flat_map encode xs))
                 = length (Bytes._content B N)) by (apply put_length; lia).
  split; [| split; [exact Hput | split]].
  - unfold Bytes.__setitem__. cbv zeta. rewrite Hw, Hc. cbn [negb index_items].
    fold (Bytes.starts B N) (Bytes.stops B N).
    rewrite Hs, He. cbn [bind Bytes.as_rhs].
    pose proof (write_row (Bytes._content B N) s e xs Hs0 Hlen Hk) as Hwr.
    destruct (Bytes.positions dsize (s, e)) as [[startpos stoppos] offset].
    now rewrite Hwr.
  - intros n. unfold Bytes.__getitem__, mbind, lift, index.
    unfold Bytes._check_startsstops in *. cbn [Bytes._starts Bytes._stops Bytes._content].
    rewrite Hc. cbn [bind]. fold (Bytes.starts B N) (Bytes.stops B N). rewrite Hs, He.
    unfold lift. cbn [bind]. rewrite getrange_put by (try assumption; lia).
    now rewrite view_as_encode.
  - intros p Hp. apply put_nth_outside; lia.
Qed.
End BytesRow.

Lemma bytes_setitem_then_getitem_witness :
  let encode := fun x : Z => [x mod 256; x / 256] in
  let decode := fun bytes : list Z =>
                  match bytes with [lo; hi] => lo + 256 * hi | _ => 0 end in
  let N := Bytes.mk Z (Owner (Buffer 0 [1])) (Owner (Buffer 1 [5])) [0; 0; 0; 0; 0; 0] true in
  (forall x, length (encode x) = Pos.to_nat 2)
  /\ (forall x, decode (encode x) = x)
  /\ exists content',
       Bytes.__setitem__ 8 Z Z 2 encode (fun _ _ => None) (fun _ => Ok (Item 0)) N
                         (SelInt 0) (Bytes.Seq Z [258; 772])
       = (Ok tt, content')
       /\ length content' = length (Bytes._content Z N)
       /\ (forall n : nat,
             Bytes.__getitem__ Z Z 2 (fun _ _ => None) decode
               (Bytes.mk Z (Bytes._starts Z N) (Bytes._stops Z N) content'
                         (Bytes._writeable Z N))
               (SelInt 0) n
             = Ok (Scalar [258; 772], n))
       /\ (forall p, (p < Z.to_nat 1 \/ Z.to_nat 5 <= p)%nat ->
                     nth_error content' p = nth_error (Bytes._content Z N) p).
Proof.
  intros encode decode N.
  assert (Hsize : forall x, length (encode x) = Pos.to_nat 2) by reflexivity.
  assert (Hdec : forall x, decode (encode x) = x).
  { intros x. unfold decode, encode. pose proof (Z.div_mod x 256). lia. }
  split; [exact Hsize | split; [exact Hdec |]].
  apply (bytes_setitem_then_getitem 8 2 encode decode (fun _ _ => None)
           (fun _ => Ok (Item 0)) Hsize Hdec N 0 1 5 [258; 772]);
    try reflexivity; simpl; lia.
Defined.

(** ** Assignment through a selector that selects no row *)
Section NoRows.
Variable itembytes : positive.
Context {A B T : Type}.
Variable getfield : list A -> string -> option (list A).
Variable asarray : JaggedArray A -> result (rhs A).
Variable dsize : positive.
Variable encode : T -> list B.
Variable getfield_bytes : list B -> string -> option (list B).
Variable asarray_bytes : JaggedArray T -> result (rhs T).

(** When the selector selects no row, [ByteJaggedArray.__setitem__] skips
    every test of the right-hand side: the assignment succeeds and writes
    nothing, whatever is assigned.  [JaggedArray.__setitem__] tests the
    right-hand side all the same: a sequence of two or more items is
    refused, a jagged array with rows is refused, and nothing is written. *)
Theorem setitem_no_rows :
  (forall (N : Bytes.ByteJaggedArray B) sel es what,
      Bytes._writeable B N = true ->
      Bytes._check_startsstops B N = Ok tt ->
      index_items (Bytes.starts B N) sel = Ok (Array []) ->
      index_items (Bytes.stops B N) sel = Ok (Array es) ->
      Bytes.__setitem__ itembytes B T dsize encode getfield_bytes asarray_bytes N sel what
      = (Ok tt, Bytes._content B N))
  /\ (forall (N : JaggedArray A) sel xs,
        _writeable N = true ->
        _check_startsstops N = Ok tt ->
        index_items (starts N) sel = Ok (Array []) ->
        index_items (stops N) sel = Ok (Array []) ->
        (2 <= length xs)%nat ->
        __setitem__ itembytes getfield asarray N sel (Seq xs)
        = (Raise copy_sequence_error, _content N))
  /\ (forall (N what : JaggedArray A) sel shared,
        _writeable N = true ->
        _check_startsstops N = Ok tt ->
        index_items (starts N) sel = Ok (Array []) ->
        index_items (stops N) sel = Ok (Array []) ->
        __len__ what <> 0 ->
        __setitem__ itembytes getfield asarray N sel (Jag what shared)
        = (Raise copy_jagged_error, _content N)).
Proof.
  split; [| split].
  - intros N sel es what Hw Hc Hs He.
    unfold Bytes.__setitem__. cbv zeta. rewrite Hw, Hc. cbn [negb].
    fold (Bytes.starts B N) (Bytes.stops B N).
    destruct sel; try (rewrite Hs, He; reflexivity). discriminate Hs.
  - intros N sel xs Hw Hc Hs He Hxs.
    unfold __setitem__. cbv zeta. rewrite Hw, Hc. cbn [negb].
    destruct sel; try (rewrite Hs, He); try discriminate Hs;
      destruct xs as [|x [|y xs]]; simpl in Hxs; try lia; reflexivity.
  - intros N what sel shared Hw Hc Hs He Hlen.
    unfold __setitem__. cbv zeta. rewrite Hw, Hc. cbn [negb].
    destruct sel; try (rewrite Hs, He); try discriminate Hs;
      unfold assign_rows; cbn [length];
      (replace (__len__ what =? Z.of_nat 0) with false
         by (symmetry; apply Z.eqb_neq; exact Hlen)); reflexivity.
Qed.
End NoRows.

Lemma setitem_no_rows_witness :
  let NB := Bytes.mk Z (Owner (Buffer 0 [0; 2])) (Owner (Buffer 1 [2; 4])) [1; 2; 3; 4] true in
  let N := mk (Owner (Buffer 0 [0; 2])) (Owner (Buffer 1 [2; 4])) [1; 2; 3; 4] true in
  let nothing := SelSlice (Slice (Some 0) (Some 0) None) in
  Bytes.__setitem__ 8 Z Z 2 (fun x => [x mod 256; x / 256]) (fun _ _ => None)
                    (fun _ => Ok (Item 0)) NB nothing (Bytes.Seq Z [7; 8; 9])
  = (Ok tt, [1; 2; 3; 4])
  /\ __setitem__ 8 (fun _ _ => None) (fun _ => Ok (Item 0)) N nothing (Seq [7; 8; 9])
     = (Raise copy_sequence_error, [1; 2; 3; 4])
  /\ __setitem__ 8 (fun _ _ => None) (fun _ => Ok (Item 0)) N nothing (Jag N false)
     = (Raise copy_jagged_error, [1; 2; 3; 4]).
Proof.
  intros NB N nothing.
  pose proof (@setitem_no_rows 8 Z Z Z (fun _ _ => None) (fun _ => Ok (Item 0)) 2
                (fun x => [x mod 256; x / 256]) (fun _ _ => None) (fun _ => Ok (Item 0)))
    as (HB & HS & HJ).
  split; [| split].
  - exact (HB NB nothing [] (Bytes.Seq Z [7; 8; 9]) eq_refl eq_refl eq_refl eq_refl).
  - apply (HS N nothing [7; 8; 9]); try reflexivity. simpl. lia.
  - apply (HJ N N nothing false); try reflexivity. discriminate.
Defined.

(** ** The offsets property *)
Section OffsetsFacts.
Variable itembytes : positive.
Context {A : Type}.
Implicit Types (N : JaggedArray A).

(** The two slices [fromoffsets] takes of an array of more than one item. *)
Lemma fromoffsets_slices (a : ndarray) (L : nat) (content : list A) (writeable : bool) :
  len a = Z.of_nat (S L) -> (0 < L)%nat ->
  fromoffsets a content writeable = Ok (mk (view a 0 1 L) (view a 1 1 L) content writeable).
Proof.
  intros H HL. unfold fromoffsets.
  assert (E1 : getslice_array a all_but_last = Ok (view a 0 1 L)).
  { unfold getslice_array, all_but_last. rewrite H, slice_all_but_last by lia.
    cbn [bind]. rewrite slice_length_unit by lia.
    replace (Z.to_nat (Z.max (Z.of_nat (S L) - 1) 0 - 0)) with L by lia.
    destruct L; [lia | reflexivity]. }
  assert (E2 : getslice_array a all_but_first = Ok (view a 1 1 L)).
  { unfold getslice_array, all_but_first. rewrite H, slice_all_but_first by lia.
    cbn [bind]. replace (Z.min 1 (Z.of_nat (S L))) with 1 by lia.
    rewrite slice_length_unit by lia.
    replace (Z.to_nat (Z.of_nat (S L) - 1)) with L by lia.
    destruct L; [lia | reflexivity]. }
  rewrite E1, E2. reflexivity.
Qed.

(** The items of the two slices. *)
Lemma fromoffsets_items (a : ndarray) (L : nat) (content : list A) (writeable : bool) N :
  wf a = true -> len a = Z.of_nat (S L) ->
  fromoffsets a content writeable = Ok N ->
  starts N = firstn L (items a) /\ stops N = skipn 1 (items a).
Proof.
  intros Hwf H. unfold fromoffsets.
  pose proof (wf_length a Hwf) as Hl. rewrite H in Hl.
  destruct (getslice_array_items a all_but_last _ Hwf (getslice_all_but_last (items a)))
    as (vs & Es & Hs).
  destruct (getslice_array_items a all_but_first _ Hwf (getslice_all_but_first (items a)))
    as (ve & Ee & He).
  rewrite Es, Ee. cbn [bind]. intros E. injection E as <-.
  unfold starts, stops, __init__. cbn [_starts _stops]. rewrite Hs, He.
  split; [f_equal; lia | reflexivity].
Qed.

(** A list of more than one item is its first items followed by the last
    of its tail, and the two overlap item by item. *)
Lemma prefix_and_last (l : list Z) (L : nat) :
  length l = S L -> (0 < L)%nat ->
  firstn L l ++ [last (skipn 1 l) 0] = l.
Proof.
  intros H HL. destruct l as [|x l]; [discriminate |].
  simpl in H. injection H as H. cbn [skipn].
  assert (Hne : l <> []) by (intros ->; simpl in H; lia).
  rewrite (app_removelast_last 0 Hne) at 3.
  rewrite removelast_firstn_len. rewrite H.
  destruct L as [|L']; [lia |]. reflexivity.
Qed.

Lemma prefix_adjacent (l : list Z) (L : nat) (i : nat) :
  length l = S L ->
  (S i < L)%nat -> nth_error (skipn 1 l) i = nth_error (firstn L l) (S i).
Proof.
  intros H Hi. rewrite nth_error_skipn, nth_error_firstn_lt by lia. reflexivity.
Qed.

(** After [fromoffsets(offsets, content)] with at least one row, the
    [offsets] property gives back an array with the items of [offsets]:
    the array [offsets] itself (the same object, no copy) when it owns its
    data; for a view, the base of the view when the view is all of its
    base in order, and a new array, a copy, for any other view. *)
Theorem offsets_fromoffsets (a : ndarray) (L : nat) (content : list A) (writeable : bool)
    (n : nat) :
  wf a = true -> len a = Z.of_nat (S L) -> (0 < L)%nat ->
  exists N r n',
    fromoffsets a content writeable = Ok N
    /\ __len__ N = Z.of_nat L
    /\ offsets itembytes N n = Ok (r, n')
    /\ items r = items a
    /\ match a with
       | Owner _ => r = a /\ n' = n
       | View b first step m =>
           if (first =? 0) && (step =? 1) && Nat.eqb m (length (cells b))
           then r = Owner b /\ n' = n
           else r = Owner (Buffer n (items a)) /\ n' = S n
       end.
Proof.
  intros Hwf H HL.
  pose proof (fromoffsets_slices a L content writeable H HL) as EN.
  destruct (fromoffsets_items a L content writeable _ Hwf H EN) as [Hs He].
  pose proof (wf_length a Hwf) as Hl. rewrite H in Hl. apply Nat2Z.inj in Hl.
  assert (Hpos : 0 < itemsize itembytes) by (unfold itemsize; lia).
  set (N := mk (view a 0 1 L) (view a 1 1 L) content writeable) in *.
  assert (Hcopy : _offsets_is_aliased itembytes N = false ->
                  offsets itembytes N n = Ok (Owner (Buffer n (items a)), S n)).
  { intros Hal.
    destruct (offsets_not_aliased itembytes N n Hal) as [Hadj _].
    - rewrite Hs. destruct (items a) as [|x l]; [discriminate |].
      destruct L; [lia | discriminate].
    - rewrite Hs, He, length_firstn, length_skipn. lia.
    - rewrite Hadj.
      + rewrite Hs, He, (prefix_and_last _ L Hl HL). reflexivity.
      + intros i Hi. rewrite Hs, He. apply prefix_adjacent; [exact Hl |].
        rewrite Hs, length_firstn in Hi. lia. }
  exists N. destruct a as [b|b f s m].
  - exists (Owner b), n. split; [exact EN |]. split; [apply len_view |].
    split; [| split; [reflexivity | split; reflexivity]].
    unfold offsets, _offsets_is_aliased, buffer_data, buffer_len.
    subst N. cbn [view base _starts _stops data len] in *.
    rewrite H, Nat.eqb_refl.
    replace (0 * itemsize itembytes =? 0) with true by (symmetry; apply Z.eqb_eq; lia).
    replace (1 * itemsize itembytes =? 0 + itemsize itembytes) with true
      by (symmetry; apply Z.eqb_eq; lia).
    replace (Z.of_nat L =? Z.of_nat (S L) - 1) with true by (symmetry; apply Z.eqb_eq; lia).
    reflexivity.
  - cbn [len] in H. apply Nat2Z.inj in H. subst m.
    assert (Hal : _offsets_is_aliased itembytes N
                  = (f =? 0) && (s =? 1) && Nat.eqb (S L) (length (cells b))).
    { unfold _offsets_is_aliased, buffer_data, buffer_len.
      subst N. cbn [view base _starts _stops data len].
      rewrite Nat.eqb_refl. cbn [andb].
      apply eq_true_iff_eq.
      rewrite !andb_true_iff, !Z.eqb_eq, Nat.eqb_eq.
      split.
      - intros [[[H1 H2] H3] _].
        assert (f = 0) by nia. subst f.
        assert (s = 1) by nia. repeat split; lia.
      - intros [[-> ->] H3]. repeat split; lia. }
    destruct ((f =? 0) && (s =? 1) && Nat.eqb (S L) (length (cells b))) eqn:Ew.
    + exists (Owner b), n. split; [exact EN |]. split; [apply len_view |].
      apply andb_true_iff in Ew as [Ew E3]. apply andb_true_iff in Ew as [E1 E2].
      apply Z.eqb_eq in E1, E2. apply Nat.eqb_eq in E3. subst f s.
      split; [| split; [| split; reflexivity]].
      * unfold offsets. rewrite Hal. reflexivity.
      * cbn [items]. rewrite E3. rewrite (strided_unit (cells b) 0) by lia.
        cbn [skipn]. symmetry. apply firstn_all.
    + exists (Owner (Buffer n (items (View b f s (S L))))), (S n).
      split; [exact EN |]. split; [apply len_view |].
      split; [apply Hcopy; exact Hal |]. split; [reflexivity | split; reflexivity].
Qed.

(** For a jagged array whose [starts] owns its data (it is not a view),
    with as many stops as starts: without rows the [offsets] property ends
    in [IndexError]; with rows it returns a new array, [starts] followed by
    the last stop, exactly when every row ends where the next begins, and
    raises the error of incompatible starts and stops otherwise. *)
Theorem offsets_owned N (n : nat) :
  base (_starts N) = None ->
  length (stops N) = length (starts N) ->
  (starts N = [] ->
   offsets itembytes N n = Raise (IndexError "index out of bounds"))
  /\ (starts N <> [] ->
      (forall i, (S i < length (starts N))%nat ->
                 nth_error (stops N) i = nth_error (starts N) (S i)) ->
      offsets itembytes N n = Ok (Owner (Buffer n (starts N ++ [last (stops N) 0])), S n))
  /\ (starts N <> [] ->
      ~ (forall i, (S i < length (starts N))%nat ->
                   nth_error (stops N) i = nth_error (starts N) (S i)) ->
      offsets itembytes N n = Raise offsets_error).
Proof.
  intros Hbase Hlen.
  assert (Hal : _offsets_is_aliased itembytes N = false)
    by (unfold _offsets_is_aliased; now rewrite Hbase).
  split; [| split].
  - intros Hs. rewrite Hs in Hlen. apply length_zero_iff_nil in Hlen.
    unfold offsets. rewrite Hal, Hs, Hlen. reflexivity.
  - intros Hne. apply (offsets_not_aliased itembytes N n Hal Hne Hlen).
  - intros Hne. apply (offsets_not_aliased itembytes N n Hal Hne Hlen).
Qed.
End OffsetsFacts.

Lemma offsets_fromoffsets_witness :
  let X := Buffer 0 [9; 9; 0; 2; 5; 9] in
  let a := View X 2 1 3 in
  exists N r n',
    fromoffsets a ["a"; "b"; "c"; "d"; "e"] true = Ok N
    /\ __len__ N = 2
    /\ offsets 8 N 1%nat = Ok (r, n')
    /\ items r = [0; 2; 5]
    /\ r = Owner (Buffer 1 [0; 2; 5]) /\ n' = 2%nat.
Proof.
  intros X a.
  exact (offsets_fromoffsets 8 a 2 ["a"; "b"; "c"; "d"; "e"] true 1
           eq_refl eq_refl (Nat.lt_0_succ 1)).
Defined.

Lemma offsets_owned_witness :
  let N := mk (Owner (Buffer 0 [0; 2; 2])) (Owner (Buffer 1 [2; 2; 5]))
              ["a"; "b"; "c"; "d"; "e"] true in
  offsets 8 N 2%nat = Ok (Owner (Buffer 2 [0; 2; 2; 5]), 3%nat).
Proof.
  intros N.
  destruct (offsets_owned 8 N 2 eq_refl eq_refl) as (_ & H & _).
  apply H; [discriminate |].
  intros [|[|i]] Hi; try reflexivity. simpl in Hi. lia.
Defined.

(** ** parents of an array made from offsets *)
Section ParentsFromOffsets.
Context {A : Type}.
Implicit Types (cs : list Z) (content : list A).

Lemma nondecreasing_le cs (Hcs : nondecreasing cs) : forall d i x y,
  nth_error cs i = Some x -> nth_error cs (i + d) = Some y -> x <= y.
Proof.
  induction d as [|d IH]; intros i x y Hx Hy.
  - rewrite Nat.add_0_r in Hy. assert (x = y) by congruence. lia.
  - destruct (nth_error cs (i + d)) as [z|] eqn:Hz.
    + specialize (IH i x z Hx Hz).
      replace (i + S d)%nat with (S (i + d)) in Hy by lia.
      specialize (Hcs (i + d)%nat z y Hz Hy). lia.
    + apply nth_error_None in Hz.
      assert (nth_error cs (i + S d) = None) by (apply nth_error_None; lia). congruence.
Qed.

Lemma locate cs (p : Z) : forall L x0 xL,
  nth_error cs 0 = Some x0 -> nth_error cs L = Some xL ->
  (L < length cs)%nat -> x0 <= p < xL ->
  exists k x y, (k < L)%nat /\ nth_error cs k = Some x /\ nth_error cs (S k) = Some y
                /\ x <= p < y.
Proof.
  induction L as [|L IH]; intros x0 xL H0 HL Hlen Hp.
  - assert (x0 = xL) by congruence. lia.
  - destruct (nth_error cs L) as [z|] eqn:Hz.
    + destruct (Z_lt_le_dec p z) as [Hlt | Hge].
      * destruct (IH x0 z H0 eq_refl ltac:(lia) ltac:(lia)) as (k & x & y & Hk & Hx & Hy & Hxy).
        exists k, x, y. repeat split; try assumption; lia.
      * exists L, z, xL. repeat split; try assumption; lia.
    + apply nth_error_None in Hz. lia.
Qed.

(** For a jagged array made by [fromoffsets] from offsets that start at 0,
    never decrease and end at the length of the content, [parents] gives
    every element of the content the index of the row that holds it: no
    element is left without a parent. *)
Theorem parents_fromoffsets (memory : nat -> Z) (b : buffer) (L : nat) content
    (writeable : bool) :
  length (cells b) = S L ->
  nth_error (cells b) 0 = Some 0 ->
  nth_error (cells b) L = Some (Z.of_nat (length content)) ->
  nondecreasing (cells b) ->
  exists N out,
    fromoffsets (Owner b) content writeable = Ok N
    /\ parents memory N = Ok out
    /\ length out = length content
    /\ forall p, (p < length content)%nat ->
         exists k x y,
           nth_error out p = Some (Z.of_nat k)
           /\ (k < L)%nat
           /\ nth_error (cells b) k = Some x /\ nth_error (cells b) (S k) = Some y
           /\ x <= Z.of_nat p < y.
Proof.
  intros Hlen H0 HL Hmono.
  set (tail := View b (Z.of_nat (Nat.min 1 L)) 1 L).
  exists (mk (View b 0 1 L) tail content writeable).
  assert (Hss : starts (mk (View b 0 1 L) tail content writeable)
                = firstn L (cells b)) by (apply items_prefix_view; lia).
  assert (Hes : stops (mk (View b 0 1 L) tail content writeable)
                = firstn L (skipn 1 (cells b))) by (apply items_tail_view; lia).
  assert (Hs : forall k, (k < L)%nat ->
                 nth_error (firstn L (cells b)) k = nth_error (cells b) k)
    by (intros k Hk; now apply nth_error_firstn_lt).
  assert (He : forall k, (k < L)%nat ->
                 nth_error (firstn L (skipn 1 (cells b))) k = nth_error (cells b) (S k)).
  { intros k Hk. rewrite nth_error_firstn_lt by assumption. now rewrite nth_error_skipn. }
  assert (Hls : length (firstn L (cells b)) = L) by (rewrite length_firstn; lia).
  assert (Hle : length (firstn L (skipn 1 (cells b))) = L)
    by (rewrite length_firstn, length_skipn; lia).
  destruct (parents_loop_spec (firstn L (cells b)) (firstn L (skipn 1 (cells b))) L 0
              (empty memory (length content)))
    as (out & Hout & Hlo & _ & Hcov).
  { lia. }
  { lia. }
  { intros k s e Hk1 Hk2.
    assert (Hk : (k < L)%nat) by (rewrite <- Hls; apply nth_error_Some; congruence).
    rewrite Hs in Hk1 by assumption. rewrite He in Hk2 by assumption.
    rewrite length_empty.
    pose proof (nondecreasing_le _ Hmono k 0%nat 0 s H0 Hk1).
    pose proof (Hmono k s e Hk1 Hk2).
    assert (HL' : nth_error (cells b) (S k + (L - S k)) = Some (Z.of_nat (length content)))
      by (replace (S k + (L - S k))%nat with L by lia; exact HL).
    pose proof (nondecreasing_le _ Hmono (L - S k)%nat (S k) e _ Hk2 HL'). lia. }
  exists out. split; [apply (fromoffsets_value b L content writeable Hlen) |].
  split; [| split].
  - unfold parents. rewrite Hss, Hes, Hls. exact Hout.
  - now rewrite Hlo, length_empty.
  - intros p Hp.
    destruct (locate (cells b) (Z.of_nat p) L 0 (Z.of_nat (length content)) H0 HL)
      as (k & x & y & Hk & Hx & Hy & Hxy); [lia | lia |].
    exists k, x, y. repeat split; try assumption; try lia.
    apply Hcov; [lia | |].
    + unfold covers. rewrite Hs, He, Hx, Hy by assumption.
      apply andb_true_intro; split; [apply Z.leb_le | apply Z.ltb_lt]; lia.
    + intros j Hj. unfold covers.
      destruct (nth_error (firstn L (cells b)) j) as [s|] eqn:Hsj; [| reflexivity].
      destruct (nth_error (firstn L (skipn 1 (cells b))) j) as [e|]; [| reflexivity].
      assert (HjL : (j < L)%nat) by (rewrite <- Hls; apply nth_error_Some; congruence).
      rewrite Hs in Hsj by assumption.
      assert (Hj' : nth_error (cells b) (S k + (j - S k)) = Some s)
        by (replace (S k + (j - S k))%nat with j by lia; exact Hsj).
      pose proof (nondecreasing_le _ Hmono (j - S k)%nat (S k) y s Hy Hj').
      apply andb_false_intro1. apply Z.leb_gt. lia.
Qed.
End ParentsFromOffsets.

Lemma parents_fromoffsets_witness :
  let b := Buffer 0 [0; 2; 2; 5] in
  let content := ["a"; "b"; "c"; "d"; "e"] in
  nondecreasing (cells b)
  /\ exists N out,
       fromoffsets (Owner b) content true = Ok N
       /\ parents (fun _ => 7) N = Ok out
       /\ length out = length content
       /\ forall p, (p < length content)%nat ->
            exists k x y,
              nth_error out p = Some (Z.of_nat k)
              /\ (k < 3)%nat
              /\ nth_error (cells b) k = Some x /\ nth_error (cells b) (S k) = Some y
              /\ x <= Z.of_nat p < y.
Proof.
  intros b content.
  assert (Hmono : nondecreasing (cells b)).
  { intros [|[|[|[|i]]]] x y Hx Hy; simpl in Hx, Hy;
      try discriminate; try (injection Hx as <-; injection Hy as <-; lia). }
  split; [exact Hmono |].
  exact (parents_fromoffsets (fun _ => 7) b 3 content true eq_refl eq_refl eq_refl Hmono).
Defined.

(** ** Descriptions of dtypes that went through JSON *)
Section JsonForm.
Import Persist.
Variable scalar_size : string -> option Z.

(** Induction on descriptions, through the items of tuples and lists. *)
Lemma pyobj_induction (P : pyobj -> Prop) :
  (forall s, P (PStr s)) ->
  (forall z, P (PInt z)) ->
  (forall l, Forall P l -> P (PTuple l)) ->
  (forall l, Forall P l -> P (PList l)) ->
  forall o, P o.
Proof.
  intros HS HI HT HL.
  fix IH 1. intros [s|z|l|l].
  - apply HS.
  - apply HI.
  - apply HT. induction l as [|o l IHl]; constructor; [apply IH | exact IHl].
  - apply HL. induction l as [|o l IHl]; constructor; [apply IH | exact IHl].
Qed.

Lemma last_map {X Y : Type} (f : X -> Y) (l : list X) (d : X) :
  last (map f l) (f d) = f (last l d).
Proof.
  induction l as [|x l IH]; [reflexivity |].
  destruct l as [|y l]; [reflexivity |]. exact IH.
Qed.

Lemma is_integral_seq_json_form o : is_integral_seq (json_form o) = is_integral_seq o.
Proof.
  assert (H : forall l, forallb is_integral (map json_form l) = forallb is_integral l).
  { induction l as [|x l IH]; [reflexivity |]. simpl. rewrite IH. now destruct x. }
  destruct o; simpl; try reflexivity; apply H.
Qed.

Lemma as_tuple_json_form l : as_tuple (map json_form l) = as_tuple l.
Proof.
  destruct l as [|first l]; [reflexivity |].
  change (as_tuple (map json_form (first :: l)))
    with (is_integral (last (map json_form (first :: l)) (json_form first))
          || is_str (json_form first)
          || is_integral_seq (last (map json_form (first :: l)) (json_form first))).
  change (as_tuple (first :: l))
    with (is_integral (last (first :: l) first) || is_str first
          || is_integral_seq (last (first :: l) first)).
  rewrite last_map, is_integral_seq_json_form.
  assert (Hi : forall x, is_integral (json_form x) = is_integral x) by now intros [].
  assert (Hs : forall x, is_str (json_form x) = is_str x) by now intros [].
  now rewrite Hi, Hs.
Qed.

Lemma recurse_json_form o : recurse (json_form o) = recurse o.
Proof.
  induction o as [s|z|l IH|l IH] using pyobj_induction; try reflexivity.
  - change (recurse (json_form (PTuple l)))
      with (if as_tuple (map json_form l) then PTuple (map recurse (map json_form l))
            else PList (map recurse (map json_form l))).
    change (recurse (PTuple l))
      with (if as_tuple l then PTuple (map recurse l) else PList (map recurse l)).
    rewrite as_tuple_json_form, map_map.
    assert (E : map (fun x => recurse (json_form x)) l = map recurse l)
      by (apply map_ext_in; intros x Hx; rewrite Forall_forall in IH; now apply IH).
    now rewrite E.
  - change (recurse (json_form (PList l)))
      with (if as_tuple (map json_form l) then PTuple (map recurse (map json_form l))
            else PList (map recurse (map json_form l))).
    change (recurse (PList l))
      with (if as_tuple l then PTuple (map recurse l) else PList (map recurse l)).
    rewrite as_tuple_json_form, map_map.
    assert (E : map (fun x => recurse (json_form x)) l = map recurse l)
      by (apply map_ext_in; intros x Hx; rewrite Forall_forall in IH; now apply IH).
    now rewrite E.
Qed.

(** [json2dtype] gives the same dtype, or the same error, for a
    description and for what JSON makes of it (lists in place of tuples):
    [recurse] decides between tuple and list by the items alone. *)
Theorem json2dtype_json_form (obj : pyobj) :
  json2dtype scalar_size (json_form obj) = json2dtype scalar_size obj.
Proof. unfold json2dtype. now rewrite recurse_json_form. Qed.
End JsonForm.

(** ** What the round trip through dtype2json keeps *)
Section Repack.
Import Persist.
Variable scalar_size : string -> option Z.
Local Abbreviation valid := (valid scalar_size).
Local Abbreviation packed := (packed scalar_size).
Local Abbreviation repack := (repack scalar_size).

(** For every valid dtype (with subarray types at any nesting, and record
    types of any layout, with or without titles),
    [json2dtype(dtype2json(d))] is the dtype with the names, field types
    and shapes of [d] in which every record type has the default layout
    and no titles; it has the description of [d], so that a second round
    trip changes nothing more. *)
Theorem json2dtype_dtype2json_repacks d :
  valid d = true ->
  json2dtype scalar_size (dtype2json d) = Ok (repack d)
  /\ dtype2json (repack d) = dtype2json d
  /\ packed (repack d) = true
  /\ untitled (repack d) = true
  /\ json2dtype scalar_size (dtype2json (repack d)) = Ok (repack d).
Proof.
  intros Hv.
  assert (H1 : json2dtype scalar_size (dtype2json d) = Ok (repack d)).
  { unfold json2dtype. rewrite (recurse_dtype2json scalar_size d Hv).
    now apply numpy_dtype_repack. }
  split; [exact H1 |]. split; [apply dtype2json_repack |].
  split; [apply packed_repack |]. split; [apply untitled_repack |].
  now rewrite dtype2json_repack.
Qed.
End Repack.

Lemma json2dtype_dtype2json_repacks_witness :
  let nested := Persist.Subarray (Persist.Subarray (Persist.Simple "int64") [3]) [2] in
  let d := Persist.Struct [("a", Persist.Simple "int8", 0, Some "first");
                           ("b", nested, 8, None)] 64 in
  Persist.valid Persist.numpy_scalar_size d = true
  /\ Persist.json2dtype Persist.numpy_scalar_size (Persist.dtype2json d)
     = Ok (Persist.Struct [("a", Persist.Simple "int8", 0, None);
                           ("b", nested, 1, None)] 49).
Proof.
  intros nested d. split; [reflexivity |].
  exact (proj1 (json2dtype_dtype2json_repacks Persist.numpy_scalar_size d eq_refl)).
Defined.

(** ** toarrow under a mask *)
Section ToArrowMasked.
Import Arrow.
Variable obj : Type.
Variable isinstance : obj -> cls -> bool.
Variables index content dense compact offsets boolmask mask_of : obj -> obj.
Variables getitem broadcast_flatten mask_and : obj -> obj -> obj.
Variable length : obj -> Z.
Variable empty_default : Z -> obj.
Variable table_columns : obj -> list (string * obj).
Variable union_contents : obj -> list obj.
Variable union_mask : obj -> Z -> obj -> obj -> obj.
Variables tags_int8 index_int32 array : obj -> obj.

Local Abbreviation recurse :=
  (toarrow_recurse obj isinstance index content getitem dense compact broadcast_flatten
     offsets boolmask mask_and mask_of length empty_default table_columns union_contents
     union_mask tags_int8 index_int32 array).

Lemma traverse_forallb {X Y : Type} (f : X -> result Y) (P : Y -> bool) (xs : list X) :
  (forall x y, f x = Ok y -> P y = true) ->
  forall ys, traverse f xs = Ok ys -> forallb P ys = true.
Proof.
  intros HP. induction xs as [|x xs IH]; intros ys H.
  - injection H as <-. reflexivity.
  - cbn [traverse] in H. destruct (f x) as [y|] eqn:Hy; [| discriminate].
    cbn [bind] in H. destruct (traverse f xs) as [ys'|]; [| discriminate].
    cbn [bind] in H. injection H as <-. cbn [forallb].
    now rewrite (HP x y Hy), (IH ys' eq_refl).
Qed.

(** Once [recurse] carries a mask (below a masked node), every array it
    builds at a leaf carries a mask, and an [IndexedArray] is converted
    through its items, never as a dictionary array. *)
Theorem toarrow_masked_leaves depth : forall data m r,
  recurse depth data (Some m) = Ok r -> all_masked obj r = true.
Proof.
  induction depth as [|depth IH]; intros data m r H; [discriminate |].
  cbn [toarrow_recurse] in H.
  repeat match type of H with
         | (if ?c then _ else _) = Ok _ => destruct c
         end;
    try discriminate;
    try (injection H as <-; reflexivity);
    try (eapply IH; eassumption).
  - destruct (recurse depth (content (compact data))
                (Some (broadcast_flatten (compact data) m))) as [v|] eqn:Hv;
      [| discriminate].
    cbn [bind] in H. injection H as <-. cbn [all_masked]. eapply IH; eassumption.
  - match type of H with bind (traverse ?f ?xs) _ = _ =>
      destruct (traverse f xs) as [arrays|] eqn:Ht end; [| discriminate].
    cbn [bind] in H. injection H as <-. cbn [all_masked].
    eapply traverse_forallb; [| exact Ht].
    intros x y Hy. eapply IH; exact Hy.
  - match type of H with bind (traverse ?f ?xs) _ = _ =>
      destruct (traverse f xs) as [contents|] eqn:Ht end; [| discriminate].
    cbn [bind] in H. injection H as <-. cbn [all_masked].
    eapply traverse_forallb; [| exact Ht].
    intros x y Hy. eapply IH; exact Hy.
Qed.
End ToArrowMasked.

Lemma toarrow_masked_leaves_witness :
  let id_ := fun x : Arrow.cls => x in
  let leaf_ := fun _ : Arrow.cls => Arrow.ndarray in
  let pair_ := fun x _ : Arrow.cls => x in
  let recurse :=
    Arrow.toarrow_recurse Arrow.cls Arrow.isinstance_flat id_ leaf_ pair_ id_ id_ pair_ id_ id_
      pair_ id_ (fun _ => 0) (fun _ => Arrow.ndarray) (fun _ => []) (fun _ => [])
      (fun x _ _ _ => x) id_ id_ id_ in
  recurse 2%nat Arrow.IndexedArray (Some Arrow.MaskedArray)
  = Ok (Arrow.pyarrow_array Arrow.cls Arrow.ndarray (Some Arrow.MaskedArray))
  /\ Arrow.all_masked Arrow.cls
       (Arrow.pyarrow_array Arrow.cls Arrow.ndarray (Some Arrow.MaskedArray)) = true.
Proof.
  intros id_ leaf_ pair_ recurse.
  split; [reflexivity |].
  apply (toarrow_masked_leaves Arrow.cls Arrow.isinstance_flat id_ leaf_
           id_ id_ id_ id_ id_ pair_ pair_ pair_ (fun _ => 0) (fun _ => Arrow.ndarray)
           (fun _ => []) (fun _ => []) (fun x _ _ _ => x) id_ id_ id_
           2%nat Arrow.IndexedArray Arrow.MaskedArray).
  reflexivity.
Defined.

(** ** fromarrow: the buffers of an array *)
Section FromArrowFacts.
Import Arrow.FromArrow.
Variable buffer : Type.
Variable array : Type.
Variable frombuffer : option buffer -> string -> result array.
Variable unpackbits : array -> array.
Variable arange_len : array -> array.

Local Abbreviation St := (St buffer).
Local Abbreviation pop := (pop buffer).
Local Abbreviation pa_type := (pa_type buffer).
Local Abbreviation node := (node buffer array).
Local Abbreviation popbuffers := (popbuffers buffer array frombuffer unpackbits arange_len).
Local Abbreviation fromarrow_array :=
  (fromarrow_array buffer array frombuffer unpackbits arange_len).
Local Abbreviation masked := (masked buffer array frombuffer).
Local Abbreviation pop_array := (pop_array buffer array frombuffer).

Lemma consumes_eq {X : Type} (m : St X) (k k' : nat) :
  consumes buffer m k -> k = k' -> consumes buffer m k'.
Proof. now intros H <-. Qed.

Lemma consumes_unit {X : Type} (x : X) : consumes buffer (unit_ buffer x) 0.
Proof.
  intros buffers y rest H. injection H as <- <-.
  exists []. split; [now rewrite app_nil_r |]. split; [reflexivity |].
  intros before. unfold unit_. now rewrite app_nil_r.
Qed.

Lemma consumes_failed {X : Type} (f : failure) (k : nat) :
  consumes buffer (fun _ => @Failed (X * list (option buffer)) f) k.
Proof. intros buffers y rest H. discriminate. Qed.

Lemma consumes_of_result {X : Type} (r : result X) : consumes buffer (of_result buffer r) 0.
Proof.
  destruct r as [x|e]; [apply consumes_unit | apply consumes_failed].
Qed.

Lemma consumes_of_outcome {X : Type} (o : outcome X) : consumes buffer (of_outcome buffer o) 0.
Proof.
  destruct o as [x|f]; [apply consumes_unit | apply consumes_failed].
Qed.

Lemma pop_last (buffers : list (option buffer)) b : pop (buffers ++ [b]) = Done (b, buffers).
Proof. unfold Arrow.FromArrow.pop. now rewrite rev_unit, rev_involutive. Qed.

Lemma consumes_pop : consumes buffer pop 1.
Proof.
  intros buffers b rest H. unfold Arrow.FromArrow.pop in H.
  destruct (rev buffers) as [|b' r] eqn:E; [discriminate |].
  injection H as <- <-.
  exists [b']. split.
  - rewrite <- (rev_involutive buffers), E. reflexivity.
  - split; [reflexivity |]. intros before. apply pop_last.
Qed.

Lemma consumes_seq {X Y : Type} (m : St X) (k : X -> St Y) (n1 n2 : nat) :
  consumes buffer m n1 -> (forall x, consumes buffer (k x) n2) ->
  consumes buffer (seq_ buffer m k) (n1 + n2).
Proof.
  intros Hm Hk buffers y rest H. unfold seq_ in H.
  destruct (m buffers) as [[x mid]|f] eqn:E; [| discriminate].
  destruct (Hm _ _ _ E) as (used1 & -> & L1 & F1).
  destruct (Hk x _ _ _ H) as (used2 & -> & L2 & F2).
  exists (used2 ++ used1). split; [now rewrite app_assoc |].
  split; [rewrite length_app; lia |].
  intros before. unfold seq_. rewrite app_assoc, F1. apply F2.
Qed.

Lemma consumes_masked (out : node) : consumes buffer (masked out) 1.
Proof.
  unfold Arrow.FromArrow.masked.
  apply (consumes_seq _ _ 1 0); [apply consumes_pop |].
  intros [b|]; [| apply consumes_unit].
  apply (consumes_seq _ _ 0 0); [apply consumes_of_result |].
  intros mask. apply consumes_unit.
Qed.

Lemma consumes_pop_array (dtype : string) : consumes buffer (pop_array dtype) 1.
Proof.
  unfold Arrow.FromArrow.pop_array.
  apply (consumes_seq _ _ 1 0); [apply consumes_pop |].
  intros b. apply consumes_of_result.
Qed.

(** Induction on the types of the external format, through the children
    of struct and union types. *)
Lemma pa_type_induction (P : pa_type -> Prop) :
  (forall index_type dictionary,
      P index_type -> P (DictionaryType buffer index_type dictionary)) ->
  (forall children, Forall (fun c => P (snd c)) children -> P (StructType buffer children)) ->
  (forall value_type, P value_type -> P (ListType buffer value_type)) ->
  (forall mode children, Forall P children -> P (UnionType buffer mode children)) ->
  P (string_ buffer) -> P (binary buffer) -> P (bool_ buffer) ->
  (forall pandas_dtype, P (DataType buffer pandas_dtype)) ->
  forall tpe, P tpe.
Proof.
  intros HD HS HL HU Hs Hb Ho Hd.
  fix IH 1. intros [it d|cs|v|m cs| | | |pd].
  - apply HD, IH.
  - apply HS. induction cs as [|[name t] cs IHcs]; constructor; [apply IH | exact IHcs].
  - apply HL, IH.
  - apply HU. induction cs as [|t cs IHcs]; constructor; [apply IH | exact IHcs].
  - exact Hs.
  - exact Hb.
  - exact Ho.
  - apply Hd.
Qed.

Lemma popbuffers_consumes tpe : consumes buffer (popbuffers tpe) (nbuffers buffer tpe).
Proof.
  induction tpe as [it d IH|cs IH|v IH|m cs IH| | | |pd] using pa_type_induction.
  - cbn [Arrow.FromArrow.popbuffers Arrow.FromArrow.nbuffers].
    apply (consumes_eq _ (0 + (nbuffers buffer it + 0))); [| lia].
    apply consumes_seq; [apply consumes_of_outcome |]. intros content.
    apply consumes_seq; [exact IH |]. intros index.
    destruct index; apply consumes_unit.
  - cbn [Arrow.FromArrow.popbuffers Arrow.FromArrow.nbuffers].
    apply (consumes_eq _ (fold_right (fun c acc => nbuffers buffer (snd c) + acc) 0 cs + 1)%nat);
      [| lia].
    apply consumes_seq; [| intros pairs; apply consumes_masked].
    induction IH as [|[name t] cs Ht _ IHcs]; [apply consumes_unit |].
    cbn [fold_right snd] in *.
    apply (consumes_eq _ (fold_right (fun c acc => nbuffers buffer (snd c) + acc) 0 cs
                          + (nbuffers buffer t + 0))%nat); [| lia].
    apply consumes_seq; [exact IHcs |]. intros pairs.
    apply consumes_seq; [exact Ht |]. intros x. apply consumes_unit.
  - cbn [Arrow.FromArrow.popbuffers Arrow.FromArrow.nbuffers].
    apply (consumes_eq _ (nbuffers buffer v + (1 + 1))%nat); [| lia].
    apply consumes_seq; [exact IH |]. intros content.
    apply consumes_seq; [apply consumes_pop_array |]. intros offsets.
    apply consumes_masked.
  - cbn [Arrow.FromArrow.popbuffers Arrow.FromArrow.nbuffers].
    apply (consumes_eq _ (fold_right (fun t acc => nbuffers buffer t + acc) 0 cs + 3)%nat);
      [| lia].
    apply consumes_seq.
    + induction IH as [|t cs Ht _ IHcs]; [apply consumes_unit |].
      cbn [fold_right] in *.
      apply (consumes_eq _ (fold_right (fun t acc => nbuffers buffer t + acc) 0 cs
                            + (nbuffers buffer t + 0))%nat); [| lia].
      apply consumes_seq; [exact IHcs |]. intros contents.
      apply consumes_seq; [exact Ht |]. intros x. apply consumes_unit.
    + intros contents. destruct m.
      * apply (consumes_eq _ (1 + 2)%nat); [| lia].
        apply consumes_seq; [apply consumes_pop |].
        intros [b|]; [apply consumes_failed |].
        apply (consumes_eq _ (1 + 1)%nat); [| lia].
        apply consumes_seq; [apply consumes_pop_array |]. intros tags.
        apply consumes_masked.
      * apply (consumes_eq _ (1 + (1 + 1))%nat); [| lia].
        apply consumes_seq; [apply consumes_pop_array |]. intros index.
        apply consumes_seq; [apply consumes_pop_array |]. intros tags.
        apply consumes_masked.
  - cbn [Arrow.FromArrow.popbuffers Arrow.FromArrow.nbuffers].
    apply (consumes_eq _ (1 + (1 + 1))%nat); [| lia].
    apply consumes_seq; [apply consumes_pop_array |]. intros content.
    apply consumes_seq; [apply consumes_pop_array |]. intros offsets.
    apply consumes_masked.
  - cbn [Arrow.FromArrow.popbuffers Arrow.FromArrow.nbuffers].
    apply (consumes_eq _ (1 + (1 + 1))%nat); [| lia].
    apply consumes_seq; [apply consumes_pop_array |]. intros content.
    apply consumes_seq; [apply consumes_pop_array |]. intros offsets.
    apply consumes_masked.
  - cbn [Arrow.FromArrow.popbuffers Arrow.FromArrow.nbuffers].
    apply (consumes_eq _ (1 + 1)%nat); [| lia].
    apply consumes_seq; [apply consumes_pop_array |]. intros bytes.
    apply consumes_masked.
  - cbn [Arrow.FromArrow.popbuffers Arrow.FromArrow.nbuffers].
    apply (consumes_eq _ (1 + 1)%nat); [| lia].
    apply consumes_seq; [apply consumes_pop_array |]. intros out.
    apply consumes_masked.
Qed.

Lemma fromarrow_array_step tpe (buffers : list (option buffer)) (len : Z) :
  fromarrow_array (Array buffer tpe buffers len)
  = match popbuffers tpe buffers with
    | Failed f => Failed f
    | Done (out, rest) =>
        if Nat.eqb (length rest) 0 then Done (UpTo buffer array out len)
        else Failed AssertionError
    end.
Proof. reflexivity. Qed.

Variable table_length : node -> Z.
Local Abbreviation fromarrow :=
  (fromarrow buffer array frombuffer unpackbits arange_len table_length).
Local Abbreviation convert_all :=
  (convert_all buffer array frombuffer unpackbits arange_len).

(** [popbuffers] takes its buffers from the end of the list, as many as
    the type alone determines (a dictionary type: those of its index
    type), and what it returns does not depend on the buffers before
    them, which it leaves in place. *)
Theorem popbuffers_frame tpe (buffers : list (option buffer)) (out : node) rest :
  popbuffers tpe buffers = Done (out, rest) ->
  exists used,
    buffers = rest ++ used
    /\ length used = nbuffers buffer tpe
    /\ forall before, popbuffers tpe (before ++ used) = Done (out, before).
Proof. apply popbuffers_consumes. Qed.

(** [fromarrow] converts an array only when it has exactly the number of
    buffers that its type calls for: with that many the final assertion
    holds and the result is the node of [popbuffers], cut at the length of
    the array; one more buffer in front of them fails the assertion. *)
Theorem fromarrow_buffer_count tpe (buffers : list (option buffer)) (len : Z) (out : node) :
  fromarrow (IsArray buffer (Array buffer tpe buffers len)) = Done out ->
  length buffers = nbuffers buffer tpe
  /\ (exists x, out = UpTo buffer array x len /\ popbuffers tpe buffers = Done (x, []))
  /\ (forall b, fromarrow (IsArray buffer (Array buffer tpe (b :: buffers) len))
                = Failed AssertionError).
Proof.
  intros H. unfold Arrow.FromArrow.fromarrow in H. rewrite fromarrow_array_step in H.
  destruct (popbuffers tpe buffers) as [[x rest]|f] eqn:E; [| discriminate].
  destruct rest as [|r rest]; [| discriminate]. cbn [length Nat.eqb] in H.
  injection H as <-.
  destruct (popbuffers_consumes tpe _ _ _ E) as (used & Hb & Hl & Hf).
  cbn [app] in Hb. subst used.
  split; [exact Hl | split; [exists x; auto |]].
  intros b. unfold Arrow.FromArrow.fromarrow. rewrite fromarrow_array_step.
  change (b :: buffers) with ([b] ++ buffers). now rewrite Hf.
Qed.

Lemma convert_all_spec (chunks : list (pa_array buffer)) : forall converted,
  convert_all chunks = Done converted ->
  length converted = length chunks
  /\ forall i x, nth_error chunks i = Some x ->
                 exists y, fromarrow_array x = Done y /\ nth_error converted i = Some y.
Proof.
  induction chunks as [|c chunks IH]; intros converted H.
  - injection H as <-. split; [reflexivity | intros [|i] x Hx; discriminate].
  - cbn [Arrow.FromArrow.convert_all] in H.
    destruct (fromarrow_array c) as [y|] eqn:Hy; [| discriminate]. cbn [and_then] in H.
    destruct (convert_all chunks) as [ys|] eqn:Hys; [| discriminate]. cbn [and_then] in H.
    injection H as <-. destruct (IH ys eq_refl) as [Hl Hn].
    split; [simpl; now rewrite Hl |].
    intros [|i] x Hx.
    + injection Hx as <-. exists y. split; [exact Hy | reflexivity].
    + apply Hn. exact Hx.
Qed.

(** [fromarrow] on a chunked array looks at the chunks that have items.
    When there is exactly one, it returns that chunk as it is, an array of
    the external format that was not converted.  Otherwise it returns a
    chunked node with one converted chunk for each of them, in order, and
    their lengths, all positive, as counts. *)
Theorem fromarrow_chunked (chunks : list (pa_array buffer)) :
  let kept := filter (fun x => 0 <? length_of buffer x) chunks in
  (forall chunk, kept = [chunk] ->
      fromarrow (IsChunkedArray buffer chunks) = Done (Unconverted buffer array chunk))
  /\ (forall out, length kept <> 1%nat ->
        fromarrow (IsChunkedArray buffer chunks) = Done out ->
        exists converted,
          out = ChunkedArray buffer array converted (map (length_of buffer) kept)
          /\ length converted = length kept
          /\ Forall (fun c => 0 < c) (map (length_of buffer) kept)
          /\ forall i x, nth_error kept i = Some x ->
               exists y, fromarrow (IsArray buffer x) = Done y
                         /\ nth_error converted i = Some y).
Proof.
  intros kept. split.
  - intros chunk Hk. unfold Arrow.FromArrow.fromarrow. cbv zeta. fold kept. now rewrite Hk.
  - intros out Hn H. unfold Arrow.FromArrow.fromarrow in H. cbv zeta in H. fold kept in H.
    assert (H' : and_then (convert_all kept)
                   (fun converted =>
                      Done (ChunkedArray buffer array converted (map (length_of buffer) kept)))
                 = Done out).
    { destruct kept as [|c [|c' kept']]; [exact H | now elim Hn | exact H]. }
    clear H. destruct (convert_all kept) as [converted|] eqn:Hc; [| discriminate].
    cbn [and_then] in H'. injection H' as <-.
    destruct (convert_all_spec kept converted Hc) as [Hl Hi].
    exists converted. split; [reflexivity | split; [exact Hl | split; [| exact Hi]]].
    apply Forall_forall. intros c Hin. apply in_map_iff in Hin.
    destruct Hin as (x & <- & Hx). apply filter_In in Hx. destruct Hx as [_ Hx].
    now apply Z.ltb_lt.
Qed.
End FromArrowFacts.

Lemma popbuffers_frame_witness :
  let frombuffer := fun (b : option Z) (_ : string) =>
                      match b with
                      | Some z => Ok z
                      | None => Raise (AttributeError "'NoneType' object has no attribute '__buffer__'")
                      end in
  let popbuffers := Arrow.FromArrow.popbuffers Z Z frombuffer (fun a => a) (fun a => a) in
  let tpe := Arrow.FromArrow.ListType Z (Arrow.FromArrow.DataType Z "int64") in
  let out := Arrow.FromArrow.JaggedArray_fromoffsets Z Z 1 (Arrow.FromArrow.Numpy Z Z 2) in
  popbuffers tpe [Some 9; None; Some 1; None; Some 2] = Arrow.FromArrow.Done (out, [Some 9])
  /\ exists used,
       [Some 9; None; Some 1; None; Some 2] = [Some 9] ++ used
       /\ length used = Arrow.FromArrow.nbuffers Z tpe
       /\ forall before, popbuffers tpe (before ++ used) = Arrow.FromArrow.Done (out, before).
Proof.
  intros frombuffer popbuffers tpe out.
  split; [reflexivity |].
  exact (popbuffers_frame Z Z frombuffer (fun a => a) (fun a => a) tpe
           [Some 9; None; Some 1; None; Some 2] out [Some 9] eq_refl).
Defined.

Lemma fromarrow_buffer_count_witness :
  let frombuffer := fun (b : option Z) (_ : string) =>
                      match b with
                      | Some z => Ok z
                      | None => Raise (AttributeError "'NoneType' object has no attribute '__buffer__'")
                      end in
  let fromarrow :=
    Arrow.FromArrow.fromarrow Z Z frombuffer (fun a => a) (fun a => a) (fun _ => 1) in
  let tpe := Arrow.FromArrow.ListType Z (Arrow.FromArrow.DataType Z "int64") in
  let out := Arrow.FromArrow.UpTo Z Z
               (Arrow.FromArrow.JaggedArray_fromoffsets Z Z 1 (Arrow.FromArrow.Numpy Z Z 2)) 3 in
  let buffers := [None; Some 1; None; Some 2] in
  fromarrow (Arrow.FromArrow.IsArray Z (Arrow.FromArrow.Array Z tpe buffers 3))
  = Arrow.FromArrow.Done out
  /\ length buffers = Arrow.FromArrow.nbuffers Z tpe
  /\ (forall b,
        fromarrow (Arrow.FromArrow.IsArray Z (Arrow.FromArrow.Array Z tpe (b :: buffers) 3))
        = Arrow.FromArrow.Failed Arrow.FromArrow.AssertionError).
Proof.
  intros frombuffer fromarrow tpe out buffers.
  split; [reflexivity |].
  destruct (fromarrow_buffer_count Z Z frombuffer (fun a => a) (fun a => a) (fun _ => 1)
              tpe buffers 3 out eq_refl) as (Hcount & _ & Hmore).
  split; [exact Hcount | exact Hmore].
Defined.

Lemma fromarrow_chunked_witness :
  let frombuffer := fun (b : option Z) (_ : string) =>
                      match b with
                      | Some z => Ok z
                      | None => Raise (AttributeError "'NoneType' object has no attribute '__buffer__'")
                      end in
  let fromarrow :=
    Arrow.FromArrow.fromarrow Z Z frombuffer (fun a => a) (fun a => a) (fun _ => 1) in
  let tpe := Arrow.FromArrow.DataType Z "int64" in
  let nothing := Arrow.FromArrow.Array Z tpe [None; Some 1] 0 in
  let chunk := Arrow.FromArrow.Array Z tpe [None; Some 2] 3 in
  filter (fun x => 0 <? Arrow.FromArrow.length_of Z x) [nothing; chunk] = [chunk]
  /\ fromarrow (Arrow.FromArrow.IsChunkedArray Z [nothing; chunk])
     = Arrow.FromArrow.Done (Arrow.FromArrow.Unconverted Z Z chunk).
Proof.
  intros frombuffer fromarrow tpe nothing chunk.
  split; [reflexivity |].
  exact (proj1 (fromarrow_chunked Z Z frombuffer (fun a => a) (fun a => a) (fun _ => 1)
                  [nothing; chunk]) chunk eq_refl).
Defined.

(** ** counts of a selection *)
Section CountsOfSelection.
Variable itembytes : positive.
Context {A : Type}.
Variable getfield : list A -> string -> option (list A).
Implicit Types (N : JaggedArray A).

Lemma getitem_combine {X Y : Type} (xs : list X) (ys : list Y) (i : Z) x y :
  length ys = length xs ->
  getitem xs i = Ok x -> getitem ys i = Ok y -> getitem (combine xs ys) i = Ok (x, y).
Proof.
  intros Hl Hx Hy.
  apply getitem_ok in Hx as [Hb Hx]. apply getitem_ok in Hy as [_ Hy].
  rewrite Hl in Hy.
  assert (Hc : length (combine xs ys) = length xs) by (rewrite length_combine; lia).
  apply getitem_nth; rewrite Hc; [exact Hb |].
  now apply nth_error_combine.
Qed.

Lemma getitem_map {X Y : Type} (g : X -> Y) (xs : list X) (i : Z) x :
  getitem xs i = Ok x -> getitem (map g xs) i = Ok (g x).
Proof.
  intros Hx. apply getitem_ok in Hx as [Hb Hx].
  apply getitem_nth; rewrite length_map; [exact Hb |].
  rewrite nth_error_map, Hx. reflexivity.
Qed.

Lemma take_pairs {Y : Type} (g : Z * Z -> Y) (xs ys : list Z) idx : forall xs' ys',
  length ys = length xs ->
  take xs idx = Ok xs' -> take ys idx = Ok ys' ->
  take (map g (combine xs ys)) idx = Ok (map g (combine xs' ys')).
Proof.
  induction idx as [|i idx IH]; intros xs' ys' Hl Hx Hy.
  - injection Hx as <-. injection Hy as <-. reflexivity.
  - cbn [take] in *.
    destruct (getitem xs i) as [x|] eqn:Ex; [| discriminate]. cbn [bind] in Hx.
    destruct (take xs idx) as [xs0|] eqn:Exs; [| discriminate]. cbn [bind] in Hx.
    destruct (getitem ys i) as [y|] eqn:Ey; [| discriminate]. cbn [bind] in Hy.
    destruct (take ys idx) as [ys0|] eqn:Eys; [| discriminate]. cbn [bind] in Hy.
    injection Hx as <-. injection Hy as <-.
    rewrite (getitem_map g _ i _ (getitem_combine xs ys i x y Hl Ex Ey)). cbn [bind].
    rewrite (IH xs0 ys0 Hl eq_refl eq_refl). reflexivity.
Qed.

(** The counts of a selection are the selection of the counts: for a
    jagged array with as many stops as starts, when [N[idx]] succeeds for
    an integer array [idx], [N[idx].counts] is [N.counts[idx]]. *)
Theorem counts_of_selection N idx N' (n n' : nat) :
  length (stops N) = length (starts N) ->
  __getitem__ getfield N (SelArray idx) n = Ok (Array N', n') ->
  exists c c',
    counts itembytes N = Ok c
    /\ take c idx = Ok c'
    /\ counts itembytes N' = Ok c'.
Proof.
  intros Hl HN.
  apply getitem_array_inv in HN as (ss & es & _ & Hs & He & ->).
  destruct (take_nth _ _ _ Hs) as [Ls _]. destruct (take_nth _ _ _ He) as [Le _].
  exists (map (fun '(x, y) => wrap itembytes (x - y)) (combine (stops N) (starts N))),
         (map (fun '(x, y) => wrap itembytes (x - y)) (combine es ss)).
  split; [| split].
  - unfold counts, subtract. now rewrite Hl, Nat.eqb_refl.
  - apply take_pairs; [now symmetry | exact He | exact Hs].
  - unfold counts, subtract, starts, stops. cbn [_starts _stops items cells].
    now rewrite Le, Ls, Nat.eqb_refl.
Qed.
End CountsOfSelection.

Lemma counts_of_selection_witness :
  let N := mk (Owner (Buffer 0 [0; 2; 2])) (Owner (Buffer 1 [2; 2; 5]))
              ["a"; "b"; "c"; "d"; "e"] true in
  let N' := mk (Owner (Buffer 5 [2; 0])) (Owner (Buffer 6 [5; 2]))
               ["a"; "b"; "c"; "d"; "e"] true in
  length (stops N) = length (starts N)
  /\ __getitem__ (fun _ _ => None) N (SelArray [2; 0]) 5%nat = Ok (Array N', 7%nat)
  /\ exists c c', counts 8 N = Ok c /\ take c [2; 0] = Ok c' /\ counts 8 N' = Ok c'.
Proof.
  intros N N'.
  split; [reflexivity | split; [reflexivity |]].
  exact (counts_of_selection 8 (fun _ _ => None) N [2; 0] N' 5 7 eq_refl eq_refl).
Defined.

(** ** Assigning a jagged array to itself *)
Section SelfAssignment.
Variable itembytes : positive.
Context {A : Type}.
Variable getfield : list A -> string -> option (list A).
Variable asarray : JaggedArray A -> result (rhs A).
Implicit Types (N : JaggedArray A) (content : list A).

Lemma put_same content (s k : nat) :
  (s + k <= length content)%nat ->
  put content s (firstn k (skipn s content)) = content.
Proof.
  intros H. unfold put.
  rewrite length_firstn, length_skipn, Nat.min_l by lia.
  replace (s + k)%nat with (k + s)%nat by lia. rewrite <- skipn_skipn.
  rewrite firstn_skipn. apply firstn_skipn.
Qed.

Lemma getslice_everything {X : Type} (l : list X) : getslice l everything = Ok l.
Proof.
  unfold getslice, everything, slice_indices. cbn [sl_step sl_start sl_stop bind].
  cbv beta iota zeta. cbn [Z.eqb Z.ltb Z.compare bind].
  rewrite slice_length_unit by lia.
  change 0 with (Z.of_nat 0). rewrite strided_unit by (simpl; lia).
  cbn [skipn]. rewrite Z.sub_0_r, Nat2Z.id. now rewrite firstn_all.
Qed.

Lemma copy_rows_itself N (Hc : _check_startsstops N = Ok tt) : forall ranges (i n : nat),
  (forall k r, nth_error ranges k = Some r ->
               nth_error (combine (starts N) (stops N)) (i + k) = Some r) ->
  forallb (row_ok (Z.of_nat (length (_content N)))) ranges = true ->
  copy_rows N true (Z.of_nat i) n ranges (_content N) = (Ok tt, _content N).
Proof.
  induction ranges as [|[s e] ranges IH]; intros i n Hr Hok.
  - destruct n; reflexivity.
  - destruct n as [|n]; [reflexivity |].
    rewrite copy_rows_cons.
    cbn [forallb] in Hok. apply andb_prop in Hok as [Hrow Hok].
    pose proof (row_ok_bounds _ _ Hrow) as [Hse He]. cbn [fst snd] in Hse, He.
    pose proof (Hr 0%nat (s, e) eq_refl) as H0. rewrite Nat.add_0_r in H0.
    apply nth_error_combine_inv in H0 as [Hs0 He0].
    assert (Hrowv : row N (_content N) (Z.of_nat i) = Ok (getrange (_content N) s e)).
    { unfold row. rewrite Hc. cbn [bind].
      assert (Hi : forall (l : list Z) x, nth_error l i = Some x -> getitem l (Z.of_nat i) = Ok x).
      { intros l x Hx.
        assert (Hlt : (i < length l)%nat) by (apply nth_error_Some; congruence).
        apply getitem_nth; unfold wrap_index;
          (replace (Z.of_nat i <? 0) with false by (symmetry; apply Z.ltb_ge; lia));
          [lia | now rewrite Nat2Z.id]. }
      now rewrite (Hi _ _ Hs0), (Hi _ _ He0). }
    rewrite Hrowv.
    destruct (setrange_row (_content N) s e (getrange (_content N) s e) Hrow) as [Hset _].
    { apply getrange_length; lia. }
    rewrite Hset. rewrite getrange_inside by lia.
    rewrite put_same by lia.
    replace (Z.of_nat i + 1) with (Z.of_nat (S i)) by lia.
    apply IH; [| exact Hok].
    intros k r Hk. replace (S i + k)%nat with (i + S k)%nat by lia. apply Hr. exact Hk.
Qed.

(** [N[:] = N] changes nothing: each row is read from the content and
    written back to the place it came from, also when rows overlap. *)
Theorem setitem_itself N :
  _writeable N = true ->
  invariant N = true ->
  wf (_starts N) = true -> wf (_stops N) = true ->
  __setitem__ itembytes getfield asarray N (SelSlice everything) (Jag N true)
  = (Ok tt, _content N).
Proof.
  intros Hw Hinv Ws We.
  pose proof (invariant_lengths N Hinv) as Hlen.
  pose proof (wf_length _ Ws) as Ls. pose proof (wf_length _ We) as Le.
  fold (starts N) in Ls. fold (stops N) in Le.
  assert (Hc : _check_startsstops N = Ok tt).
  { unfold _check_startsstops.
    replace (len (_stops N) <? len (_starts N)) with false
      by (symmetry; apply Z.ltb_ge; lia). reflexivity. }
  unfold __setitem__. cbv zeta. rewrite Hw, Hc. cbn [negb index_items].
  rewrite !getslice_everything. cbn [bind]. unfold assign_rows.
  unfold __len__. rewrite <- Ls, Z.eqb_refl. cbn [negb].
  change 0 with (Z.of_nat 0).
  apply copy_rows_itself; [exact Hc | intros k r Hk; exact Hk |].
  unfold invariant in Hinv. apply andb_prop in Hinv. tauto.
Qed.
End SelfAssignment.

Lemma setitem_itself_witness :
  let N := mk (Owner (Buffer 0 [0; 1; 1])) (Owner (Buffer 1 [3; 1; 5]))
              ["a"; "b"; "c"; "d"; "e"] true in
  __setitem__ 8 (fun _ _ => None) (fun _ => Ok (Item "z")) N (SelSlice everything) (Jag N true)
  = (Ok tt, ["a"; "b"; "c"; "d"; "e"]).
Proof.
  intros N.
  exact (setitem_itself 8 (fun _ _ => None) (fun _ => Ok (Item "z")) N
           eq_refl eq_refl eq_refl eq_refl).
Defined.

(** ** schema2type: nullable fields *)
Section Nullable.
Import Arrow.
Variable type_ : Type.
Variable none : type_.
Variable of_leaf : leaf -> type_.
Variable OptionType : type_ -> type_.
Variable ArrayType : takes -> type_ -> type_.
Variable and_ or_ : type_ -> type_ -> type_.

Local Abbreviation recurse :=
  (schema2type_recurse type_ none of_leaf OptionType ArrayType and_ or_).

Lemma recurse_nullable tpe : exists t, recurse tpe true = OptionType t.
Proof. destruct tpe; eexists; reflexivity. Qed.

(** For a nullable field [recurse] returns an option type, whatever the
    type of the field.  The nullability is handed down unchanged to the
    dictionary of a dictionary type and to the values of a list type: a
    nullable dictionary-encoded field gets an option of an option, and the
    items of a nullable list are optional as well. *)
Theorem schema2type_nullable tpe :
  (exists t, recurse tpe true = OptionType t)
  /\ (forall dictionary, tpe = DictionaryType dictionary ->
        exists t, recurse tpe true = OptionType (OptionType t)
                  /\ recurse dictionary true = OptionType t)
  /\ (forall value_type, tpe = ListType value_type ->
        exists t, recurse tpe true = OptionType (ArrayType Infinite (OptionType t))
                  /\ recurse value_type true = OptionType t).
Proof.
  split; [apply recurse_nullable | split].
  - intros dictionary ->. destruct (recurse_nullable dictionary) as [t Ht].
    exists t. split; [| exact Ht].
    change (recurse (DictionaryType dictionary) true)
      with (OptionType (recurse dictionary true)). now rewrite Ht.
  - intros value_type ->. destruct (recurse_nullable value_type) as [t Ht].
    exists t. split; [| exact Ht].
    change (recurse (ListType value_type) true)
      with (OptionType (ArrayType Infinite (recurse value_type true))). now rewrite Ht.
Qed.
End Nullable.

Lemma schema2type_nullable_witness :
  let recurse :=
    Arrow.schema2type_recurse nat 0%nat (fun _ => 1%nat) S (fun _ t => (t + 10)%nat)
                              Nat.add Nat.mul in
  let tpe := Arrow.DictionaryType (Arrow.DataType "int32") in
  exists t, recurse tpe true = S (S t) /\ recurse (Arrow.DataType "int32") true = S t.
Proof.
  intros recurse tpe.
  exact (proj1 (proj2 (schema2type_nullable nat 0%nat (fun _ => 1%nat) S
                         (fun _ t => (t + 10)%nat) Nat.add Nat.mul tpe))
               (Arrow.DataType "int32") eq_refl).
Defined.

(** ** ByteJaggedArray: reading a row *)
Section BytesGetItem.
Context {B T : Type}.
Variable dsize : positive.
Variable getfield : list B -> string -> option (list B).
Variable decode : list B -> T.
Implicit Types (N : Bytes.ByteJaggedArray B).

Lemma length_chunks (n : nat) : forall bytes : list B,
  length (Bytes.chunks B dsize n bytes) = n.
Proof. induction n as [|n IH]; intros bytes; simpl; [reflexivity | now rewrite IH]. Qed.

(** Reading row [i] of a byte-jagged array whose byte range lies in the
    content: when the range holds a whole number of items of the element
    type, [N[i]] is an array of that many items; otherwise the view as
    items is refused and [N[i]] raises [ValueError].  Reading through a
    field name never returns. *)
Theorem bytes_getitem_row N (i s e : Z) (n : nat) :
  Bytes._check_startsstops B N = Ok tt ->
  getitem (Bytes.starts B N) i = Ok s -> getitem (Bytes.stops B N) i = Ok e ->
  0 <= s <= e -> e <= Z.of_nat (length (Bytes._content B N)) ->
  ((e - s) mod Z.pos dsize = 0 ->
   exists xs, Bytes.__getitem__ B T dsize getfield decode N (SelInt i) n = Ok (Scalar xs, n)
              /\ Z.of_nat (length xs) = (e - s) / Z.pos dsize)
  /\ ((e - s) mod Z.pos dsize <> 0 ->
      exists msg, Bytes.__getitem__ B T dsize getfield decode N (SelInt i) n
                  = Raise (ValueError msg))
  /\ (forall name, is_ok (Bytes.__getitem__ B T dsize getfield decode N (SelString name) n)
                   = false).
Proof.
  intros Hc Hs He Hse Hlen.
  assert (Hl : Z.of_nat (length (getrange (Bytes._content B N) s e)) = e - s)
    by (rewrite getrange_length by lia; lia).
  assert (E : Bytes.__getitem__ B T dsize getfield decode N (SelInt i) n
              = bind (bind (Bytes.view_as B T dsize decode (getrange (Bytes._content B N) s e))
                           (fun v => Ok (Scalar v)))
                     (fun a => Ok (a, n))).
  { unfold Bytes.__getitem__, mbind, lift, index. rewrite Hc. cbn [bind].
    fold (Bytes.starts B N) (Bytes.stops B N). rewrite Hs, He. reflexivity. }
  split; [| split].
  - intros Hm. rewrite E. unfold Bytes.view_as. rewrite Hl, Hm. cbn [Z.eqb bind].
    eexists. split; [reflexivity |].
    rewrite length_map, length_chunks, Nat2Z.inj_div, positive_nat_Z. now rewrite Hl.
  - intros Hm. rewrite E. unfold Bytes.view_as. rewrite Hl.
    destruct ((e - s) mod Z.pos dsize =? 0) eqn:Em; [apply Z.eqb_eq in Em; contradiction |].
    eexists. reflexivity.
  - intros name. unfold Bytes.__getitem__.
    destruct (getfield (Bytes._content B N) name); reflexivity.
Qed.
End BytesGetItem.

Lemma bytes_getitem_row_witness :
  let decode := fun bytes : list Z =>
                  match bytes with [lo; hi] => lo + 256 * hi | _ => 0 end in
  let N := Bytes.mk Z (Owner (Buffer 0 [1; 0])) (Owner (Buffer 1 [5; 3])) [0; 2; 1; 4; 3; 0] true in
  Bytes.__getitem__ Z Z 2 (fun _ _ => None) decode N (SelInt 0) 0%nat
  = Ok (Scalar [258; 772], 0%nat)
  /\ (exists msg, Bytes.__getitem__ Z Z 2 (fun _ _ => None) decode N (SelInt 1) 0%nat
                  = Raise (ValueError msg)).
Proof.
  intros decode N.
  split; [reflexivity |].
  destruct (@bytes_getitem_row Z Z 2 (fun _ _ => None) decode N 1 0 3 0%nat)
    as (_ & Hodd & _); try reflexivity; try (simpl; lia).
  apply Hodd. discriminate.
Defined.

(** ** fromarrow: the batches of a table *)
Section FromArrowTable.
Import Arrow.FromArrow.
Variable buffer : Type.
Variable array : Type.
Variable frombuffer : option buffer -> string -> result array.
Variable unpackbits : array -> array.
Variable arange_len : array -> array.
Variable table_length : node buffer array -> Z.

Local Abbreviation node := (node buffer array).
Local Abbreviation fromarrow :=
  (fromarrow buffer array frombuffer unpackbits arange_len table_length).
Local Abbreviation batches_loop :=
  (batches_loop buffer array frombuffer unpackbits arange_len table_length).
Local Abbreviation columns_loop :=
  (columns_loop buffer array frombuffer unpackbits arange_len).

Local Abbreviation converts :=
  (fun (batch : list string * list (pa_array buffer)) (t : node) =>
     fromarrow (IsRecordBatch buffer (fst batch) (snd batch)) = Done t).
Local Abbreviation with_rows := (filter (fun t : node => 0 <? table_length t)).

(** The loop over the batches appends the converted batches that have
    rows, in order, and their lengths. *)
Lemma batches_loop_value batches tables :
  Forall2 converts batches tables ->
  forall (chunks : list node) (counts : list Z),
    batches_loop batches chunks counts
    = Done (chunks ++ with_rows tables, counts ++ map table_length (with_rows tables)).
Proof.
  induction 1 as [|[names columns] t batches tables Ht _ IH]; intros chunks counts.
  - cbn [filter map]. now rewrite !app_nil_r.
  - cbn [Arrow.FromArrow.batches_loop filter].
    cbn [Arrow.FromArrow.fromarrow fst snd] in Ht. rewrite Ht. cbn [and_then].
    destruct (0 <? table_length t).
    + rewrite IH. cbn [map]. now rewrite <- !app_assoc.
    + apply IH.
Qed.

(** The loop ends without an exception only if every batch is converted. *)
Lemma batches_loop_converts batches : forall (chunks : list node) (counts : list Z) r,
  batches_loop batches chunks counts = Done r ->
  exists tables, Forall2 converts batches tables.
Proof.
  induction batches as [|[names columns] batches IH]; intros chunks counts r H.
  - exists []. constructor.
  - cbn [Arrow.FromArrow.batches_loop] in H.
    destruct (columns_loop (combine names columns) []) as [chunk|] eqn:Hc; [| discriminate].
    cbn [and_then] in H.
    assert (Hr : exists tables, Forall2 converts batches tables)
      by (destruct (0 <? table_length chunk); eapply IH; exact H).
    destruct Hr as [tables Ht]. exists (chunk :: tables).
    constructor; [exact Hc | exact Ht].
Qed.

(** [fromarrow] on a table converts every batch as [fromarrow] converts a
    record batch, in order, and keeps the converted batches that have
    rows: if exactly one is kept it is the result, alone; otherwise the
    result is a chunked node of the kept batches with their lengths as
    counts (without chunks when no batch has rows).  The call succeeds
    exactly when every batch is converted. *)
Theorem fromarrow_table batches :
  (forall tables,
      Forall2 converts batches tables ->
      let kept := with_rows tables in
      fromarrow (IsTable buffer batches)
      = Done (match kept with
              | [chunk] => chunk
              | _ => ChunkedArray buffer array kept (map table_length kept)
              end))
  /\ (forall out,
        fromarrow (IsTable buffer batches) = Done out ->
        exists tables,
          Forall2 converts batches tables
          /\ let kept := with_rows tables in
             Forall (fun c => 0 < table_length c) kept
             /\ (kept = [out]
                 \/ (length kept <> 1%nat
                     /\ out = ChunkedArray buffer array kept (map table_length kept)))).
Proof.
  assert (Hvalue : forall tables,
             Forall2 converts batches tables ->
             fromarrow (IsTable buffer batches)
             = Done (match with_rows tables with
                     | [chunk] => chunk
                     | _ => ChunkedArray buffer array (with_rows tables)
                              (map table_length (with_rows tables))
                     end)).
  { intros tables Ht. unfold Arrow.FromArrow.fromarrow.
    change (Arrow.FromArrow.batches_loop buffer array frombuffer unpackbits arange_len
              table_length batches [] [])
      with (batches_loop batches [] []).
    rewrite (batches_loop_value batches tables Ht). cbn [app and_then].
    destruct (with_rows tables) as [|c [|c' kept]]; reflexivity. }
  split; [exact Hvalue |].
  intros out H.
  assert (Ht : exists tables, Forall2 converts batches tables).
  { unfold Arrow.FromArrow.fromarrow in H.
    destruct (batches_loop batches [] []) as [r|] eqn:E; [| discriminate].
    eapply batches_loop_converts; exact E. }
  destruct Ht as [tables Ht]. exists tables. split; [exact Ht |].
  rewrite (Hvalue tables Ht) in H. injection H as <-.
  split.
  - apply Forall_forall. intros c Hc. apply filter_In in Hc. now apply Z.ltb_lt.
  - destruct (with_rows tables) as [|c [|c' kept]].
    + right. split; [discriminate | reflexivity].
    + left. reflexivity.
    + right. split; [discriminate | reflexivity].
Qed.
End FromArrowTable.

Lemma fromarrow_table_witness :
  let frombuffer := fun (b : option Z) (_ : string) =>
                      match b with
                      | Some z => Ok z
                      | None => Raise (AttributeError "'NoneType' object has no attribute '__buffer__'")
                      end in
  let table_length := fun t : Arrow.FromArrow.node Z Z =>
                        match t with
                        | Arrow.FromArrow.Table _ _ ((_, Arrow.FromArrow.UpTo _ _ _ n) :: _) => n
                        | _ => 0
                        end in
  let fromarrow :=
    Arrow.FromArrow.fromarrow Z Z frombuffer (fun a => a) (fun a => a) table_length in
  let column := fun (data len : Z) =>
    Arrow.FromArrow.Array Z (Arrow.FromArrow.DataType Z "int64") [None; Some data] len in
  let table := fun (data len : Z) =>
    Arrow.FromArrow.Table Z Z
      [("x", Arrow.FromArrow.UpTo Z Z (Arrow.FromArrow.Numpy Z Z data) len)] in
  let batches := [(["x"], [column 2 3]); (["x"], [column 5 0]); (["x"], [column 7 1])] in
  Forall2 (fun batch t =>
             fromarrow (Arrow.FromArrow.IsRecordBatch Z (fst batch) (snd batch))
             = Arrow.FromArrow.Done t)
          batches [table 2 3; table 5 0; table 7 1]
  /\ fromarrow (Arrow.FromArrow.IsTable Z batches)
     = Arrow.FromArrow.Done
         (Arrow.FromArrow.ChunkedArray Z Z [table 2 3; table 7 1] [3; 1]).
Proof.
  intros frombuffer table_length fromarrow column table batches.
  assert (H : Forall2 (fun batch t =>
                         fromarrow (Arrow.FromArrow.IsRecordBatch Z (fst batch) (snd batch))
                         = Arrow.FromArrow.Done t)
                      batches [table 2 3; table 5 0; table 7 1])
    by (repeat constructor).
  split; [exact H |].
  exact (proj1 (fromarrow_table Z Z frombuffer (fun a => a) (fun a => a) table_length batches)
           [table 2 3; table 5 0; table 7 1] H).
Defined.
